(** * Split-APK merge pipeline ([backend/src/apk/apk.service.ts])

    A shallow embedding of [ApkService]: the JavaScript string and array
    primitives the service relies on, the in-memory file tree its [fs] calls
    act on, and the service's methods, each under its source name.  The
    controller in front of the service and the device queries of
    [AdbService] follow. *)

From Stdlib Require Import NArith ZArith Ascii String.
From stdpp Require Import base tactics option list sorting.

Local Open Scope Z_scope.

(** ** JavaScript strings

    A JavaScript string is a sequence of UTF-16 code units; every primitive
    used by the service ([trim], [startsWith], [endsWith], [replace], [split],
    [join], the default [sort] order, the regular expression [.]) works on
    code units. *)

Module JS.

Definition jsstring := list N.

(** An ASCII literal of the source, as code units. *)
Definition lit (s : string) : jsstring :=
  map N_of_ascii (list_ascii_of_string s).

(** ECMAScript [WhiteSpace] and [LineTerminator] code units: what
    [String.prototype.trim] strips. *)
Definition isWhiteSpace (c : N) : bool :=
  ((9 <=? c) && (c <=? 13) || (c =? 32) || (c =? 160) || (c =? 5760)
   || (8192 <=? c) && (c <=? 8202) || (c =? 8232) || (c =? 8233)
   || (c =? 8239) || (c =? 8287) || (c =? 12288) || (c =? 65279))%N.

Fixpoint trimStart (s : jsstring) : jsstring :=
  match s with
  | c :: s' => if isWhiteSpace c then trimStart s' else s
  | [] => []
  end.

Definition trimEnd (s : jsstring) : jsstring := rev (trimStart (rev s)).

Definition trim (s : jsstring) : jsstring := trimEnd (trimStart s).

Fixpoint startsWith (s p : jsstring) : bool :=
  match p, s with
  | [], _ => true
  | _ :: _, [] => false
  | a :: p', b :: s' => (a =? b)%N && startsWith s' p'
  end.

Definition endsWith (s p : jsstring) : bool := startsWith (rev s) (rev p).

Definition eqb (s t : jsstring) : bool := bool_decide (s = t).

(** [s.replace(pat, rep)] with a string pattern: the first occurrence only.
    (No replacement text of the service contains a dollar sign.) *)
Fixpoint replace (s pat rep : jsstring) : jsstring :=
  if startsWith s pat then rep ++ drop (length pat) s
  else match s with
       | [] => []
       | c :: s' => c :: replace s' pat rep
       end.

(** [s.split('\n')]: the segments between line feeds; never empty. *)
Fixpoint split_nl (s : jsstring) : list jsstring :=
  match s with
  | [] => [[]]
  | c :: s' =>
      if (c =? 10)%N then [] :: split_nl s'
      else match split_nl s' with
           | l :: ls => (c :: l) :: ls
           | [] => [[c]]
           end
  end.

(** [lines.join('\n')]. *)
Fixpoint join_nl (ls : list jsstring) : jsstring :=
  match ls with
  | [] => []
  | [l] => l
  | l :: ls' => l ++ 10%N :: join_nl ls'
  end.

(** The order of the default [Array.prototype.sort] on strings: code units
    compared lexicographically, a proper prefix first. *)
Fixpoint leb (s t : jsstring) : bool :=
  match s, t with
  | [], _ => true
  | _ :: _, [] => false
  | a :: s', b :: t' => (a <? b)%N || ((a =? b)%N && leb s' t')
  end.

Definition le (s t : jsstring) : Prop := leb s t = true.

#[export] Instance le_dec : RelDecision le.
Proof. intros s t. unfold le. apply _. Defined.

(** [arr.sort()] without a comparator, on an array of strings.  The order is
    total and antisymmetric, so the sorted array does not depend on the
    engine's algorithm; a merge sort stands for it. *)
Definition sort (l : list jsstring) : list jsstring := merge_sort le l.

(** [Array.from(new Set(l))]: the first occurrence of each element, in
    insertion order. *)
Fixpoint setInsertAll (seen l : list jsstring) : list jsstring :=
  match l with
  | [] => seen
  | x :: l' =>
      if bool_decide (x ∈ seen) then setInsertAll seen l'
      else setInsertAll (seen ++ [x]) l'
  end.

Definition arrayFromSet (l : list jsstring) : list jsstring := setInsertAll [] l.

(** [arr.indexOf(x)]: the first index holding [x], or -1. *)
Fixpoint indexOfFrom (i : Z) (l : list jsstring) (x : jsstring) : Z :=
  match l with
  | [] => -1
  | y :: l' => if eqb y x then i else indexOfFrom (i + 1) l' x
  end.

Definition indexOf (l : list jsstring) (x : jsstring) : Z := indexOfFrom 0 l x.

(** [arr.splice(start, deleteCount, ...items)], returning the array after the
    call and the removed elements. *)
Definition splice {A} (l : list A) (start deleteCount : Z) (items : list A)
  : list A * list A :=
  let len := Z.of_nat (length l) in
  let s := if start <? 0 then Z.max (len + start) 0 else Z.min start len in
  let d := Z.min (Z.max deleteCount 0) (len - s) in
  (take (Z.to_nat s) l ++ items ++ drop (Z.to_nat (s + d)) l,
   take (Z.to_nat d) (drop (Z.to_nat s) l)).

End JS.

Import JS.

(** ** The do-not-compress block of [apktool.yml] *)

Definition KEY : jsstring := lit "doNotCompress:".
Definition ITEM : jsstring := lit "- ".
Definition HASH : jsstring := lit "#".

(** [getDoNotCompressLines]: the loop over [lines], with the local variables
    [inside] and [result] as arguments; [break] returns [result]. *)
Fixpoint getDoNotCompressLines_loop (inside : bool) (result : list jsstring)
    (lines : list jsstring) : list jsstring :=
  match lines with
  | [] => result
  | line :: rest =>
      if startsWith (trim line) KEY then
        getDoNotCompressLines_loop true result rest
      else if inside then
        if startsWith (trim line) ITEM then
          getDoNotCompressLines_loop inside (result ++ [line]) rest
        else if negb (eqb (trim line) []) && negb (startsWith line HASH) then
          result
        else getDoNotCompressLines_loop inside result rest
      else getDoNotCompressLines_loop inside result rest
  end.

Definition getDoNotCompressLines (lines : list jsstring) : list jsstring :=
  getDoNotCompressLines_loop false [] lines.

Record range := Range {
  startIndex : Z;
  endIndex : Z;
  lines : list jsstring
}.

(** [getDoNotCompressRange]: the loop from index [i] over the remaining
    lines, with [inside] and the three accumulated results as arguments. *)
Fixpoint getDoNotCompressRange_loop (inside : bool) (r : range) (i : Z)
    (rest : list jsstring) : range :=
  match rest with
  | [] => r
  | line :: rest' =>
      if negb inside && startsWith (trim line) KEY then
        getDoNotCompressRange_loop true r (i + 1) rest'
      else if inside then
        if startsWith (trim line) ITEM then
          getDoNotCompressRange_loop inside
            (Range (if startIndex r =? -1 then i else startIndex r) i
                   (lines r ++ [line]))
            (i + 1) rest'
        else if negb (eqb (trim line) [])
                && negb (startsWith (trim line) HASH) then
          r
        else getDoNotCompressRange_loop inside r (i + 1) rest'
      else getDoNotCompressRange_loop inside r (i + 1) rest'
  end.

Definition getDoNotCompressRange (ls : list jsstring) : range :=
  getDoNotCompressRange_loop false (Range (-1) (-1) []) 0 ls.

(** [mergeApktoolYml] on the two files' contents: [None] when the method
    returns before writing, otherwise the text written to [dst]. *)
Definition mergeApktoolYml_content (srcContent dstContent : jsstring)
  : option jsstring :=
  let srcLines := split_nl srcContent in
  let dstLines := split_nl dstContent in
  let srcDoNotCompress := getDoNotCompressLines srcLines in
  if bool_decide (length srcDoNotCompress = 0%nat) then None
  else
    let r := getDoNotCompressRange dstLines in
    let combined := arrayFromSet (lines r ++ srcDoNotCompress) in
    let sorted := sort combined in
    let newLines :=
      if negb (startIndex r =? -1) && negb (endIndex r =? -1) then
        fst (splice dstLines (startIndex r)
                    (endIndex r - startIndex r + 1) sorted)
      else dstLines in
    Some (join_nl newLines).

(** ** Exceptions and the state-and-exception monad

    Every method of the service is an [async] function that mutates the file
    system and may reject.  A computation takes the state, returns the state
    it leaves behind, and either a value or the exception thrown. *)

Inductive errno := ENOENT | ENOTDIR | EISDIR | EEXIST | EPERM | ENOTEMPTY.

Inductive exn :=
  | SysError (code : errno)              (* thrown by an [fs] call *)
  | ExecError (output : jsstring)        (* [exec] of a tool that failed *)
  | Error (msg : jsstring).              (* [new Error(msg)] *)

Definition errno_name (c : errno) : jsstring :=
  match c with
  | ENOENT => lit "ENOENT" | ENOTDIR => lit "ENOTDIR" | EISDIR => lit "EISDIR"
  | EEXIST => lit "EEXIST" | EPERM => lit "EPERM"
  | ENOTEMPTY => lit "ENOTEMPTY"
  end.

(** [e.message] *)
Definition message (e : exn) : jsstring :=
  match e with
  | SysError c => errno_name c
  | ExecError o => o
  | Error m => m
  end.

Inductive result (A : Type) : Type :=
  | Ok (a : A)
  | Throw (e : exn).
Arguments Ok {A} a.
Arguments Throw {A} e.

Definition M (S A : Type) : Type := S → result A * S.

Definition ret {S A} (a : A) : M S A := λ s, (Ok a, s).
Definition throw {S A} (e : exn) : M S A := λ s, (Throw e, s).
Definition bind {S A B} (c : M S A) (k : A → M S B) : M S B :=
  λ s, match c s with
       | (Ok a, s') => k a s'
       | (Throw e, s') => (Throw e, s')
       end.

(** An [fs] call that either fails, leaving the state as it was, or succeeds
    with a new state. *)
Definition attempt {S} (f : S → errno + S) : M S unit :=
  λ s, match f s with
       | inl c => (Throw (SysError c), s)
       | inr s' => (Ok (), s')
       end.

Declare Scope m_scope.
Delimit Scope m_scope with M.
Notation "x <- c ;; k" := (bind c (λ x, k))
  (at level 100, c at next level, right associativity) : m_scope.
Notation "c ;; k" := (bind c (λ _, k))
  (at level 100, right associativity) : m_scope.
Notation "'when' b 'then' c" := (if b then c else ret ())
  (at level 100, b at next level, c at level 100) : m_scope.

(** [for (const x of l) { body(x) }] *)
Fixpoint for_of {S A} (l : list A) (body : A → M S unit) : M S unit :=
  match l with
  | [] => ret ()
  | x :: l' => bind (body x) (λ _, for_of l' body)
  end.

(** [try { c } catch (e) { h(e) }] *)
Definition try_catch {S A} (c : M S A) (h : exn → M S A) : M S A :=
  λ s, match c s with
       | (Ok a, s') => (Ok a, s')
       | (Throw e, s') => h e s'
       end.

(** [try { c } finally { f }]: [f] runs on both exits; when [f] itself throws,
    its exception is the completion of the whole statement. *)
Definition try_finally {S A} (c : M S A) (f : M S unit) : M S A :=
  λ s, match c s with
       | (r, s') =>
           match f s' with
           | (Ok _, s'') => (r, s'')
           | (Throw e, s'') => (Throw e, s'')
           end
       end.

(** ** The file tree

    A directory is the list of its entries in listing order ([readdir]); a
    file is its text.  Paths are lists of components below the tree's root. *)

Module Fs.

Unset Elimination Schemes.
Inductive node :=
  | File (data : jsstring)
  | Dir (entries : list (jsstring * node)).
Set Elimination Schemes.

Definition path := list jsstring.

Fixpoint lookup_entry (name : jsstring) (es : list (jsstring * node))
  : option node :=
  match es with
  | [] => None
  | (n, x) :: es' => if eqb n name then Some x else lookup_entry name es'
  end.

(** Replace the entry called [name]. *)
Fixpoint set_entry (name : jsstring) (x : node) (es : list (jsstring * node))
  : list (jsstring * node) :=
  match es with
  | [] => []
  | (n, y) :: es' =>
      if eqb n name then (n, x) :: es' else (n, y) :: set_entry name x es'
  end.

Fixpoint remove_entry (name : jsstring) (es : list (jsstring * node))
  : list (jsstring * node) :=
  match es with
  | [] => []
  | (n, y) :: es' =>
      if eqb n name then es' else (n, y) :: remove_entry name es'
  end.

(** What [p] names, if anything. *)
Fixpoint stat (fs : node) (p : path) : option node :=
  match p with
  | [] => Some fs
  | name :: p' =>
      match fs with
      | File _ => None
      | Dir es =>
          match lookup_entry name es with
          | Some c => stat c p'
          | None => None
          end
      end
  end.

Definition existsSync (fs : node) (p : path) : bool :=
  match stat fs p with Some _ => true | None => false end.

(** [readFile(p, 'utf-8')] *)
Definition readFile (p : path) : M node jsstring :=
  λ fs, match stat fs p with
        | Some (File d) => (Ok d, fs)
        | Some (Dir _) => (Throw (SysError EISDIR), fs)
        | None => (Throw (SysError ENOENT), fs)
        end.

(** [readdir(p, { withFileTypes: true })] *)
Definition readdir (p : path) : M node (list (jsstring * node)) :=
  λ fs, match stat fs p with
        | Some (Dir es) => (Ok es, fs)
        | Some (File _) => (Throw (SysError ENOTDIR), fs)
        | None => (Throw (SysError ENOENT), fs)
        end.

(** [mkdir(p, { recursive: true })]: creates every missing directory along
    [p]; an existing directory is left alone, a file in the way is an error. *)
Fixpoint mkdir_p (fs : node) (p : path) : errno + node :=
  match p with
  | [] => match fs with Dir _ => inr fs | File _ => inl EEXIST end
  | name :: p' =>
      match fs with
      | File _ => inl ENOTDIR
      | Dir es =>
          match lookup_entry name es with
          | Some c =>
              match mkdir_p c p' with
              | inr c' => inr (Dir (set_entry name c' es))
              | inl e => inl e
              end
          | None =>
              match mkdir_p (Dir []) p' with
              | inr c' => inr (Dir (es ++ [(name, c')]))
              | inl e => inl e
              end
          end
      end
  end.

Definition mkdir (p : path) : M node unit := attempt (λ fs, mkdir_p fs p).

(** Writing text [d] to the file [p] ([writeFile], and the destination side
    of [copyFile]): the parent must be a directory, [p] must not be one, and
    an existing file is overwritten. *)
Fixpoint write_at (fs : node) (p : path) (d : jsstring) : errno + node :=
  match p with
  | [] => match fs with File _ => inr (File d) | Dir _ => inl EISDIR end
  | name :: p' =>
      match fs with
      | File _ => inl ENOTDIR
      | Dir es =>
          match lookup_entry name es with
          | Some c =>
              match write_at c p' d with
              | inr c' => inr (Dir (set_entry name c' es))
              | inl e => inl e
              end
          | None =>
              match p' with
              | [] => inr (Dir (es ++ [(name, File d)]))
              | _ :: _ => inl ENOENT
              end
          end
      end
  end.

Definition writeFile (p : path) (d : jsstring) : M node unit :=
  attempt (λ fs, write_at fs p d).

(** [copyFile(src, dst)] within one tree. *)
Definition copyFile (src dst : path) : M node unit :=
  (d <- readFile src ;; writeFile dst d)%M.

(** [unlink(p)]: removes a file; a directory or a missing entry is an error. *)
Fixpoint unlink_at (fs : node) (p : path) : errno + node :=
  match p with
  | [] => inl EPERM
  | name :: p' =>
      match fs with
      | File _ => inl ENOTDIR
      | Dir es =>
          match lookup_entry name es with
          | None => inl ENOENT
          | Some c =>
              match p' with
              | [] =>
                  match c with
                  | File _ => inr (Dir (remove_entry name es))
                  | Dir _ => inl EISDIR
                  end
              | _ :: _ =>
                  match unlink_at c p' with
                  | inr c' => inr (Dir (set_entry name c' es))
                  | inl e => inl e
                  end
              end
          end
      end
  end.

Definition unlink (p : path) : M node unit := attempt (λ fs, unlink_at fs p).

(** Detach the entry [p], whatever it is. *)
Fixpoint remove_at (fs : node) (p : path) : errno + node :=
  match p with
  | [] => inl EPERM
  | name :: p' =>
      match fs with
      | File _ => inl ENOTDIR
      | Dir es =>
          match lookup_entry name es with
          | None => inl ENOENT
          | Some c =>
              match p' with
              | [] => inr (Dir (remove_entry name es))
              | _ :: _ =>
                  match remove_at c p' with
                  | inr c' => inr (Dir (set_entry name c' es))
                  | inl e => inl e
                  end
              end
          end
      end
  end.

(** Make [p] name the node [n], in place of what it named, if anything. *)
Fixpoint put_at (fs : node) (p : path) (n : node) : errno + node :=
  match p with
  | [] => inr n
  | name :: p' =>
      match fs with
      | File _ => inl ENOTDIR
      | Dir es =>
          match lookup_entry name es with
          | Some c =>
              match put_at c p' n with
              | inr c' => inr (Dir (set_entry name c' es))
              | inl e => inl e
              end
          | None =>
              match p' with
              | [] => inr (Dir (es ++ [(name, n)]))
              | _ :: _ => inl ENOENT
              end
          end
      end
  end.

(** [rename(a, b)]: a file replaces a file, a directory an empty
    directory. *)
Definition rename_at (fs : node) (a b : path) : errno + node :=
  match stat fs a with
  | None => inl ENOENT
  | Some n =>
      match stat fs b, n with
      | Some (Dir _), File _ => inl EISDIR
      | Some (File _), Dir _ => inl ENOTDIR
      | Some (Dir (_ :: _)), Dir _ => inl ENOTEMPTY
      | _, _ =>
          match remove_at fs a with
          | inr fs1 => put_at fs1 b n
          | inl e => inl e
          end
      end
  end.

Definition rename (a b : path) : M node unit := attempt (λ fs, rename_at fs a b).

End Fs.

Import Fs.

(** ** Tree Merger: [mergeDirContents] and the first loop of
    [mergeApkContents] *)

Section merge_entries.
(** The [for (const entry of entries)] loop of [mergeDirContents]; [rec] is
    the recursive call. *)
Variable rec : node → path → M node unit.

Definition mergeEntry (dst : path) (entry : jsstring * node) : M node unit :=
  let dstPath := dst ++ [entry.1] in
  match entry.2 with
  | Dir _ => rec entry.2 dstPath
  | File data =>
      λ fs, if negb (existsSync fs dstPath)
            then writeFile dstPath data fs   (* copyFile(srcPath, dstPath) *)
            else (Ok (), fs)
  end.

Fixpoint mergeEntries (dst : path) (entries : list (jsstring * node))
  : M node unit :=
  match entries with
  | [] => ret ()
  | entry :: rest => bind (mergeEntry dst entry) (λ _, mergeEntries dst rest)
  end.
End merge_entries.

(** [mergeDirContents(src, dst)]; [src] is the node read at the source path,
    which lies in another directory than [dst] and is not written to. *)
Fixpoint mergeDirContents (src : node) (dst : path) {struct src}
  : M node unit :=
  bind (λ fs, if negb (existsSync fs dst) then mkdir dst fs else (Ok (), fs))
       (λ _, match src with
             | Dir entries => mergeEntries mergeDirContents dst entries
             | File _ => throw (SysError ENOTDIR)   (* readdir of a file *)
             end).

Definition dirsToMerge : list jsstring :=
  map lit ["assets"; "lib"; "res"; "unknown"; "kotlin"]%string.

Definition CONST_APK_FILE_APKTOOL_CONFIG : jsstring := lit "apktool.yml".

(** The loop over [dirsToMerge] in [mergeApkContents]. *)
Definition mergeApkContents_dirs (mainDir secDir : path) : M node unit :=
  for_of dirsToMerge (λ dir,
    let src := secDir ++ [dir] in
    let dst := mainDir ++ [dir] in
    λ fs, match stat fs src with          (* fs.existsSync(src) *)
          | Some n => mergeDirContents n dst fs
          | None => (Ok (), fs)
          end).

Definition mergeApktoolYml (src dst : path) : M node unit :=
  (srcContent <- readFile src ;;
   dstContent <- readFile dst ;;
   match mergeApktoolYml_content srcContent dstContent with
   | None => ret ()
   | Some text => writeFile dst text
   end)%M.

Definition mergeApkContents (mainDir secDir : path) : M node unit :=
  (mergeApkContents_dirs mainDir secDir ;;
   let srcConfig := secDir ++ [CONST_APK_FILE_APKTOOL_CONFIG] in
   let dstConfig := mainDir ++ [CONST_APK_FILE_APKTOOL_CONFIG] in
   λ fs, if existsSync fs srcConfig && existsSync fs dstConfig
         then mergeApktoolYml srcConfig dstConfig fs
         else (Ok (), fs))%M.

(** ** Signature files: [deleteSignatureRelatedFiles] *)

Definition isSignatureRelated (file : jsstring) : bool :=
  endsWith file (lit ".RSA") || endsWith file (lit ".SF")
  || eqb file (lit "MANIFEST.MF").

Definition deleteSignatureRelatedFiles (apkDir : path) : M node unit :=
  let metaInf := apkDir ++ [lit "original"; lit "META-INF"] in
  λ fs, if existsSync fs metaInf then
          (entries <- readdir metaInf ;;
           for_of (map fst entries) (λ file,
             when isSignatureRelated file then unlink (metaInf ++ [file])))%M fs
        else (Ok (), fs).

(** ** Manifest Sanitizer: [updateMainManifestFile] *)

Module Rx.

(** The four regular expressions of the service are sequences of atoms that
    each consume one code unit: a literal, or [.] (any code unit but a line
    terminator). *)
Inductive atom := Ch (c : N) | Dot.

Definition isLineTerminator (c : N) : bool :=
  ((c =? 10) || (c =? 13) || (c =? 8232) || (c =? 8233))%N.

Definition atom_matches (a : atom) (c : N) : bool :=
  match a with
  | Ch x => (x =? c)%N
  | Dot => negb (isLineTerminator c)
  end.

(** Does the expression match at the start of [s]? *)
Fixpoint matchesAt (re : list atom) (s : jsstring) : bool :=
  match re, s with
  | [], _ => true
  | _ :: _, [] => false
  | a :: re', c :: s' => atom_matches a c && matchesAt re' s'
  end.

(** [s.replace(/re/g, rep)] for a non-empty [re]: left to right, every match
    is replaced and the scan resumes after it; [skip] counts the code units
    of the current match still to be passed over. *)
Fixpoint replaceAll_from (skip : nat) (re : list atom) (rep s : jsstring)
  : jsstring :=
  match s with
  | [] => []
  | c :: s' =>
      match skip with
      | S k => replaceAll_from k re rep s'
      | O =>
          if matchesAt re s
          then rep ++ replaceAll_from (length re - 1) re rep s'
          else c :: replaceAll_from 0 re rep s'
      end
  end.

Definition replaceAll (re : list atom) (rep s : jsstring) : jsstring :=
  replaceAll_from 0 re rep s.

(** The source text of an expression, read as the engine does: a backslash
    makes the next character a literal, a dot is [.]; an apostrophe in the
    text below stands for the double quote of the source. *)
Fixpoint parse (src : list N) : list atom :=
  match src with
  | [] => []
  | 92%N :: c :: src' => Ch c :: parse src'
  | 46%N :: src' => Dot :: parse src'
  | 39%N :: src' => Ch 34 :: parse src'
  | c :: src' => Ch c :: parse src'
  end.

Definition regex (src : string) : list atom := parse (lit src).

End Rx.

(** A literal in which an apostrophe stands for the double quote. *)
Definition litq (s : string) : jsstring :=
  map (λ c, if (c =? 39)%N then 34%N else c) (lit s).

Definition RE_SPLIT_REQUIRED : list Rx.atom :=
  Rx.regex " android:isSplitRequired='true' ".
Definition RE_SPLITS_REQUIRED_META : list Rx.atom :=
  Rx.regex "<meta-data android:name='com.android.vending.splits.required' android:value='true'\/>".
Definition RE_SPLITS_META : list Rx.atom :=
  Rx.regex "<meta-data android:name='com.android.vending.splits' android:resource='@xml\/splits0'\/>".
Definition RE_STAMP_TYPE : list Rx.atom :=
  Rx.regex "android:value='STAMP_TYPE_DISTRIBUTION_APK'".

(** The four [data = data.replace(...)] statements. *)
Definition updateMainManifestFile_data (data : jsstring) : jsstring :=
  let data := Rx.replaceAll RE_SPLIT_REQUIRED (lit " ") data in
  let data := Rx.replaceAll RE_SPLITS_REQUIRED_META [] data in
  let data := Rx.replaceAll RE_SPLITS_META [] data in
  let data := Rx.replaceAll RE_STAMP_TYPE
                (litq "android:value='STAMP_TYPE_STANDALONE_APK'") data in
  data.

Definition updateMainManifestFile (apkDir : path) : M node unit :=
  let manifestPath := apkDir ++ [lit "AndroidManifest.xml"] in
  λ fs, if negb (existsSync fs manifestPath) then (Ok (), fs)
        else (data <- readFile manifestPath ;;
              writeFile manifestPath (updateMainManifestFile_data data))%M fs.

(** ** Input Collector: the file order of [prepareApkFiles] *)

Definition CONST_EXT_APK : jsstring := lit ".apk".
Definition BASE_APK : jsstring := lit "base.apk".

(** From [readdirSync(inputPath)] to the ordered [files]. *)
Definition orderApkFiles (listing : list jsstring) : list jsstring :=
  let files := filter (λ f, endsWith f CONST_EXT_APK = true) listing in
  let files := sort files in
  let baseIndex := indexOf files BASE_APK in
  if 0 <? baseIndex then
    let '(files, removed) := splice files baseIndex 1 [] in
    match removed with
    | base :: _ => base :: files      (* files.unshift(removed[0]) *)
    | [] => files
    end
  else files.

(** ** The merge request: [mergeApks]

    A request touches three places: the input directory, which is only read;
    the temporary directory [tmpDir], which the request creates and inside
    which every intermediate file lives; and the destination [outputPath].
    They are different places, so the state has one component for each.  The
    names taken from the input listing are used as single path components
    below [tmpDir]. *)

Inductive logline :=
  | Log (msg : jsstring)                       (* this.logger.log *)
  | LogError (msg : jsstring) (e : exn).       (* this.logger.error *)

Record world := World {
  input : option node;       (* what [inputPath] names *)
  workspace : option node;   (* what [tmpDir] names *)
  output : option node;      (* what [outputPath] names *)
  logged : list logline
}.

Definition set_workspace (t : option node) (w : world) : world :=
  World (input w) t (output w) (logged w).
Definition set_output (o : option node) (w : world) : world :=
  World (input w) (workspace w) o (logged w).

Definition log (msg : jsstring) : M world unit :=
  λ w, (Ok (), World (input w) (workspace w) (output w) (logged w ++ [Log msg])).
Definition log_error (msg : jsstring) (e : exn) : M world unit :=
  λ w, (Ok (), World (input w) (workspace w) (output w)
                     (logged w ++ [LogError msg e])).

(** Run a computation on the tree below [tmpDir]. *)
Definition in_workspace {A} (c : M node A) : M world A :=
  λ w, match workspace w with
       | Some t => let '(r, t') := c t in (r, set_workspace (Some t') w)
       | None => (Throw (SysError ENOENT), w)
       end.

(** What lies outside the service: the two command-line tools, run through
    [exec], and whether the operating system lets the workspace be removed. *)
Record environment := Environment {
  tmpDir : jsstring;                        (* os.tmpdir()/merge-apk-<now> *)
  apktool_d : jsstring → M node unit;       (* apktool d -s "<apk>", cwd tmpDir *)
  apktool_b : jsstring → M node unit;       (* apktool b "<dir>", cwd tmpDir *)
  zipalign : jsstring → jsstring → M node unit;  (* zipalign -p -f 4 in out *)
  rm_error : node → option exn              (* why rm -rf tmpDir fails, if it does *)
}.

Section pipeline.
Variable env : environment.

Definition CONST_FILE_TARGET_FILE : jsstring := lit "target".

Definition createTmpDir : M world jsstring :=
  λ w, match workspace w with
       | None => (Ok (tmpDir env), set_workspace (Some (Dir [])) w)
       | Some (Dir _) => (Ok (tmpDir env), w)
       | Some (File _) => (Throw (SysError EEXIST), w)
       end.

(** [copyFile(path.join(inputPath, file), path.join(tmpDir, file))] *)
Definition copyIntoWorkspace (file : jsstring) : M world unit :=
  λ w, match input w with
       | Some (Dir es) =>
           match lookup_entry file es with
           | Some (File d) => in_workspace (writeFile [file] d) w
           | Some (Dir _) => (Throw (SysError EISDIR), w)
           | None => (Throw (SysError ENOENT), w)
           end
       | Some (File _) => (Throw (SysError ENOTDIR), w)
       | None => (Throw (SysError ENOENT), w)
       end.

Fixpoint prepareApkFiles_loop (files preparedFiles : list jsstring)
  : M world (list jsstring) :=
  match files with
  | [] => ret preparedFiles
  | file :: rest =>
      bind (copyIntoWorkspace file)
           (λ _, prepareApkFiles_loop rest (preparedFiles ++ [file]))
  end.

Definition prepareApkFiles : M world (list jsstring) :=
  λ w, match input w with
       | None => (Throw (SysError ENOENT), w)        (* statSync *)
       | Some (Dir es) =>
           prepareApkFiles_loop (orderApkFiles (map fst es)) [] w
       | Some (File _) =>
           (Throw (Error (lit
              "Input path must be a directory containing split APKs")), w)
       end.

Definition unpackApk (apkFile : jsstring) : M world unit :=
  (log (lit "Unpacking " ++ apkFile ++ lit "...") ;;
   try_catch
     (in_workspace (apktool_d env apkFile) ;;
      in_workspace (unlink [apkFile]))
     (λ e, throw (Error (lit "Failed to unpack " ++ apkFile ++ lit ": "
                         ++ message e))))%M.

Definition packApk (apkDirName : jsstring) : M world unit :=
  (log (lit "Repacking APK...") ;;
   try_catch (in_workspace (apktool_b env apkDirName))
     (λ e, throw (Error (lit "Failed to pack APK: " ++ message e))) ;;
   let distDir := [apkDirName; lit "dist"] in
   entries <- in_workspace (readdir distDir) ;;
   match map fst entries with
   | builtApk :: _ =>
       if eqb builtApk [] then throw (Error (lit "Result APK not found in dist"))
       else
         let target := [CONST_FILE_TARGET_FILE ++ CONST_EXT_APK] in
         in_workspace (copyFile (distDir ++ [builtApk]) target)
   | [] => throw (Error (lit "Result APK not found in dist"))
   end)%M.

Definition zipalignApk (apkPath : jsstring) : M world unit :=
  (log (lit "Zipaligning APK...") ;;
   let alignedPath := replace apkPath (lit ".apk") (lit "-aligned.apk") in
   try_catch
     (in_workspace (zipalign env apkPath alignedPath) ;;
      in_workspace (rename [alignedPath] [apkPath]))
     (λ e, throw (Error (lit "Failed to zipalign: " ++ message e))))%M.

(** Steps 1 to 4 of the [try] block; the value is [mainApkDir]. *)
Definition mergeApks_assemble : M world jsstring :=
  (apkFiles <- prepareApkFiles ;;
   match apkFiles with
   | [] => throw (Error (lit "No APK files found in input path"))
   | first :: others =>
       for_of apkFiles unpackApk ;;
       let mainApkDir := replace first (lit ".apk") [] in
       let secondaryApkDirs := map (λ f, replace f (lit ".apk") []) others in
       for_of secondaryApkDirs (λ secDir,
         in_workspace (mergeApkContents [mainApkDir] [secDir])) ;;
       let mainApkPath := [mainApkDir] in
       in_workspace (deleteSignatureRelatedFiles mainApkPath) ;;
       in_workspace (updateMainManifestFile mainApkPath) ;;
       ret mainApkDir
   end)%M.

(** Steps 1 to 6: everything before the copy to [outputPath]. *)
Definition mergeApks_stages : M world unit :=
  (mainApkDir <- mergeApks_assemble ;;
   packApk mainApkDir ;;
   zipalignApk (CONST_FILE_TARGET_FILE ++ CONST_EXT_APK))%M.

(** Step 7: [copyFile(targetApk, outputPath)]; the parent directory of
    [outputPath] is taken to be there or creatable. *)
Definition copyToOutput : M world unit :=
  λ w, match workspace w with
       | None => (Throw (SysError ENOENT), w)
       | Some t =>
           match stat t [CONST_FILE_TARGET_FILE ++ CONST_EXT_APK] with
           | Some (File d) =>
               match output w with
               | Some (Dir _) => (Throw (SysError EISDIR), w)
               | _ => (Ok (), set_output (Some (File d)) w)
               end
           | Some (Dir _) => (Throw (SysError EISDIR), w)
           | None => (Throw (SysError ENOENT), w)
           end
       end.

(** The [try { ... } catch (e) { ... }] part of [mergeApks]. *)
Definition mergeApks_try (outputPath : jsstring) : M world jsstring :=
  try_catch
    (mergeApks_stages ;;
     copyToOutput ;;
     log (lit "Merged APK saved to: " ++ outputPath) ;;
     ret outputPath)%M
    (λ e, log_error (lit "Error merging APKs") e ;; throw e)%M.

(** [fs.promises.rm(tmpDir, { recursive: true, force: true })] *)
Definition rm_tmpDir : M world unit :=
  λ w, match workspace w with
       | None => (Ok (), w)
       | Some t =>
           match rm_error env t with
           | None => (Ok (), set_workspace None w)
           | Some e => (Throw e, w)
           end
       end.

Definition mergeApks (inputPath outputPath : jsstring) : M world jsstring :=
  (tmp <- createTmpDir ;;
   log (lit "Created temp directory: " ++ tmp) ;;
   try_finally (mergeApks_try outputPath) rm_tmpDir)%M.
End pipeline.

(** ** The controller of the merge request: [ApkController.mergeApk]
    ([backend/src/apk/apk.controller.ts]) *)

Module ApkController.

Inductive HttpStatus := BAD_REQUEST | INTERNAL_SERVER_ERROR.

(** The request body: each of the two fields is missing or a string. *)
Record body := Body {
  inputPath : option jsstring;
  outputPath : option jsstring
}.

(** How the handler completes: with the object it returns, or with the
    [HttpException] it throws. *)
Inductive completion :=
  | Returned (success : bool) (path : jsstring)
  | HttpException (response : jsstring) (status : HttpStatus).

(** Truthiness of a field or of a string: there, and not the empty
    string. *)
Definition truthy (x : option jsstring) : bool :=
  match x with Some (_ :: _) => true | _ => false end.

(** The state the handler runs in: that of the service, and what
    [console.error] has printed. *)
Record state := State { service : world; console : list exn }.

Definition mergeApk (env : environment) (b : body) (s : state)
  : completion * state :=
  if negb (truthy (inputPath b)) || negb (truthy (outputPath b)) then
    (HttpException (lit "inputPath and outputPath are required") BAD_REQUEST,
     s)
  else
    match mergeApks env (default [] (inputPath b)) (default [] (outputPath b))
            (service s) with
    | (Ok result, w') => (Returned true result, State w' (console s))
    | (Throw error, w') =>
        (HttpException
           (if truthy (Some (message error)) then message error
            else lit "Failed to merge APKs")
           INTERNAL_SERVER_ERROR,
         State w' (console s ++ [error]))
    end.

End ApkController.

(** ** Device queries: [AdbService] ([backend/src/adb/adb.service.ts])

    The three queries run one [adb] command each and parse what it prints. *)

Module AdbService.

(** [s.includes(pat)] *)
Fixpoint includes (s pat : jsstring) : bool :=
  startsWith s pat
  || match s with
     | [] => false
     | _ :: s' => includes s' pat
     end.

(** [s.split('\t')] *)
Fixpoint split_tab (s : jsstring) : list jsstring :=
  match s with
  | [] => [[]]
  | c :: s' =>
      if (c =? 9)%N then [] :: split_tab s'
      else match split_tab s' with
           | l :: ls => (c :: l) :: ls
           | [] => [[c]]
           end
  end.

Section queries.
(** [execAsync(command)]: what the command prints on its standard output,
    or the rejection when it cannot be run or exits with an error. *)
Variable execAsync : jsstring → result jsstring.

Definition getDevices : list jsstring :=
  match execAsync (lit "adb devices") with
  | Ok stdout =>
      let lines := drop 1 (split_nl (trim stdout)) in      (* slice(1) *)
      map (λ line, match split_tab line with
                   | serial :: _ => serial                  (* [0] *)
                   | [] => []
                   end)
          (filter (λ line, includes line (lit "device") = true) lines)
  | Throw _ => []
  end.

Definition deviceFlag (device : option jsstring) : jsstring :=
  match device with
  | Some (c :: d) => lit "-s " ++ c :: d
  | _ => []
  end.

Definition listPackages (device : option jsstring) : list jsstring :=
  match execAsync (lit "adb " ++ deviceFlag device
                   ++ lit " shell pm list packages -3") with
  | Ok stdout =>
      map (λ line, replace line (lit "package:") []) (split_nl (trim stdout))
  | Throw _ => []
  end.

Definition getApkPaths (packageName : jsstring) (device : option jsstring)
  : list jsstring :=
  match execAsync (lit "adb " ++ deviceFlag device ++ lit " shell pm path "
                   ++ packageName) with
  | Ok stdout =>
      map (λ line, replace line (lit "package:") []) (split_nl (trim stdout))
  | Throw _ => []
  end.

End queries.

End AdbService.

(** * Vocabulary of the properties

    The induction principle of the file tree, the predicates the theorems are
    stated with, and the data of the examples. *)

Section node_induction.
Variable P : node → Prop.
Hypothesis HFile : ∀ d, P (File d).
Hypothesis HDir : ∀ es, Forall (λ e, P e.2) es → P (Dir es).

Fixpoint node_ind (n : node) : P n :=
  match n with
  | File d => HFile d
  | Dir es =>
      HDir es
        ((fix go (es : list (jsstring * node)) : Forall (λ e, P e.2) es :=
            match es with
            | [] => @List.Forall_nil _ (λ e, P e.2)
            | (k, x) :: es' =>
                @List.Forall_cons _ (λ e, P e.2) (k, x) es' (node_ind x) (go es')
            end) es)
  end.
End node_induction.

Definition kind_of (n : node) : option jsstring :=
  match n with File d => Some d | Dir _ => None end.

(** [fs'] has everything [fs] has: each path of [fs] still names an entry of
    the same kind, a file with the same text. *)
Definition extends (fs fs' : node) : Prop :=
  ∀ q n, stat fs q = Some n →
    ∃ n', stat fs' q = Some n' ∧ kind_of n' = kind_of n.

(** Every path of [fs] still names something in [fs']. *)
Definition grows (fs fs' : node) : Prop :=
  ∀ q, is_Some (stat fs q) → is_Some (stat fs' q).

(** [q] lies neither under [p] nor on the way to it. *)
Definition apart (p q : path) : Prop :=
  ¬ p `prefix_of` q ∧ ¬ q `prefix_of` p.

Definition preserves {S A} (R : relation S) (c : M S A) : Prop :=
  ∀ s r s', c s = (r, s') → R s s'.

(** [fs'] is [fs] everywhere away from [p]. *)
Definition same_outside (p : path) (fs fs' : node) : Prop :=
  ∀ q, apart p q → stat fs' q = stat fs q.

(** The workspace of the examples: a base tree holding [res/x] with text A,
    and a split holding [res/x] with text B and [lib/arm64/libx.so]. *)
Definition ws_example : node :=
  Dir [(lit "base", Dir [(lit "res", Dir [(lit "x", File (lit "A"))])]);
       (lit "split_config.arm64",
        Dir [(lit "res", Dir [(lit "x", File (lit "B"))]);
             (lit "lib", Dir [(lit "arm64",
                               Dir [(lit "libx.so", File (lit "ELF"))])])])].

Definition isKey (line : jsstring) : bool := startsWith (trim line) KEY.
Definition isItem (line : jsstring) : bool := startsWith (trim line) ITEM.
Definition isBlank (line : jsstring) : bool := eqb (trim line) [].
Definition isComment (line : jsstring) : bool := startsWith (trim line) HASH.

(** What [startIndex] and [endIndex] delimit: nothing, both being -1, when no
    item was found; otherwise a segment [mid] of the file that begins and ends
    with an item line, whose item lines are the extracted ones, the others
    being blank lines and comments. *)
Definition range_delimits (ls : list jsstring) (r : range) : Prop :=
  (lines r = [] ∧ startIndex r = -1 ∧ endIndex r = -1)
  ∨ ∃ a mid c,
      ls = a ++ mid ++ c
      ∧ startIndex r = Z.of_nat (length a)
      ∧ endIndex r = Z.of_nat (length a + length mid) - 1
      ∧ (∃ x, head mid = Some x ∧ isItem x = true)
      ∧ (∃ y, last mid = Some y ∧ isItem y = true)
      ∧ filter (λ l, isItem l = true) mid = lines r
      ∧ Forall (λ l, isItem l = true ∨ isBlank l = true ∨ isComment l = true) mid.

(** The state of the range scan after the lines [pre]: as above, with the
    blank and comment lines [b] seen since the last item. *)
Definition range_inv (pre : list jsstring) (r : range) : Prop :=
  (lines r = [] ∧ startIndex r = -1 ∧ endIndex r = -1)
  ∨ ∃ a mid b,
      pre = a ++ mid ++ b
      ∧ startIndex r = Z.of_nat (length a)
      ∧ endIndex r = Z.of_nat (length a + length mid) - 1
      ∧ (∃ x, head mid = Some x ∧ isItem x = true)
      ∧ (∃ y, last mid = Some y ∧ isItem y = true)
      ∧ filter (λ l, isItem l = true) mid = lines r
      ∧ Forall (λ l, isItem l = true ∨ isBlank l = true ∨ isComment l = true) mid
      ∧ Forall (λ l, isItem l = false
                     ∧ (isBlank l = true ∨ isComment l = true)) b.

Definition no_newline (l : jsstring) : Prop := 10%N ∉ l.

(** The scan passes over [a] without recording an item and without
    stopping; the value is whether it is inside the block afterwards. *)
Fixpoint scan_quiet (inside : bool) (a : list jsstring) : option bool :=
  match a with
  | [] => Some inside
  | line :: a' =>
      if negb inside && isKey line then scan_quiet true a'
      else if inside then
        if isItem line then None
        else if negb (isBlank line) && negb (isComment line) then None
        else scan_quiet inside a'
      else scan_quiet inside a'
  end.

(** Inside the block, the scan of [c] stops or ends before any item. *)
Fixpoint no_item_ahead (c : list jsstring) : bool :=
  match c with
  | [] => true
  | line :: c' =>
      if isItem line then false
      else if negb (isBlank line) && negb (isComment line) then true
      else no_item_ahead c'
  end.

(** No comment line of the file is indented. *)
Definition comments_flush (ls : list jsstring) : Prop :=
  Forall (λ l : jsstring, isComment l = true → startsWith l HASH = true) ls.

(** The file has at most one line with the key. *)
Definition single_key (ls : list jsstring) : Prop :=
  (length (filter (λ l, isKey l = true) ls) ≤ 1)%nat.

Definition yml_example : list jsstring :=
  map lit ["version: 2"; "doNotCompress:"; "- res/a.so"; "- res/b.so";
           "isFrameworkApk: false"]%string.

Definition yml_base : jsstring :=
  join_nl (map lit ["version: 2"; "doNotCompress:"; "- res/a.so"; "- res/b.so";
                    "isFrameworkApk: false"]%string).
Definition yml_split : jsstring :=
  join_nl (map lit ["doNotCompress:"; "- res/b.so"; "- res/c.so"]%string).

(** Entries of a directory that are all regular files. *)
Definition flat (es : list (jsstring * node)) : Prop :=
  Forall (λ e, ∃ d, e.2 = File d) es.

Definition input_example : list (jsstring * node) :=
  [(lit "split_config.en.apk", File (lit "en"));
   (lit "notes.txt", File (lit "n"));
   (lit "base.apk", File (lit "b"));
   (lit "a_split.apk", File (lit "a"))].

(** Does the expression match somewhere in [s]? *)
Fixpoint occursb (re : list Rx.atom) (s : jsstring) : bool :=
  Rx.matchesAt re s
  || match s with
     | [] => false
     | _ :: s' => occursb re s'
     end.

(** None of the four expressions matches anywhere in the document. *)
Definition no_marker (data : jsstring) : Prop :=
  occursb RE_SPLIT_REQUIRED data = false
  ∧ occursb RE_SPLITS_REQUIRED_META data = false
  ∧ occursb RE_SPLITS_META data = false
  ∧ occursb RE_STAMP_TYPE data = false.

Definition manifest_example : jsstring :=
  litq "<application android:isSplitRequired='true' android:label='x'><meta-data android:name='com.android.vending.splits.required' android:value='true'/><meta-data android:name='com.android.vending.splits' android:resource='@xml/splits0'/><meta-data android:name='com.android.stamp.type' android:value='STAMP_TYPE_DISTRIBUTION_APK'/></application>".

(** A document in which the split-required attribute is written twice in a
    row. *)
Definition manifest_twice_marked : jsstring :=
  litq "<application android:isSplitRequired='true' android:isSplitRequired='true' android:label='x'>".

Definition keeps (e : jsstring * node) : Prop := isSignatureRelated e.1 = false.

(** The same workspace with a packaging configuration in each tree. *)
Definition ws_example_yml : node :=
  Dir [(lit "base",
        Dir [(lit "res", Dir [(lit "x", File (lit "A"))]);
             (lit "apktool.yml", File yml_base)]);
       (lit "split_config.arm64",
        Dir [(lit "res", Dir [(lit "x", File (lit "B"))]);
             (lit "lib", Dir [(lit "arm64",
                               Dir [(lit "libx.so", File (lit "ELF"))])]);
             (lit "apktool.yml", File yml_split)])].

Definition metaInf_example : list (jsstring * node) :=
  [(lit "CERT.RSA", File (lit "rsa"));
   (lit "services", Dir []);
   (lit "CERT.SF", File (lit "sf"));
   (lit "MANIFEST.MF", File (lit "mf"));
   (lit "kotlin.kotlin_module", File (lit "k"))].

Definition base_example : node :=
  Dir [(lit "AndroidManifest.xml", File manifest_example);
       (lit "original", Dir [(lit "META-INF", Dir metaInf_example)])].

Definition same_output (w w' : world) : Prop := output w' = output w.

Definition add_log (l : logline) (w : world) : world :=
  World (input w) (workspace w) (output w) (logged w ++ [l]).

Definition target_apk : path := [CONST_FILE_TARGET_FILE ++ CONST_EXT_APK].

(** The state in which the [try] block is entered, for a request whose
    temporary directory did not exist before. *)
Definition started (env : environment) (w : world) : world :=
  add_log (Log (lit "Created temp directory: " ++ tmpDir env))
          (set_workspace (Some (Dir [])) w).

Definition decoded_base : node :=
  Dir [(lit "AndroidManifest.xml", File manifest_example);
       (lit "apktool.yml", File yml_base);
       (lit "res", Dir [(lit "icon.png", File (lit "PNG"))]);
       (lit "original", Dir [(lit "META-INF", Dir metaInf_example)])].

Definition decoded_split : node :=
  Dir [(lit "apktool.yml", File yml_split);
       (lit "lib", Dir [(lit "arm64", Dir [(lit "libx.so", File (lit "ELF"))])])].

(** Stand-ins for the tools: decoding yields a fixed tree per archive,
    building leaves one file in [dist], aligning marks the file. *)
Definition env_example (rm : node → option exn) : environment :=
  Environment (lit "/tmp/merge-apk-1")
    (λ apk, d <- readFile [apk] ;;
            attempt (λ fs, put_at fs [replace apk (lit ".apk") []]
                             (if eqb d (lit "BASE") then decoded_base
                              else decoded_split)))%M
    (λ dir, mkdir [dir; lit "dist"] ;;
            writeFile [dir; lit "dist"; dir ++ lit ".apk"] (lit "built"))%M
    (λ inp out, d <- readFile [inp] ;; writeFile [out] (d ++ lit " aligned"))%M
    rm.

Definition env_ok : environment := env_example (λ _, None).

Definition request_example : world :=
  World (Some (Dir [(lit "split_config.arm64.apk", File (lit "SPLIT"));
                    (lit "base.apk", File (lit "BASE"))]))
        None None [].

Definition request_without_input : world := World None None None [].

(** The same tools, on a system that refuses to remove the workspace. *)
Definition env_refusing : environment :=
  env_example (λ _, Some (SysError EPERM)).

(** A secondary's [lib] and [res] subtrees, and the [res] subtree of another
    secondary that carries a file of the same name. *)
Definition split_lib_example : node :=
  Dir [(lit "arm64", Dir [(lit "libx.so", File (lit "ELF"))])].

Definition split_res_example : node :=
  Dir [(lit "x", File (lit "B")); (lit "y", File (lit "first"))].

Definition split_res_other : node :=
  Dir [(lit "y", File (lit "second")); (lit "z", File (lit "Z"))].

(** A tree none of whose directories lists a name twice. *)
Fixpoint distinct_names (n : node) : Prop :=
  match n with
  | File _ => True
  | Dir es =>
      NoDup (map fst es)
      ∧ (fix all (es : list (jsstring * node)) : Prop :=
           match es with
           | [] => True
           | (_, c) :: es' => distinct_names c ∧ all es'
           end) es
  end.

(** [fs'] is [fs] everywhere away from the five merged subtrees and the
    packaging configuration of the tree at [mainDir]. *)
Definition merge_frame (mainDir : path) (fs fs' : node) : Prop :=
  ∀ q, Forall (λ name, apart (mainDir ++ [name]) q)
              (dirsToMerge ++ [CONST_APK_FILE_APKTOOL_CONFIG]) →
       stat fs' q = stat fs q.

(** A workspace in which both trees hold code and a manifest. *)
Definition ws_example_dex : node :=
  Dir [(lit "base",
        Dir [(lit "classes.dex", File (lit "DEX0"));
             (lit "AndroidManifest.xml", File (lit "<manifest/>"));
             (lit "res", Dir [(lit "x", File (lit "A"))])]);
       (lit "split",
        Dir [(lit "classes.dex", File (lit "DEX1"));
             (lit "AndroidManifest.xml", File (lit "<manifest split='s'/>"));
             (lit "res", Dir [(lit "y", File (lit "B"))])])].

(** The text of the destination configuration after [mergeApktoolYml]: the
    text written, or the text as it was when the method returns early. *)
Definition mergeApktoolYml_text (srcContent dstContent : jsstring) : jsstring :=
  default dstContent (mergeApktoolYml_content srcContent dstContent).

(** A line on which both scans leave the block. *)
Definition ends_block (line : jsstring) : bool :=
  negb (isKey line) && negb (isItem line) && negb (isBlank line)
  && negb (isComment line).

(** A base configuration without a do-not-compress block. *)
Definition yml_without_block : jsstring :=
  join_nl (map lit ["version: 2"; "isFrameworkApk: false"]%string).

Definition ws_example_no_block : node :=
  Dir [(lit "base", Dir [(lit "apktool.yml", File yml_without_block)]);
       (lit "split", Dir [(lit "apktool.yml", File yml_split)])].

Definition yml_split_other : jsstring :=
  join_nl (map lit ["doNotCompress:"; "- assets/z.bin"; "- res/a.so"]%string).

(** The names a directory lists. *)
Definition listing (n : node) : list jsstring :=
  match n with Dir es => map fst es | File _ => [] end.


Definition request_assembled : world :=
  (mergeApks_assemble env_ok (started env_ok request_example)).2.


(** The error [prepareApkFiles] or the check after it raises for an input
    that holds no archive: a directory without an [.apk] entry, a regular
    file, nothing at all. *)
Definition input_error (w : world) : exn :=
  match input w with
  | Some (Dir _) => Error (lit "No APK files found in input path")
  | Some (File _) =>
      Error (lit "Input path must be a directory containing split APKs")
  | None => SysError ENOENT
  end.

Definition same_input (w w' : world) : Prop := input w' = input w.

Definition request_without_archives : world :=
  World (Some (Dir [(lit "notes.txt", File (lit "n"))])) None None [].

(** The state of the controller before a request. *)
Definition server_example : ApkController.state :=
  ApkController.State request_example [].

(** What [adb devices] prints: the heading, one line per device with its
    serial number, a tab and its state, and an empty line. *)
Definition adb_devices_output (devs : list (jsstring * jsstring)) : jsstring :=
  join_nl (lit "List of devices attached"
           :: map (λ d, d.1 ++ 9%N :: d.2) devs)
  ++ [10%N; 10%N].

(** A word: not empty and without white space. *)
Definition word (s : jsstring) : Prop :=
  s ≠ [] ∧ Forall (λ c, isWhiteSpace c = false) s.

(** What [pm list packages] and [pm path] print: one line per entry, the
    entry after [package:]. *)
Definition pm_output (names : list jsstring) : jsstring :=
  join_nl (map (λ n, lit "package:" ++ n) names) ++ [10%N].

(** No white space at the end. *)
Definition ends_clean (s : jsstring) : Prop :=
  ∀ c, last s = Some c → isWhiteSpace c = false.

(** A device farm: two devices ready, one offline whose serial number holds
    the word [device], one not authorized. *)
Definition devices_example : list (jsstring * jsstring) :=
  [(lit "emulator-5554", lit "device");
   (lit "mydevice01", lit "offline");
   (lit "R58M123", lit "unauthorized");
   (lit "192.168.1.5:5555", lit "device")].

Definition adb_example (command : jsstring) : result jsstring :=
  if eqb command (lit "adb devices")
  then Ok (adb_devices_output devices_example)
  else if eqb command (lit "adb -s emulator-5554 shell pm list packages -3")
  then Ok (pm_output (map lit ["com.example.app"; "org.demo"]%string))
  else if eqb command (lit "adb  shell pm path com.example.app")
  then Ok (pm_output (map lit ["/data/app/x/base.apk";
                               "/data/app/x/split_config.en.apk"]%string))
  else Throw (ExecError (lit "adb: command failed")).

(** A request that finds its temporary directory already there, holding the
    files of another request. *)
Definition request_sharing : world :=
  World (Some (Dir [(lit "base.apk", File (lit "BASE"))]))
        (Some (Dir [(lit "other.apk", File (lit "OTHER"))])) None [].

(** Every file of [fs] but the one at [p] is in [fs'] with its text. *)
Definition keeps_files_except (p : path) (fs fs' : node) : Prop :=
  ∀ q d, stat fs q = Some (File d) → q ≠ p → stat fs' q = Some (File d).

(** * Properties *)

(** ** File tree lemmas *)

Lemma eqb_eq s t : eqb s t = true ↔ s = t.
Proof. unfold eqb. apply bool_decide_eq_true. Qed.

Lemma eqb_refl s : eqb s s = true.
Proof. by apply eqb_eq. Qed.

Lemma lookup_set_entry n m x es :
  lookup_entry n (set_entry m x es) =
  if eqb n m then (λ _, x) <$> lookup_entry m es else lookup_entry n es.
Proof.
  induction es as [|[k y] es IH]; simpl.
  - by destruct (eqb n m).
  - destruct (eqb k m) eqn:Hkm; simpl.
    + apply eqb_eq in Hkm as ->.
      destruct (eqb m n) eqn:Hmn.
      * apply eqb_eq in Hmn as ->. by rewrite eqb_refl.
      * destruct (eqb n m) eqn:Hnm; [|done].
        apply eqb_eq in Hnm as ->. by rewrite eqb_refl in Hmn.
    + destruct (eqb k n) eqn:Hkn.
      * apply eqb_eq in Hkn as ->.
        destruct (eqb n m) eqn:Hnm; [congruence|done].
      * apply IH.
Qed.

Lemma lookup_entry_app n es es' :
  lookup_entry n (es ++ es') =
  match lookup_entry n es with Some x => Some x | None => lookup_entry n es' end.
Proof.
  induction es as [|[k y] es IH]; simpl; [done|].
  by destruct (eqb k n).
Qed.

Lemma extends_refl fs : extends fs fs.
Proof. intros q n H. eauto. Qed.

Lemma extends_trans a b c : extends a b → extends b c → extends a c.
Proof.
  intros Hab Hbc q n H.
  destruct (Hab _ _ H) as (n' & H' & Hk).
  destruct (Hbc _ _ H') as (n'' & H'' & Hk').
  exists n''. split; [done|congruence].
Qed.

Lemma extends_set_entry m c c' es :
  lookup_entry m es = Some c → extends c c' →
  extends (Dir es) (Dir (set_entry m c' es)).
Proof.
  intros Hm Hc [|k q] n; simpl.
  - intros [= <-]. eauto.
  - rewrite lookup_set_entry.
    destruct (eqb k m) eqn:Hkm.
    + apply eqb_eq in Hkm as ->. rewrite Hm. simpl. apply Hc.
    + destruct (lookup_entry k es); [eauto|done].
Qed.

Lemma extends_new_entry m x es :
  lookup_entry m es = None → extends (Dir es) (Dir (es ++ [(m, x)])).
Proof.
  intros Hm [|k q] n; simpl.
  - intros [= <-]. eauto.
  - rewrite lookup_entry_app.
    destruct (lookup_entry k es); [eauto|done].
Qed.

Lemma mkdir_p_extends p : ∀ fs fs', mkdir_p fs p = inr fs' → extends fs fs'.
Proof.
  induction p as [|name p IH]; intros [d|es] fs'; simpl; try done.
  - intros [= <-]. apply extends_refl.
  - destruct (lookup_entry name es) as [c|] eqn:Hl.
    + destruct (mkdir_p c p) as [|c'] eqn:Hc; [done|].
      intros [= <-]. eapply extends_set_entry; eauto.
    + destruct (mkdir_p (Dir []) p) as [|c'] eqn:Hc; [done|].
      intros [= <-]. by apply extends_new_entry.
Qed.

Lemma mkdir_p_stat p : ∀ fs fs',
  mkdir_p fs p = inr fs' → ∃ es, stat fs' p = Some (Dir es).
Proof.
  induction p as [|name p IH]; intros [d|es] fs'; simpl; try done.
  - intros [= <-]. eauto.
  - destruct (lookup_entry name es) as [c|] eqn:Hl.
    + destruct (mkdir_p c p) as [|c'] eqn:Hc; [done|].
      intros [= <-]. simpl. rewrite lookup_set_entry, eqb_refl, Hl. simpl. eauto.
    + destruct (mkdir_p (Dir []) p) as [|c'] eqn:Hc; [done|].
      intros [= <-]. simpl. rewrite lookup_entry_app, Hl. simpl.
      rewrite eqb_refl. eauto.
Qed.

Lemma write_at_extends p d : ∀ fs fs',
  stat fs p = None → write_at fs p d = inr fs' → extends fs fs'.
Proof.
  induction p as [|name p IH]; intros [d0|es] fs'; simpl; try done.
  destruct (lookup_entry name es) as [c|] eqn:Hl.
  - intros Hs. destruct (write_at c p d) as [|c'] eqn:Hc; [done|].
    intros [= <-]. eapply extends_set_entry; eauto.
  - intros _. destruct p; [|done].
    intros [= <-]. by apply extends_new_entry.
Qed.

Lemma write_at_stat p d : ∀ fs fs',
  write_at fs p d = inr fs' → stat fs' p = Some (File d).
Proof.
  induction p as [|name p IH]; intros [d0|es] fs'; simpl; try done.
  - by intros [= <-].
  - destruct (lookup_entry name es) as [c|] eqn:Hl.
    + destruct (write_at c p d) as [|c'] eqn:Hc; [done|].
      intros [= <-]. simpl. rewrite lookup_set_entry, eqb_refl, Hl. simpl. eauto.
    + destruct p; [|done]. intros [= <-]. simpl.
      by rewrite lookup_entry_app, Hl; simpl; rewrite eqb_refl.
Qed.

(** ** What a computation preserves *)

Section preserves.
Context {S : Type} (R : relation S) `{!Reflexive R, !Transitive R}.

Lemma preserves_ret {A} (a : A) : preserves R (ret a).
Proof. intros s r s' [= _ <-]. reflexivity. Qed.

Lemma preserves_throw {A} e : preserves R (@throw S A e).
Proof. intros s r s' [= _ <-]. reflexivity. Qed.

Lemma preserves_bind {A B} (c : M S A) (k : A → M S B) :
  preserves R c → (∀ a, preserves R (k a)) → preserves R (bind c k).
Proof.
  intros Hc Hk s r s'. unfold bind.
  destruct (c s) as [[a|e] s1] eqn:E; intros H.
  - etrans; [eapply Hc, E | eapply Hk, H].
  - injection H as _ <-. eapply Hc, E.
Qed.

Lemma preserves_for_of {A} (l : list A) (body : A → M S unit) :
  (∀ x, x ∈ l → preserves R (body x)) → preserves R (for_of l body).
Proof.
  induction l as [|x l IH]; intros H; simpl.
  - apply preserves_ret.
  - apply preserves_bind; [apply H; left|].
    intros _. apply IH. intros y Hy. apply H. by right.
Qed.

Lemma preserves_attempt (f : S → errno + S) :
  (∀ s s', f s = inr s' → R s s') → preserves R (attempt f).
Proof.
  intros H s r s'. unfold attempt.
  destruct (f s) as [c|s1] eqn:E; intros [= _ <-]; [reflexivity|eauto].
Qed.
End preserves.

Lemma bind_Ok_inv {S A B} (c : M S A) (k : A → M S B) s b s' :
  bind c k s = (Ok b, s') →
  ∃ a s1, c s = (Ok a, s1) ∧ k a s1 = (Ok b, s').
Proof.
  unfold bind. destruct (c s) as [[a|e] s1]; [|done]. eauto.
Qed.

Lemma existsSync_false fs p : existsSync fs p = false ↔ stat fs p = None.
Proof. unfold existsSync. destruct (stat fs p); split; congruence. Qed.

Lemma existsSync_true fs p : existsSync fs p = true ↔ is_Some (stat fs p).
Proof.
  unfold existsSync. destruct (stat fs p); split; done.
Qed.

Lemma mergeDirContents_unfold src dst :
  mergeDirContents src dst =
  bind (λ fs, if negb (existsSync fs dst) then mkdir dst fs else (Ok (), fs))
       (λ _, match src with
             | Dir entries => mergeEntries mergeDirContents dst entries
             | File _ => throw (SysError ENOTDIR)
             end).
Proof. by destruct src. Qed.

Section merge_preserves.
(** Any relation that the two writing primitives of the merge respect, at
    the path they write, is respected by the whole merge. *)
Variable R : path → relation node.
Context `{!∀ p, Reflexive (R p), !∀ p, Transitive (R p)}.
Hypothesis R_up : ∀ p name fs fs', R (p ++ [name]) fs fs' → R p fs fs'.
Hypothesis R_mkdir : ∀ p fs fs', mkdir_p fs p = inr fs' → R p fs fs'.
Hypothesis R_write : ∀ p d fs fs',
  stat fs p = None → write_at fs p d = inr fs' → R p fs fs'.

Lemma mkdir_if_absent_preserves dst :
  preserves (R dst)
    (λ fs, if negb (existsSync fs dst) then mkdir dst fs else (Ok (), fs)).
Proof.
  intros fs r fs'. destruct (existsSync fs dst); simpl.
  - intros [= _ <-]. reflexivity.
  - apply preserves_attempt; [apply _|]. apply R_mkdir.
Qed.

Lemma mergeDirContents_preserves src :
  ∀ dst, preserves (R dst) (mergeDirContents src dst).
Proof.
  induction src as [d|es IH] using node_ind; intros dst;
    rewrite mergeDirContents_unfold;
    (apply preserves_bind; [apply _|apply mkdir_if_absent_preserves|]);
    intros _.
  - apply preserves_throw, _.
  - induction IH as [|[name c] es Hc _ IHes]; simpl.
    + apply preserves_ret, _.
    + apply preserves_bind; [apply _| |done].
      unfold mergeEntry; simpl. destruct c as [d|es'].
      * intros fs r fs'.
        destruct (existsSync fs (dst ++ [name])) eqn:E; simpl.
        -- intros [= _ <-]. reflexivity.
        -- apply existsSync_false in E. unfold writeFile, attempt.
           destruct (write_at fs (dst ++ [name]) d) as [c|s1] eqn:W;
             intros [= _ <-]; [reflexivity|].
           eapply R_up, R_write; eauto.
      * intros fs r fs' Hrun. eapply R_up, Hc, Hrun.
Qed.
End merge_preserves.

#[local] Instance extends_reflexive : Reflexive extends := extends_refl.
#[local] Instance extends_transitive : Transitive extends := extends_trans.
#[local] Instance same_outside_reflexive p : Reflexive (same_outside p).
Proof. by intros fs q _. Qed.
#[local] Instance same_outside_transitive p : Transitive (same_outside p).
Proof. intros a b c Hab Hbc q Hq. by rewrite Hbc, Hab. Qed.

Lemma apart_cons name p q : apart (name :: p) (name :: q) → apart p q.
Proof. intros [H1 H2]. split; intros H; [apply H1|apply H2]; by apply prefix_cons. Qed.

Lemma apart_snoc p name q : apart p q → apart (p ++ [name]) q.
Proof.
  intros [H1 H2]. split; intros H.
  - eapply H1, prefix_app_l, H.
  - destruct (prefix_weak_total q p (p ++ [name])) as [?|?]; auto.
    by apply prefix_app_r.
Qed.

Lemma apart_under p q r : apart p q → apart p (q ++ r).
Proof.
  intros [H1 H2]. split; intros H.
  - destruct (prefix_weak_total p q (q ++ r)) as [?|?]; auto.
    by apply prefix_app_r.
  - eapply H2, prefix_app_l, H.
Qed.

Lemma same_outside_up p name fs fs' :
  same_outside (p ++ [name]) fs fs' → same_outside p fs fs'.
Proof. intros H q Hq. by apply H, apart_snoc. Qed.

Lemma stat_empty_dir q : q ≠ [] → stat (Dir []) q = None.
Proof. by destruct q. Qed.

Lemma mkdir_p_same_outside p : ∀ fs fs',
  mkdir_p fs p = inr fs' → same_outside p fs fs'.
Proof.
  induction p as [|name p IH]; intros [d|es] fs'; simpl; try done.
  - by intros [= <-].
  - intros Hm [|k q] Hq.
    { destruct Hq as [_ []]. apply prefix_nil. }
    simpl. destruct (lookup_entry name es) as [c|] eqn:Hl.
    + destruct (mkdir_p c p) as [|c'] eqn:Hc; [done|].
      injection Hm as <-. simpl. rewrite lookup_set_entry.
      destruct (eqb k name) eqn:Hk; [|done].
      apply eqb_eq in Hk as ->. rewrite Hl. simpl.
      eapply IH; eauto using apart_cons.
    + destruct (mkdir_p (Dir []) p) as [|c'] eqn:Hc; [done|].
      injection Hm as <-. simpl. rewrite lookup_entry_app.
      destruct (lookup_entry k es) eqn:Hk; [done|]. simpl.
      destruct (eqb name k) eqn:Hnk; [|done].
      apply eqb_eq in Hnk as <-.
      erewrite IH; eauto using apart_cons.
      apply stat_empty_dir. intros ->.
      destruct Hq as [_ []]. apply prefix_cons, prefix_nil.
Qed.

Lemma write_at_same_outside p d : ∀ fs fs',
  write_at fs p d = inr fs' → same_outside p fs fs'.
Proof.
  induction p as [|name p IH]; intros [d0|es] fs'; simpl; try done.
  - intros _ q [[] _]. apply prefix_nil.
  - intros Hm [|k q] Hq.
    { destruct Hq as [_ []]. apply prefix_nil. }
    simpl. destruct (lookup_entry name es) as [c|] eqn:Hl.
    + destruct (write_at c p d) as [|c'] eqn:Hc; [done|].
      injection Hm as <-. simpl. rewrite lookup_set_entry.
      destruct (eqb k name) eqn:Hk; [|done].
      apply eqb_eq in Hk as ->. rewrite Hl. simpl.
      eapply IH; eauto using apart_cons.
    + destruct p; [|done]. injection Hm as <-. simpl.
      rewrite lookup_entry_app.
      destruct (lookup_entry k es) eqn:Hk; [done|]. simpl.
      destruct (eqb name k) eqn:Hnk; [|done].
      apply eqb_eq in Hnk as <-.
      destruct Hq as [[] _]. apply prefix_cons, prefix_nil.
Qed.

Lemma mergeDirContents_extends src dst :
  preserves extends (mergeDirContents src dst).
Proof.
  apply (mergeDirContents_preserves (λ _, extends)); try apply _; try done.
  - intros p fs fs'. apply mkdir_p_extends.
  - intros p d fs fs'. apply write_at_extends.
Qed.

Lemma mergeDirContents_same_outside src dst :
  preserves (same_outside dst) (mergeDirContents src dst).
Proof.
  apply (mergeDirContents_preserves same_outside); try apply _.
  - apply same_outside_up.
  - apply mkdir_p_same_outside.
  - intros p d fs fs' _. apply write_at_same_outside.
Qed.

Lemma mergeApkContents_dirs_extends mainDir secDir :
  preserves extends (mergeApkContents_dirs mainDir secDir).
Proof.
  apply preserves_for_of; try apply _.
  intros dir _ fs r fs'. simpl. destruct (stat fs (secDir ++ [dir])).
  - apply mergeDirContents_extends.
  - intros [= _ <-]. reflexivity.
Qed.

Lemma mergeApkContents_dirs_same_outside mainDir secDir :
  preserves (same_outside mainDir) (mergeApkContents_dirs mainDir secDir).
Proof.
  apply preserves_for_of; try apply _.
  intros dir _ fs r fs'. simpl. destruct (stat fs (secDir ++ [dir])).
  - intros H. eapply same_outside_up, mergeDirContents_same_outside, H.
  - intros [= _ <-]. reflexivity.
Qed.

#[local] Instance grows_reflexive : Reflexive grows.
Proof. by intros fs q. Qed.
#[local] Instance grows_transitive : Transitive grows.
Proof. intros a b c Hab Hbc q Hq. by apply Hbc, Hab. Qed.

Lemma extends_grows fs fs' : extends fs fs' → grows fs fs'.
Proof. intros H q [n Hn]. destruct (H _ _ Hn) as (n' & -> & _). by eexists. Qed.

Lemma grows_existsSync fs fs' p :
  grows fs fs' → existsSync fs p = true → existsSync fs' p = true.
Proof. intros H. rewrite !existsSync_true. apply H. Qed.

Lemma grows_set_entry m c c' es :
  lookup_entry m es = Some c → grows c c' →
  grows (Dir es) (Dir (set_entry m c' es)).
Proof.
  intros Hm Hc [|k q]; simpl; [by eexists|].
  rewrite lookup_set_entry. destruct (eqb k m) eqn:Hkm; [|done].
  apply eqb_eq in Hkm as ->. rewrite Hm. simpl. apply Hc.
Qed.

Lemma write_at_grows p d : ∀ fs fs', write_at fs p d = inr fs' → grows fs fs'.
Proof.
  induction p as [|name p IH]; intros [d0|es] fs'; simpl; try done.
  - intros [= <-] [|k q]; simpl; [by eexists|done].
  - destruct (lookup_entry name es) as [c|] eqn:Hl.
    + destruct (write_at c p d) as [|c'] eqn:Hc; [done|].
      intros [= <-]. eapply grows_set_entry; eauto.
    + destruct p; [|done]. intros [= <-].
      by apply extends_grows, extends_new_entry.
Qed.

Lemma set_entry_same name c es :
  lookup_entry name es = Some c → set_entry name c es = es.
Proof.
  induction es as [|[k y] es IH]; simpl; [done|].
  destruct (eqb k name) eqn:E.
  - by intros [= ->].
  - intros H. by rewrite IH.
Qed.

Lemma write_at_same p d : ∀ fs,
  stat fs p = Some (File d) → write_at fs p d = inr fs.
Proof.
  induction p as [|name p IH]; intros [d0|es]; simpl; try done.
  - by intros [= ->].
  - destruct (lookup_entry name es) as [c|] eqn:Hl; [|done].
    intros Hc. rewrite (IH c Hc). by rewrite set_entry_same.
Qed.

Lemma mergeEntry_extends dst e :
  preserves extends (mergeEntry mergeDirContents dst e).
Proof.
  destruct e as [name [d|es]]; unfold mergeEntry; cbn [fst snd].
  - intros fs r fs'. destruct (existsSync fs (dst ++ [name])) eqn:E; simpl.
    + intros [= _ <-]. reflexivity.
    + apply existsSync_false in E. unfold writeFile, attempt.
      destruct (write_at fs (dst ++ [name]) d) as [c|s1] eqn:W;
        intros [= _ <-]; [reflexivity|].
      eapply write_at_extends; eauto.
  - apply mergeDirContents_extends.
Qed.

Lemma mergeEntries_extends dst es :
  preserves extends (mergeEntries mergeDirContents dst es).
Proof.
  induction es as [|e es IH]; simpl.
  - apply preserves_ret, _.
  - apply preserves_bind; [apply _|apply mergeEntry_extends|done].
Qed.

(** Once a merge has completed, merging the same source again into any tree
    in which every path of the result still exists is a no-op. *)
Lemma mergeDirContents_again src : ∀ dst fs fs1,
  mergeDirContents src dst fs = (Ok (), fs1) →
  ∀ fs2, grows fs1 fs2 → mergeDirContents src dst fs2 = (Ok (), fs2).
Proof.
  induction src as [d|es IH] using node_ind; intros dst fs fs1 Hrun fs2 Hext;
    rewrite mergeDirContents_unfold in Hrun; unfold bind at 1 in Hrun;
    destruct (if negb _ then _ else _) as [[[]|e] fs_a] eqn:Hmk in Hrun;
    try done.
  assert (existsSync fs_a dst = true) as Hdst.
  { destruct (existsSync fs dst) eqn:E; simpl in Hmk.
    - by injection Hmk as <-.
    - unfold mkdir, attempt in Hmk.
      destruct (mkdir_p fs dst) as [|s1] eqn:Hm; [done|].
      injection Hmk as <-. apply mkdir_p_stat in Hm as [es' Hm].
      apply existsSync_true. by rewrite Hm. }
  rewrite mergeDirContents_unfold. unfold bind at 1.
  erewrite grows_existsSync; [simpl|..|exact Hdst];
    [|etrans; [eapply extends_grows, mergeEntries_extends, Hrun|done]].
  clear Hmk Hdst fs. revert fs_a fs1 Hrun fs2 Hext.
  induction IH as [|[name c] es Hc _ IHes]; intros fs_a fs1; simpl.
  - done.
  - unfold bind at 1.
    destruct (mergeEntry _ _ _ fs_a) as [[[]|e] fs_b] eqn:Hstep; [|done].
    intros Hes fs2 Hext.
    assert (grows fs_b fs2) as Hb2.
    { etrans; [eapply extends_grows, mergeEntries_extends, Hes|done]. }
    unfold bind at 1.
    assert (mergeEntry mergeDirContents dst (name, c) fs2 = (Ok (), fs2))
      as ->; [|by eapply IHes].
    unfold mergeEntry in *; cbn [fst snd] in *. destruct c as [d|es'].
    + assert (existsSync fs_b (dst ++ [name]) = true) as Hex.
      { destruct (existsSync fs_a (dst ++ [name])) eqn:E; simpl in Hstep.
        - by injection Hstep as <-.
        - unfold writeFile, attempt in Hstep.
          destruct (write_at fs_a (dst ++ [name]) d) as [|s1] eqn:W; [done|].
          injection Hstep as <-. apply write_at_stat in W.
          apply existsSync_true. by rewrite W. }
      by erewrite grows_existsSync.
    + eapply Hc; eauto.
Qed.

(** ** Tree Merger (C1, C6) *)

Lemma extends_file fs fs' p d :
  extends fs fs' → stat fs p = Some (File d) → stat fs' p = Some (File d).
Proof.
  intros H Hp. destruct (H _ _ Hp) as ([d'|es] & Hp' & Hk); simpl in Hk.
  - by injection Hk as ->.
  - done.
Qed.

Lemma extends_created fs fs' p d :
  extends fs fs' → stat fs' p = Some (File d) →
  stat fs p = Some (File d) ∨ stat fs p = None.
Proof.
  intros H Hp'. destruct (stat fs p) as [n|] eqn:Hp; [left|by right].
  destruct (H _ _ Hp) as (n' & Hn' & Hk). rewrite Hp' in Hn'.
  injection Hn' as <-. destruct n; simpl in Hk; congruence.
Qed.

Lemma mergeEntry_collision dst name data fs :
  existsSync fs (dst ++ [name]) = true →
  mergeEntry mergeDirContents dst (name, File data) fs = (Ok (), fs).
Proof. intros H. unfold mergeEntry; simpl. by rewrite H. Qed.

(** C1. Whatever the outcome of merging the secondary tree [secDir] into the
    base tree [mainDir], every file of the base tree before the merge is there
    afterwards with the same text; a file of the workspace after the merge is
    either an unchanged file or stands where nothing stood before, so nothing
    is overwritten; a secondary leaf file whose destination exists is passed
    over without an error and without a write; and every single call of
    [mergeDirContents] keeps every file there is, so that what earlier merges
    have placed stays as well. *)
Theorem mergeInto_never_overwrites (mainDir secDir : path) (ws ws' : node)
    (r : result ()) :
  mergeApkContents_dirs mainDir secDir ws = (r, ws') →
  (∀ p d, stat ws (mainDir ++ p) = Some (File d) →
          stat ws' (mainDir ++ p) = Some (File d))
  ∧ (∀ q d, stat ws' q = Some (File d) →
            stat ws q = Some (File d) ∨ stat ws q = None)
  ∧ (∀ dst name data fs, existsSync fs (dst ++ [name]) = true →
       mergeEntry mergeDirContents dst (name, File data) fs = (Ok (), fs))
  ∧ (∀ src dst fs r1 fs1, mergeDirContents src dst fs = (r1, fs1) →
       ∀ q d, stat fs q = Some (File d) → stat fs1 q = Some (File d)).
Proof.
  intros Hrun. apply mergeApkContents_dirs_extends in Hrun.
  split_and!.
  - intros p d. by apply extends_file.
  - intros q d. by apply extends_created.
  - apply mergeEntry_collision.
  - intros src dst fs r1 fs1 Hrun1 q d.
    apply mergeDirContents_extends in Hrun1. by apply extends_file.
Qed.

Lemma mergeInto_never_overwrites_witness :
  stat (mergeApkContents_dirs [lit "base"] [lit "split_config.arm64"]
          ws_example).2
       ([lit "base"] ++ [lit "res"; lit "x"]) = Some (File (lit "A")).
Proof.
  eapply (proj1 (mergeInto_never_overwrites [lit "base"]
                   [lit "split_config.arm64"] ws_example _ _
                   (surjective_pairing _))).
  reflexivity.
Defined.

Lemma for_of_dirs_again (mainDir secDir : path) (dirs : list jsstring) :
  apart mainDir secDir →
  ∀ ws ws1,
    for_of dirs (λ dir fs,
      match stat fs (secDir ++ [dir]) with
      | Some n => mergeDirContents n (mainDir ++ [dir]) fs
      | None => (Ok (), fs)
      end) ws = (Ok (), ws1) →
    ∀ ws2, grows ws1 ws2 →
      (∀ q, stat ws2 (secDir ++ q) = stat ws (secDir ++ q)) →
      for_of dirs (λ dir fs,
        match stat fs (secDir ++ [dir]) with
        | Some n => mergeDirContents n (mainDir ++ [dir]) fs
        | None => (Ok (), fs)
        end) ws2 = (Ok (), ws2).
Proof.
  intros Hapart. induction dirs as [|dir dirs IH]; intros ws ws1; simpl.
  - done.
  - unfold bind at 1.
    destruct (stat ws (secDir ++ [dir])) as [n|] eqn:Hsrc.
    + destruct (mergeDirContents n (mainDir ++ [dir]) ws)
        as [[[]|e] ws_b] eqn:Hstep; [|done].
      intros Hrest ws2 Hext Hsec. unfold bind at 1.
      rewrite Hsec, Hsrc.
      assert (grows ws_b ws1) as Hb1.
      { apply extends_grows. revert Hrest.
        apply preserves_for_of; [apply _..|].
        intros d _ fs r fs'. simpl. destruct (stat fs (secDir ++ [d])).
        - apply mergeDirContents_extends.
        - intros [= _ <-]. reflexivity. }
      erewrite mergeDirContents_again; [|exact Hstep|by etrans].
      eapply IH; [exact Hrest|done|].
      intros q. rewrite Hsec. symmetry.
      pose proof (mergeDirContents_same_outside _ _ _ _ _ Hstep) as Hso.
      apply same_outside_up in Hso. by apply Hso, apart_under.
    + intros Hrest ws2 Hext Hsec. unfold bind at 1.
      rewrite Hsec, Hsrc. eapply IH; eauto.
Qed.

(** ** The two scans of the do-not-compress block (C8) *)

Lemma range_inv_delimits pre rest r :
  range_inv pre r → range_delimits (pre ++ rest) r.
Proof.
  intros [H|(a & mid & b & -> & Hs & He & Hh & Hl & Hf & Hm & _)]; [by left|].
  right. exists a, mid, (b ++ rest). by rewrite <-!(assoc_L (++)).
Qed.

Lemma range_inv_skip pre r line :
  isItem line = false → isBlank line = true ∨ isComment line = true →
  range_inv pre r → range_inv (pre ++ [line]) r.
Proof.
  intros Hi Hbc [H|(a & mid & b & -> & Hs & He & Hh & Hl & Hf & Hm & Hb)];
    [by left|].
  right. exists a, mid, (b ++ [line]). rewrite <-!(assoc_L (++)).
  repeat split; try done. apply Forall_app; split; [done|].
  by apply Forall_singleton.
Qed.

Lemma range_inv_other pre r line :
  lines r = [] ∧ startIndex r = -1 ∧ endIndex r = -1 →
  range_inv pre r → range_inv (pre ++ [line]) r.
Proof. intros H _. by left. Qed.

Lemma filter_item_none b :
  Forall (λ l, isItem l = false ∧ (isBlank l = true ∨ isComment l = true)) b →
  filter (λ l, isItem l = true) b = [].
Proof.
  induction 1 as [|l b [Hl _] _ IH]; [done|].
  rewrite filter_cons_False; [done|congruence].
Qed.

Lemma range_inv_item pre r line :
  isItem line = true → range_inv pre r →
  range_inv (pre ++ [line])
    (Range (if startIndex r =? -1 then Z.of_nat (length pre) else startIndex r)
           (Z.of_nat (length pre)) (lines r ++ [line])).
Proof.
  intros Hi [(Hl & Hs & He)|(a & mid & b & -> & Hs & He & Hh & Hl & Hf & Hm & Hb)];
    right.
  - exists pre, [line], []. rewrite Hs, Hl. simpl.
    repeat split; try done; try lia; eauto.
    by rewrite filter_cons_True, filter_nil.
  - exists a, (mid ++ b ++ [line]), []. cbn [startIndex endIndex lines].
    assert ((startIndex r =? -1) = false) as -> by (apply Z.eqb_neq; lia).
    rewrite !length_app. simpl.
    repeat split; try done; try lia.
    + by rewrite app_nil_r, <-!(assoc_L (++)).
    + destruct Hh as (x & Hx & Hix). exists x. split; [|done].
      destruct mid; [done|]. done.
    + exists line. split; [|done].
      by rewrite !(assoc_L (++)), last_snoc.
    + rewrite !filter_app, Hf, filter_cons_True, filter_nil by done.
      by rewrite filter_item_none.
    + apply Forall_app; split; [done|]. apply Forall_app; split.
      * eapply Forall_impl; [exact Hb|]. intros l [_ ?]. by right.
      * apply Forall_singleton. by left.
Qed.

Lemma getDoNotCompressRange_loop_delimits rest : ∀ pre inside r,
  (inside = false → lines r = [] ∧ startIndex r = -1 ∧ endIndex r = -1) →
  range_inv pre r →
  range_delimits (pre ++ rest)
    (getDoNotCompressRange_loop inside r (Z.of_nat (length pre)) rest).
Proof.
  induction rest as [|line rest IH]; intros pre inside r Hout Hinv; simpl.
  { by apply range_inv_delimits. }
  assert (∀ inside' r',
    (inside' = false → lines r' = [] ∧ startIndex r' = -1 ∧ endIndex r' = -1) →
    range_inv (pre ++ [line]) r' →
    range_delimits (pre ++ line :: rest)
      (getDoNotCompressRange_loop inside' r' (Z.of_nat (length pre) + 1) rest))
    as Hnext.
  { intros inside' r' Ho Hi.
    replace (Z.of_nat (length pre) + 1) with (Z.of_nat (length (pre ++ [line])))
      by (rewrite length_app; simpl; lia).
    rewrite (cons_middle line pre rest), (assoc_L (++)). by apply IH. }
  destruct inside; simpl.
  - fold (isItem line). destruct (isItem line) eqn:Hi.
    + apply Hnext; [done|]. by apply range_inv_item.
    + fold (isBlank line) (isComment line).
      destruct (isBlank line) eqn:Hb; simpl.
      * apply Hnext; [done|]. apply range_inv_skip; auto.
      * destruct (isComment line) eqn:Hc; simpl.
        -- apply Hnext; [done|]. apply range_inv_skip; auto.
        -- by apply range_inv_delimits.
  - destruct (startsWith (trim line) KEY).
    + apply Hnext; [done|]. apply range_inv_other; auto.
    + apply Hnext; [done|]. apply range_inv_other; auto.
Qed.

Lemma getDoNotCompressRange_delimits ls :
  range_delimits ls (getDoNotCompressRange ls).
Proof.
  apply (getDoNotCompressRange_loop_delimits ls [] false); [done|by left].
Qed.

Lemma trimStart_snoc a c :
  isWhiteSpace c = false → trimStart (a ++ [c]) = trimStart a ++ [c].
Proof.
  intros Hc. induction a as [|x a IH]; simpl; [by rewrite Hc|].
  by destruct (isWhiteSpace x).
Qed.

Lemma startsWith_nil s : startsWith s [] = true.
Proof. by destruct s. Qed.

Lemma startsWith_hash_trim line :
  startsWith line HASH = true → isComment line = true.
Proof.
  unfold isComment. change HASH with [35%N].
  destruct line as [|c s]; [done|]. cbn [startsWith].
  rewrite startsWith_nil, andb_true_r. intros Hc%N.eqb_eq. subst c.
  unfold trim, trimEnd. cbn [trimStart]. change (isWhiteSpace 35) with false.
  cbn [rev]. rewrite trimStart_snoc by done.
  rewrite rev_unit. cbn [startsWith]. by rewrite startsWith_nil.
Qed.

Lemma scans_agree_loop ls : ∀ (inside : bool) r i,
  (if inside then Forall (λ l, isKey l = false) ls else single_key ls) →
  comments_flush ls →
  lines (getDoNotCompressRange_loop inside r i ls)
  = getDoNotCompressLines_loop inside (lines r) ls.
Proof.
  induction ls as [|line ls IH]; intros inside r i Hkey Hcom; simpl; [done|].
  apply Forall_cons in Hcom as [Hc Hcom]. fold (isKey line).
  destruct inside; simpl.
  - apply Forall_cons in Hkey as [-> Hkey].
    fold (isItem line). destruct (isItem line).
    + by rewrite IH.
    + fold (isBlank line) (isComment line).
      destruct (isBlank line); simpl; [by rewrite IH|].
      destruct (isComment line) eqn:Hic; simpl.
      * rewrite Hc by done. simpl. by rewrite IH.
      * destruct (startsWith line HASH) eqn:Hh; simpl; [|done].
        apply startsWith_hash_trim in Hh. congruence.
  - unfold single_key in Hkey. destruct (isKey line) eqn:Hk.
    + rewrite filter_cons_True in Hkey by done. simpl in Hkey.
      apply IH; [|done]. apply Forall_forall. intros l Hl.
      destruct (isKey l) eqn:Hkl; [|done].
      assert (l ∈ filter (λ l, isKey l = true) ls) as Hin
        by by apply list_elem_of_filter.
      destruct (filter _ ls); [by apply elem_of_nil in Hin|simpl in Hkey; lia].
    + rewrite filter_cons_False in Hkey by congruence. by apply IH.
Qed.

(** C8, as the code has it. On a file with at most one key line and no
    indented comment line, the scan of [getDoNotCompressLines] and the scan of
    [getDoNotCompressRange] return the same item lines.  On every file, the
    indices recorded by the range scan are both -1 when no item was found;
    otherwise they delimit a segment that begins and ends with an item line,
    whose item lines are exactly the extracted ones and whose other lines are
    blank lines and comments. *)
Theorem scans_agree (ls : list jsstring) :
  (single_key ls → comments_flush ls →
   getDoNotCompressLines ls = lines (getDoNotCompressRange ls))
  ∧ range_delimits ls (getDoNotCompressRange ls).
Proof.
  split; [|apply getDoNotCompressRange_delimits].
  intros Hk Hc. symmetry. by apply (scans_agree_loop ls false).
Qed.

Lemma scans_agree_witness :
  getDoNotCompressLines yml_example = lines (getDoNotCompressRange yml_example).
Proof.
  apply (proj1 (scans_agree yml_example)).
  - unfold single_key. vm_compute. lia.
  - unfold comments_flush. apply Forall_forall. intros l Hl.
    repeat (apply elem_of_cons in Hl as [->|Hl]); try done.
    by apply elem_of_nil in Hl.
Defined.

(** C8 as stated fails. By its [!inside] guard the range scan takes a second
    key line as the end of the block, while the line scan goes on collecting;
    and the range runs from the first item to the last, blank lines between
    them included, so that it holds more lines than were extracted. *)
Lemma scans_differ :
  getDoNotCompressLines
    (map lit ["doNotCompress:"; "- a"; "doNotCompress:"; "- b"]%string)
  ≠ lines (getDoNotCompressRange
    (map lit ["doNotCompress:"; "- a"; "doNotCompress:"; "- b"]%string))
  ∧ (let ls := map lit ["doNotCompress:"; "- a"; ""; "- b"]%string in
     let r := getDoNotCompressRange ls in
     take (Z.to_nat (endIndex r - startIndex r + 1))
          (drop (Z.to_nat (startIndex r)) ls)
     ≠ lines r).
Proof. split; vm_compute; discriminate. Qed.

(** The comment test of the line scan is on the untrimmed line: an indented
    comment ends its block, and not the block of the range scan. *)
Example scans_differ_on_indented_comment :
  getDoNotCompressLines
    (map lit ["doNotCompress:"; "- a"; "  # note"; "- b"]%string)
  = map lit ["- a"]%string
  ∧ lines (getDoNotCompressRange
      (map lit ["doNotCompress:"; "- a"; "  # note"; "- b"]%string))
    = map lit ["- a"; "- b"]%string.
Proof. split; vm_compute; reflexivity. Qed.

(** ** The default sort order and [Set] (C2, C3) *)

Lemma leb_total s : ∀ t, leb s t = true ∨ leb t s = true.
Proof.
  induction s as [|a s IH]; intros [|b t]; simpl; auto.
  destruct (N.ltb_spec a b), (N.ltb_spec b a), (N.eqb_spec a b),
    (N.eqb_spec b a); simpl; auto; try lia.
Qed.

Lemma leb_trans s : ∀ t u, leb s t = true → leb t u = true → leb s u = true.
Proof.
  induction s as [|a s IH]; intros [|b t] [|c u]; simpl; auto; try done.
  destruct (N.ltb_spec a b), (N.ltb_spec b c), (N.ltb_spec a c),
    (N.eqb_spec a b), (N.eqb_spec b c), (N.eqb_spec a c);
    simpl; auto; try lia; try done.
  apply IH.
Qed.

Lemma leb_antisym s : ∀ t, leb s t = true → leb t s = true → s = t.
Proof.
  induction s as [|a s IH]; intros [|b t]; simpl; auto; try done.
  destruct (N.ltb_spec a b), (N.ltb_spec b a), (N.eqb_spec a b),
    (N.eqb_spec b a); simpl; try lia; try done.
  intros. subst. f_equal. by apply IH.
Qed.

#[local] Instance le_total : Total le.
Proof. intros s t. apply leb_total. Qed.
#[local] Instance le_trans : Transitive le.
Proof. intros s t u. apply leb_trans. Qed.
#[local] Instance le_antisym : AntiSymm (=) le.
Proof. intros s t. apply leb_antisym. Qed.

Lemma sort_Sorted l : Sorted le (sort l).
Proof. apply Sorted_merge_sort, _. Qed.

Lemma sort_Permutation l : sort l ≡ₚ l.
Proof. apply merge_sort_Permutation. Qed.

Lemma sort_sorted l : Sorted le l → sort l = l.
Proof.
  intros H. eapply (Sorted_unique le); [apply sort_Sorted|done|].
  apply sort_Permutation.
Qed.

Lemma setInsertAll_spec l : ∀ seen,
  NoDup seen →
  NoDup (setInsertAll seen l)
  ∧ ∀ x, x ∈ setInsertAll seen l ↔ x ∈ seen ∨ x ∈ l.
Proof.
  induction l as [|y l IH]; intros seen Hnd; simpl.
  - split; [done|]. intros x. rewrite elem_of_nil. tauto.
  - case_bool_decide as Hy.
    + destruct (IH seen Hnd) as [H1 H2]. split; [done|].
      intros x. rewrite H2, elem_of_cons. split; [tauto|].
      intros [?|[->|?]]; auto.
    + destruct (IH (seen ++ [y])) as [H1 H2].
      { apply NoDup_app. split; [done|]. split; [|apply NoDup_singleton].
        intros x Hx ->%list_elem_of_singleton. done. }
      split; [done|]. intros x.
      rewrite H2, elem_of_app, list_elem_of_singleton, elem_of_cons. tauto.
Qed.

Lemma arrayFromSet_NoDup l : NoDup (arrayFromSet l).
Proof. apply setInsertAll_spec, NoDup_nil_2. Qed.

Lemma elem_of_arrayFromSet l x : x ∈ arrayFromSet l ↔ x ∈ l.
Proof.
  unfold arrayFromSet.
  rewrite (proj2 (setInsertAll_spec l [] (NoDup_nil_2))), elem_of_nil. tauto.
Qed.

Lemma splice_segment {A} (a mid c items : list A) :
  fst (splice (a ++ mid ++ c) (Z.of_nat (length a))
         (Z.of_nat (length a + length mid) - 1 - Z.of_nat (length a) + 1) items)
  = a ++ items ++ c.
Proof.
  unfold splice. cbv zeta. cbn [fst]. rewrite !length_app.
  assert ((Z.of_nat (length a) <? 0) = false) as -> by (apply Z.ltb_ge; lia).
  rewrite (Z.min_l (Z.of_nat (length a))) by lia.
  replace (Z.of_nat (length a + length mid) - 1 - Z.of_nat (length a) + 1)
    with (Z.of_nat (length mid)) by lia.
  rewrite Z.max_l, Z.min_l by lia.
  rewrite Nat2Z.id.
  replace (Z.to_nat (Z.of_nat (length a) + Z.of_nat (length mid)))
    with (length a + length mid)%nat by lia.
  rewrite take_app_length. f_equal. f_equal.
  by rewrite (assoc_L (++)), <-length_app, drop_app_length.
Qed.

(** ** Config Block Merger (C2) *)


(** The example of the specification: base items a, b and secondary items
    b, c give a, b, c. *)
Example mergeApktoolYml_example :
  mergeApktoolYml_content yml_split yml_base
  = Some (join_nl (map lit ["version: 2"; "doNotCompress:"; "- res/a.so";
                            "- res/b.so"; "- res/c.so";
                            "isFrameworkApk: false"]%string)).
Proof. vm_compute. reflexivity. Qed.


(** ** The configuration merge run twice *)

Lemma split_nl_nonempty s : split_nl s ≠ [].
Proof.
  destruct s as [|c s]; simpl; [done|].
  destruct (c =? 10)%N; [done|]. by destruct (split_nl s).
Qed.

Lemma join_split s : join_nl (split_nl s) = s.
Proof.
  induction s as [|c s IH]; simpl; [done|].
  pose proof (split_nl_nonempty s) as Hne.
  destruct (N.eqb_spec c 10) as [->|Hc].
  - destruct (split_nl s) as [|l ls]; [done|]. simpl in *. by rewrite IH.
  - destruct (split_nl s) as [|l [|l' ls]]; [done|..]; simpl in *;
      by rewrite <-IH.
Qed.

Lemma split_nl_no_newline s : Forall no_newline (split_nl s).
Proof.
  induction s as [|c s IH]; simpl.
  - apply Forall_singleton, not_elem_of_nil.
  - destruct (N.eqb_spec c 10) as [->|Hc].
    + constructor; [apply not_elem_of_nil|done].
    + destruct (split_nl s) as [|l ls]; [apply Forall_singleton|].
      * unfold no_newline. rewrite list_elem_of_singleton. congruence.
      * apply Forall_cons in IH as [Hl Hls]. constructor; [|done].
        unfold no_newline in *. rewrite elem_of_cons. intros [?|?]; [congruence|done].
Qed.

Lemma split_nl_line l rest :
  no_newline l → split_nl (l ++ 10%N :: rest) = l :: split_nl rest.
Proof.
  induction l as [|c l IH]; intros Hl; simpl.
  - done.
  - unfold no_newline in Hl. apply not_elem_of_cons in Hl as [Hc Hl].
    destruct (N.eqb_spec c 10) as [->|_]; [done|]. by rewrite IH.
Qed.

Lemma split_nl_last l : no_newline l → split_nl l = [l].
Proof.
  induction l as [|c l IH]; intros Hl; simpl; [done|].
  unfold no_newline in Hl. apply not_elem_of_cons in Hl as [Hc Hl].
  destruct (N.eqb_spec c 10) as [->|_]; [done|]. by rewrite IH.
Qed.

Lemma split_join ls :
  ls ≠ [] → Forall no_newline ls → split_nl (join_nl ls) = ls.
Proof.
  induction ls as [|l [|l' ls] IH]; intros Hne Hall; [done|..].
  - apply Forall_cons in Hall as [Hl _]. simpl. by apply split_nl_last.
  - apply Forall_cons in Hall as [Hl Hall].
    change (join_nl (l :: l' :: ls)) with (l ++ 10%N :: join_nl (l' :: ls)).
    rewrite split_nl_line by done. f_equal. by apply IH.
Qed.

(** *** The range scan, piece by piece *)

Lemma isItem_not_key line : isItem line = true → isKey line = false.
Proof.
  unfold isItem, isKey. change ITEM with [45%N; 32%N].
  change KEY with (100%N :: lit "oNotCompress:").
  destruct (trim line) as [|c s]; [done|]. cbn [startsWith].
  destruct (N.eqb_spec 45 c) as [<-|]; [done|]. done.
Qed.

Lemma range_loop_cons inside r i line rest :
  getDoNotCompressRange_loop inside r i (line :: rest)
  = if negb inside && isKey line then
      getDoNotCompressRange_loop true r (i + 1) rest
    else if inside then
      if isItem line then
        getDoNotCompressRange_loop inside
          (Range (if startIndex r =? -1 then i else startIndex r) i
                 (lines r ++ [line]))
          (i + 1) rest
      else if negb (isBlank line) && negb (isComment line) then r
      else getDoNotCompressRange_loop inside r (i + 1) rest
    else getDoNotCompressRange_loop inside r (i + 1) rest.
Proof. reflexivity. Qed.

Lemma range_loop_quiet a : ∀ inside inside' r i rest,
  scan_quiet inside a = Some inside' →
  getDoNotCompressRange_loop inside r i (a ++ rest)
  = getDoNotCompressRange_loop inside' r (i + Z.of_nat (length a)) rest.
Proof.
  induction a as [|line a IH]; intros inside inside' r i rest.
  - intros [= <-]. simpl. by rewrite Z.add_0_r.
  - cbn [scan_quiet app]. rewrite range_loop_cons.
    replace (i + Z.of_nat (length (line :: a)))
      with (i + 1 + Z.of_nat (length a)) by (simpl; lia).
    destruct (negb inside && isKey line); [apply IH|].
    destruct inside; [|apply IH].
    destruct (isItem line); [done|].
    destruct (negb (isBlank line) && negb (isComment line)); [done|apply IH].
Qed.

Lemma range_loop_start_kept rest : ∀ inside r i,
  startIndex r ≠ -1 →
  startIndex (getDoNotCompressRange_loop inside r i rest) = startIndex r.
Proof.
  induction rest as [|line rest IH]; intros inside r i Hs; [done|].
  rewrite range_loop_cons.
  destruct (negb inside && isKey line); [by apply IH|].
  destruct inside; [|by apply IH].
  destruct (isItem line).
  - rewrite IH; simpl; by rewrite (proj2 (Z.eqb_neq _ _) Hs).
  - destruct (negb (isBlank line) && negb (isComment line)); [done|by apply IH].
Qed.

Lemma range_loop_start_from rest : ∀ inside r i,
  0 ≤ i → startIndex r = -1 →
  startIndex (getDoNotCompressRange_loop inside r i rest) = -1
  ∨ i ≤ startIndex (getDoNotCompressRange_loop inside r i rest).
Proof.
  induction rest as [|line rest IH]; intros inside r i Hi Hs; [by left|].
  rewrite range_loop_cons.
  assert (∀ ins,
    startIndex (getDoNotCompressRange_loop ins r (i + 1) rest) = -1
    ∨ i ≤ startIndex (getDoNotCompressRange_loop ins r (i + 1) rest)) as Hnext.
  { intros ins. destruct (IH ins r (i + 1)) as [?|?]; [lia|done|by left|right; lia]. }
  destruct (negb inside && isKey line); [apply Hnext|].
  destruct inside; [|apply Hnext].
  destruct (isItem line).
  - right. rewrite range_loop_start_kept; simpl; rewrite Hs; simpl; lia.
  - destruct (negb (isBlank line) && negb (isComment line)); [by left|apply Hnext].
Qed.

Lemma range_loop_not_quiet a : ∀ inside r i rest,
  0 ≤ i → startIndex r = -1 → scan_quiet inside a = None →
  startIndex (getDoNotCompressRange_loop inside r i (a ++ rest))
  < i + Z.of_nat (length a).
Proof.
  induction a as [|line a IH]; intros inside r i rest Hi Hs; [done|].
  cbn [scan_quiet app]. rewrite range_loop_cons.
  assert (∀ ins, scan_quiet ins a = None →
    startIndex (getDoNotCompressRange_loop ins r (i + 1) (a ++ rest))
    < i + Z.of_nat (length (line :: a))) as Hnext.
  { intros ins Hq. specialize (IH ins r (i + 1) rest ltac:(lia) Hs Hq).
    cbn [length]. lia. }
  destruct (negb inside && isKey line); [apply Hnext|].
  destruct inside; [|apply Hnext].
  destruct (isItem line).
  - intros _. rewrite range_loop_start_kept; simpl; rewrite Hs; simpl; lia.
  - destruct (negb (isBlank line) && negb (isComment line)); [|apply Hnext].
    intros _. rewrite Hs. simpl. lia.
Qed.

Lemma range_loop_end_grows rest : ∀ inside r i,
  endIndex r < i →
  endIndex r ≤ endIndex (getDoNotCompressRange_loop inside r i rest).
Proof.
  induction rest as [|line rest IH]; intros inside r i He; [done|].
  rewrite range_loop_cons.
  assert (∀ ins,
    endIndex r ≤ endIndex (getDoNotCompressRange_loop ins r (i + 1) rest))
    as Hnext by (intros; apply IH; lia).
  destruct (negb inside && isKey line); [apply Hnext|].
  destruct inside; [|apply Hnext].
  destruct (isItem line).
  - etrans; [|apply IH; simpl; lia]. simpl. lia.
  - destruct (negb (isBlank line) && negb (isComment line)); [done|apply Hnext].
Qed.

Lemma range_loop_item_ahead c : ∀ r i,
  endIndex r < i → no_item_ahead c = false →
  i ≤ endIndex (getDoNotCompressRange_loop true r i c).
Proof.
  induction c as [|line c IH]; intros r i He; [done|].
  cbn [no_item_ahead]. rewrite range_loop_cons. cbn [negb andb].
  destruct (isItem line).
  - intros _. etrans; [|apply range_loop_end_grows; simpl; lia]. simpl. lia.
  - destruct (negb (isBlank line) && negb (isComment line)); [done|].
    intros Hc. specialize (IH r (i + 1) ltac:(lia) Hc). lia.
Qed.

Lemma range_loop_tail c : ∀ r i,
  no_item_ahead c = true → getDoNotCompressRange_loop true r i c = r.
Proof.
  induction c as [|line c IH]; intros r i; [done|].
  cbn [no_item_ahead]. rewrite range_loop_cons. cbn [negb andb].
  destruct (isItem line); [done|].
  destruct (negb (isBlank line) && negb (isComment line)); [done|apply IH].
Qed.

Lemma range_loop_segment mid : ∀ r i rest,
  Forall (λ l, isItem l = true ∨ isBlank l = true ∨ isComment l = true) mid →
  ∃ r',
    getDoNotCompressRange_loop true r i (mid ++ rest)
    = getDoNotCompressRange_loop true r' (i + Z.of_nat (length mid)) rest
    ∧ (endIndex r < i → endIndex r' < i + Z.of_nat (length mid)).
Proof.
  induction mid as [|line mid IH]; intros r i rest Hmid.
  - exists r. simpl. rewrite Z.add_0_r. split; [done|lia].
  - apply Forall_cons in Hmid as [Hline Hmid].
    cbn [app]. rewrite range_loop_cons. cbn [negb andb].
    replace (i + Z.of_nat (length (line :: mid)))
      with (i + 1 + Z.of_nat (length mid)) by (simpl; lia).
    destruct (isItem line) eqn:Hi.
    + edestruct IH as (r' & -> & He); [done|].
      exists r'. split; [done|]. intros _. apply He. simpl. lia.
    + assert (negb (isBlank line) && negb (isComment line) = false) as ->.
      { destruct Hline as [?|[->| ->]]; [congruence|done|].
        by rewrite andb_false_r. }
      destruct (IH r (i + 1) rest Hmid) as (r' & -> & He).
      exists r'. split; [done|]. intros ?. apply He. lia.
Qed.

Lemma range_loop_items S : ∀ r i rest,
  0 ≤ i → S ≠ [] → Forall (λ l, isItem l = true) S →
  getDoNotCompressRange_loop true r i (S ++ rest)
  = getDoNotCompressRange_loop true
      (Range (if startIndex r =? -1 then i else startIndex r)
             (i + Z.of_nat (length S) - 1) (lines r ++ S))
      (i + Z.of_nat (length S)) rest.
Proof.
  induction S as [|x S IH]; intros r i rest Hi Hne HS; [done|].
  apply Forall_cons in HS as [Hx HS].
  cbn [app]. rewrite range_loop_cons. cbn [negb andb]. rewrite Hx.
  destruct S as [|y S].
  - simpl. do 2 f_equal. lia.
  - rewrite IH; [|lia|done|done]. cbn [startIndex endIndex lines].
    assert (((if startIndex r =? -1 then i else startIndex r) =? -1) = false)
      as ->.
    { apply Z.eqb_neq. destruct (Z.eqb_spec (startIndex r) (-1)); lia. }
    rewrite <-(assoc_L (++)). simpl. f_equal; [|lia]. f_equal. lia.
Qed.

(** The range found in the base file after its segment [mid] has been
    replaced by item lines [S]. *)
Lemma range_after_splice a mid c S :
  startIndex (getDoNotCompressRange (a ++ mid ++ c)) = Z.of_nat (length a) →
  endIndex (getDoNotCompressRange (a ++ mid ++ c))
  = Z.of_nat (length a + length mid) - 1 →
  (∃ x, head mid = Some x ∧ isItem x = true) →
  Forall (λ l, isItem l = true ∨ isBlank l = true ∨ isComment l = true) mid →
  S ≠ [] → Forall (λ l, isItem l = true) S →
  getDoNotCompressRange (a ++ S ++ c)
  = Range (Z.of_nat (length a)) (Z.of_nat (length a + length S) - 1) S.
Proof.
  unfold getDoNotCompressRange. intros Hs He (x & Hx & Hix) Hmid HS HSi.
  assert (scan_quiet false a = Some true) as Hq.
  { destruct (scan_quiet false a) as [[|]|] eqn:Hq; [done|..]; exfalso.
    - rewrite (range_loop_quiet _ _ _ _ _ _ Hq) in Hs.
      destruct mid as [|x' mid']; [done|]. injection Hx as ->.
      cbn [app] in Hs. rewrite range_loop_cons in Hs.
      rewrite (isItem_not_key _ Hix) in Hs. cbn [negb andb] in Hs.
      destruct (range_loop_start_from (mid' ++ c) false (Range (-1) (-1) [])
                  (0 + Z.of_nat (length a) + 1)) as [H|H]; [lia|done|lia..].
    - pose proof (range_loop_not_quiet a false (Range (-1) (-1) []) 0
                    (mid ++ c)) as H.
      specialize (H ltac:(lia) eq_refl Hq). lia. }
  assert (no_item_ahead c = true) as Hc.
  { destruct (no_item_ahead c) eqn:Hc; [done|]. exfalso.
    rewrite (range_loop_quiet _ _ _ _ _ _ Hq) in He.
    destruct (range_loop_segment mid (Range (-1) (-1) [])
                (0 + Z.of_nat (length a)) c Hmid) as (r' & Hr' & Hend).
    rewrite Hr' in He.
    pose proof (range_loop_item_ahead c r'
                  (0 + Z.of_nat (length a) + Z.of_nat (length mid))) as H.
    specialize (H ltac:(simpl in Hend; lia) Hc). lia. }
  rewrite (range_loop_quiet _ _ _ _ _ _ Hq).
  rewrite range_loop_items by (done || lia).
  rewrite range_loop_tail by done. simpl. f_equal; lia.
Qed.

Lemma getDoNotCompressLines_loop_Forall (P : jsstring → Prop) ls :
  ∀ inside acc,
    Forall P acc → Forall (λ l, isItem l = true → P l) ls →
    Forall P (getDoNotCompressLines_loop inside acc ls).
Proof.
  induction ls as [|line ls IH]; intros inside acc Hacc Hls; [done|].
  apply Forall_cons in Hls as [Hline Hls]. simpl.
  destruct (startsWith (trim line) KEY); [by apply IH|].
  destruct inside; [|by apply IH].
  fold (isItem line). destruct (isItem line).
  - apply IH; [|done]. apply Forall_app. split; [done|].
    apply Forall_singleton. by apply Hline.
  - destruct (negb _ && negb _); [done|by apply IH].
Qed.

Lemma setInsertAll_fresh l : ∀ seen,
  NoDup (seen ++ l) → setInsertAll seen l = seen ++ l.
Proof.
  induction l as [|x l IH]; intros seen Hnd; simpl.
  - by rewrite app_nil_r.
  - rewrite bool_decide_eq_false_2.
    + rewrite IH, <-(assoc_L (++)); [done|]. by rewrite <-(assoc_L (++)).
    + apply NoDup_app in Hnd as (_ & Hdisj & _). intros Hx.
      apply (Hdisj x Hx). by left.
Qed.

Lemma setInsertAll_known l : ∀ seen,
  (∀ x, x ∈ l → x ∈ seen) → setInsertAll seen l = seen.
Proof.
  induction l as [|x l IH]; intros seen Hin; simpl; [done|].
  rewrite bool_decide_eq_true_2 by (apply Hin; by left).
  apply IH. intros y Hy. apply Hin. by right.
Qed.

Lemma setInsertAll_app l1 : ∀ seen l2,
  setInsertAll seen (l1 ++ l2) = setInsertAll (setInsertAll seen l1) l2.
Proof.
  induction l1 as [|x l1 IH]; intros seen l2; simpl; [done|].
  by case_bool_decide.
Qed.

Lemma arrayFromSet_again S src :
  NoDup S → (∀ x, x ∈ src → x ∈ S) → arrayFromSet (S ++ src) = S.
Proof.
  intros Hnd Hsub. unfold arrayFromSet.
  rewrite setInsertAll_app, (setInsertAll_fresh S []) by done.
  by apply setInsertAll_known.
Qed.

(** The three outcomes of [mergeApktoolYml] on the contents: nothing to add;
    no item range in the destination, whose text is then written back as it
    was; or the range replaced by the sorted union. *)
Lemma mergeApktoolYml_content_cases srcContent dstContent :
  (getDoNotCompressLines (split_nl srcContent) = []
   ∧ mergeApktoolYml_content srcContent dstContent = None)
  ∨ (getDoNotCompressLines (split_nl srcContent) ≠ []
     ∧ getDoNotCompressRange (split_nl dstContent) = Range (-1) (-1) []
     ∧ mergeApktoolYml_content srcContent dstContent = Some dstContent)
  ∨ (getDoNotCompressLines (split_nl srcContent) ≠ []
     ∧ ∃ a mid c,
         split_nl dstContent = a ++ mid ++ c
         ∧ startIndex (getDoNotCompressRange (split_nl dstContent))
           = Z.of_nat (length a)
         ∧ endIndex (getDoNotCompressRange (split_nl dstContent))
           = Z.of_nat (length a + length mid) - 1
         ∧ (∃ x, head mid = Some x ∧ isItem x = true)
         ∧ filter (λ l, isItem l = true) mid
           = lines (getDoNotCompressRange (split_nl dstContent))
         ∧ Forall (λ l, isItem l = true ∨ isBlank l = true
                        ∨ isComment l = true) mid
         ∧ mergeApktoolYml_content srcContent dstContent
           = Some (join_nl
               (a ++ sort (arrayFromSet
                  (lines (getDoNotCompressRange (split_nl dstContent))
                   ++ getDoNotCompressLines (split_nl srcContent))) ++ c))).
Proof.
  destruct (getDoNotCompressLines (split_nl srcContent)) as [|s0 src0] eqn:Hsrc.
  { left. split; [done|]. unfold mergeApktoolYml_content. by rewrite Hsrc. }
  right.
  destruct (getDoNotCompressRange_delimits (split_nl dstContent))
    as [(Hl & Hs & He)|(a & mid & c & Hls & Hs & He & Hh & Hlast & Hf & Hmid)].
  { left. split_and!; [done| |].
    - destruct (getDoNotCompressRange _); simpl in *; congruence.
    - unfold mergeApktoolYml_content. rewrite Hsrc, Hs, He. simpl.
      by rewrite join_split. }
  right. split; [done|]. exists a, mid, c. split_and!; try done.
  unfold mergeApktoolYml_content; cbv zeta. rewrite Hsrc.
  rewrite bool_decide_eq_false_2 by done. rewrite Hs, He.
  assert ((Z.of_nat (length a) =? -1) = false) as ->
    by (apply Z.eqb_neq; lia).
  assert ((Z.of_nat (length a + length mid) - 1 =? -1) = false) as ->.
  { apply Z.eqb_neq. destruct Hh as (x & Hx & _).
    destruct mid; [done|]. simpl. lia. }
  cbn [negb andb]. rewrite Hls at 1. by rewrite splice_segment.
Qed.

(** The lines the scans extract are item lines of the file. *)
Lemma getDoNotCompressLines_items s :
  Forall (λ l, isItem l = true ∧ no_newline l)
         (getDoNotCompressLines (split_nl s)).
Proof.
  apply getDoNotCompressLines_loop_Forall; [constructor|].
  eapply Forall_impl; [apply split_nl_no_newline|]. by intros l ? ?.
Qed.

Lemma getDoNotCompressRange_items s :
  Forall (λ l, isItem l = true ∧ no_newline l)
         (lines (getDoNotCompressRange (split_nl s))).
Proof.
  destruct (getDoNotCompressRange_delimits (split_nl s))
    as [(-> & _)|(a & mid & c & Hls & _ & _ & _ & _ & <- & _)]; [constructor|].
  pose proof (split_nl_no_newline s) as Hnl. rewrite Hls in Hnl.
  apply Forall_app in Hnl as [_ Hnl]. apply Forall_app in Hnl as [Hnl _].
  apply Forall_forall. intros l [Hi Hl]%list_elem_of_filter.
  split; [done|]. by apply (proj1 (Forall_forall _ _) Hnl).
Qed.

(** The union written back: sorted, without duplicates, made of the items of
    both files. *)
Lemma merged_items_spec (ds ss : list jsstring) :
  Forall (λ l, isItem l = true ∧ no_newline l) ds →
  Forall (λ l, isItem l = true ∧ no_newline l) ss →
  ss ≠ [] →
  sort (arrayFromSet (ds ++ ss)) ≠ []
  ∧ Forall (λ l, isItem l = true ∧ no_newline l) (sort (arrayFromSet (ds ++ ss)))
  ∧ Sorted le (sort (arrayFromSet (ds ++ ss)))
  ∧ NoDup (sort (arrayFromSet (ds ++ ss)))
  ∧ ∀ x, x ∈ sort (arrayFromSet (ds ++ ss)) ↔ x ∈ ds ∨ x ∈ ss.
Proof.
  intros Hds Hss Hne.
  assert (∀ x, x ∈ sort (arrayFromSet (ds ++ ss)) ↔ x ∈ ds ∨ x ∈ ss) as Hin.
  { intros x. by rewrite sort_Permutation, elem_of_arrayFromSet, elem_of_app. }
  split_and!; [| |apply sort_Sorted| |done].
  - destruct ss as [|s0 ss]; [done|]. intros Hnil.
    assert (s0 ∈ sort (arrayFromSet (ds ++ s0 :: ss))) as Habs.
    { apply Hin. right. by left. }
    rewrite Hnil in Habs. by apply elem_of_nil in Habs.
  - apply Forall_forall. intros l [Hl|Hl]%Hin.
    + by apply (proj1 (Forall_forall _ _) Hds).
    + by apply (proj1 (Forall_forall _ _) Hss).
  - rewrite sort_Permutation. apply arrayFromSet_NoDup.
Qed.

(** The text with the items [S] in place of the range [mid] splits into the
    lines it was joined from, and its range is [S]. *)
Lemma range_of_merged_lines a mid c S :
  startIndex (getDoNotCompressRange (a ++ mid ++ c)) = Z.of_nat (length a) →
  endIndex (getDoNotCompressRange (a ++ mid ++ c))
  = Z.of_nat (length a + length mid) - 1 →
  (∃ x, head mid = Some x ∧ isItem x = true) →
  Forall (λ l, isItem l = true ∨ isBlank l = true ∨ isComment l = true) mid →
  Forall no_newline (a ++ mid ++ c) →
  S ≠ [] → Forall (λ l, isItem l = true ∧ no_newline l) S →
  split_nl (join_nl (a ++ S ++ c)) = a ++ S ++ c
  ∧ getDoNotCompressRange (a ++ S ++ c)
    = Range (Z.of_nat (length a)) (Z.of_nat (length a + length S) - 1) S.
Proof.
  intros Hs He Hh Hmid Hnl HSne HS.
  apply Forall_app in Hnl as [Hnl_a Hnl].
  apply Forall_app in Hnl as [Hnl_m Hnl_c]. split.
  - apply split_join.
    + destruct a; [|done]. destruct S; done.
    + repeat (apply Forall_app; split); try done.
      eapply Forall_impl; [exact HS|]. by intros l [_ ?].
  - apply (range_after_splice a mid c S); try done.
    eapply Forall_impl; [exact HS|]. by intros l [? _].
Qed.

(** Merging the same secondary configuration into the merged text gives
    the merged text again. *)
Lemma mergeApktoolYml_content_again srcContent dstContent text :
  mergeApktoolYml_content srcContent dstContent = Some text →
  mergeApktoolYml_content srcContent text = Some text.
Proof.
  intros Hrun.
  destruct (mergeApktoolYml_content_cases srcContent dstContent)
    as [[_ Hc]|[(_ & _ & Hc)
               |(Hsrc & a & mid & c & Hls & Hs & He & Hh & Hf & Hmid & Hc)]];
    rewrite Hrun in Hc; [done|by injection Hc as ->|].
  injection Hc as ->.
  destruct (merged_items_spec
              (lines (getDoNotCompressRange (split_nl dstContent)))
              (getDoNotCompressLines (split_nl srcContent)))
    as (HSne & HS & Hsorted & Hnd & Hin);
    [apply getDoNotCompressRange_items|apply getDoNotCompressLines_items|done|].
  set (S := sort _) in *.
  destruct (range_of_merged_lines a mid c S) as [Hsplit Hrange]; try done.
  { by rewrite <-Hls. }
  { by rewrite <-Hls. }
  { rewrite <-Hls. apply split_nl_no_newline. }
  unfold mergeApktoolYml_content. cbv zeta.
  rewrite Hsplit, Hrange. cbn [startIndex endIndex lines length].
  rewrite bool_decide_eq_false_2
    by (intros H0; by apply nil_length_inv in H0).
  assert ((Z.of_nat (length a) =? -1) = false) as -> by (apply Z.eqb_neq; lia).
  assert ((Z.of_nat (length a + length S) - 1 =? -1) = false) as ->.
  { apply Z.eqb_neq. destruct S; [done|]. simpl. lia. }
  cbn [negb andb].
  rewrite arrayFromSet_again, sort_sorted, splice_segment; try done.
  intros x Hx. apply Hin. by right.
Qed.

(** *** [mergeApkContents] run twice (C6) *)

Lemma mergeApkContents_dirs_again mainDir secDir ws ws_a ws1 :
  apart mainDir secDir →
  mergeApkContents_dirs mainDir secDir ws = (Ok (), ws_a) →
  grows ws_a ws1 →
  same_outside mainDir ws_a ws1 →
  mergeApkContents_dirs mainDir secDir ws1 = (Ok (), ws1).
Proof.
  intros Hapart Hrun Hgrows Hout.
  eapply for_of_dirs_again; [done|exact Hrun|done|].
  intros q. rewrite Hout by by apply apart_under.
  pose proof (mergeApkContents_dirs_same_outside _ _ _ _ _ Hrun) as Hso.
  by apply Hso, apart_under.
Qed.

Lemma readFile_Ok_inv p fs d fs' :
  readFile p fs = (Ok d, fs') → stat fs p = Some (File d) ∧ fs' = fs.
Proof.
  unfold readFile. destruct (stat fs p) as [[d'|es]|]; try done.
  by intros [= -> ->].
Qed.

(** What the configuration step of [mergeApkContents] does when it
    completes: nothing, or a rewrite of the base configuration under which a
    second run is again that rewrite. *)
Lemma config_step_again mainDir secDir ws_a ws1 :
  apart mainDir secDir →
  (if existsSync ws_a (secDir ++ [CONST_APK_FILE_APKTOOL_CONFIG])
      && existsSync ws_a (mainDir ++ [CONST_APK_FILE_APKTOOL_CONFIG])
   then mergeApktoolYml (secDir ++ [CONST_APK_FILE_APKTOOL_CONFIG])
          (mainDir ++ [CONST_APK_FILE_APKTOOL_CONFIG]) ws_a
   else (Ok (), ws_a)) = (Ok (), ws1) →
  grows ws_a ws1
  ∧ same_outside mainDir ws_a ws1
  ∧ (if existsSync ws1 (secDir ++ [CONST_APK_FILE_APKTOOL_CONFIG])
        && existsSync ws1 (mainDir ++ [CONST_APK_FILE_APKTOOL_CONFIG])
     then mergeApktoolYml (secDir ++ [CONST_APK_FILE_APKTOOL_CONFIG])
            (mainDir ++ [CONST_APK_FILE_APKTOOL_CONFIG]) ws1
     else (Ok (), ws1)) = (Ok (), ws1).
Proof.
  intros Hapart.
  set (src := secDir ++ [CONST_APK_FILE_APKTOOL_CONFIG]).
  set (dst := mainDir ++ [CONST_APK_FILE_APKTOOL_CONFIG]).
  destruct (existsSync ws_a src && existsSync ws_a dst) eqn:Hex.
  2: { intros [= <-]. by rewrite Hex. }
  unfold mergeApktoolYml at 1. intros Hrun.
  apply bind_Ok_inv in Hrun as (sc & ? & [Hsrc ->]%readFile_Ok_inv & Hrun).
  apply bind_Ok_inv in Hrun as (dc & ? & [Hdst ->]%readFile_Ok_inv & Hrun).
  destruct (mergeApktoolYml_content sc dc) as [text|] eqn:Hmerge.
  2: { injection Hrun as <-. split_and!; [done..|].
       rewrite Hex. unfold mergeApktoolYml, bind, readFile.
       by rewrite Hsrc, Hdst, Hmerge. }
  unfold writeFile, attempt in Hrun.
  destruct (write_at ws_a dst text) as [|ws1'] eqn:Hw; [done|].
  injection Hrun as ->.
  pose proof (write_at_grows _ _ _ _ Hw) as Hgrows.
  pose proof (write_at_same_outside _ _ _ _ Hw) as Hout.
  apply same_outside_up in Hout.
  pose proof (write_at_stat _ _ _ _ Hw) as Hdst1.
  assert (stat ws1 src = Some (File sc)) as Hsrc1.
  { rewrite <-Hsrc. by apply Hout, apart_under. }
  split_and!; [done..|].
  unfold existsSync. rewrite Hsrc1, Hdst1. cbn [andb].
  unfold mergeApktoolYml, bind, readFile. rewrite Hsrc1, Hdst1.
  rewrite (mergeApktoolYml_content_again _ _ _ Hmerge).
  unfold writeFile, attempt. by rewrite (write_at_same _ _ _ Hdst1).
Qed.

(** C6. For a base tree and a secondary tree that are different directories
    of the workspace, once the merge of the secondary into the base has
    completed, running it again changes nothing: it completes and leaves the
    workspace, hence the base tree, exactly as it found it.  This holds for
    the merge of the five subtrees and for the whole of [mergeApkContents],
    configuration merge included. *)
Theorem mergeInto_idempotent (mainDir secDir : path) (ws ws1 : node) :
  apart mainDir secDir →
  (mergeApkContents_dirs mainDir secDir ws = (Ok (), ws1) →
   mergeApkContents_dirs mainDir secDir ws1 = (Ok (), ws1))
  ∧ (mergeApkContents mainDir secDir ws = (Ok (), ws1) →
     mergeApkContents mainDir secDir ws1 = (Ok (), ws1)).
Proof.
  intros Hapart. split; intros Hrun.
  - eapply mergeApkContents_dirs_again; [done|exact Hrun|done..].
  - unfold mergeApkContents in *.
    apply bind_Ok_inv in Hrun as ([] & ws_a & Hdirs & Hcfg).
    destruct (config_step_again _ _ _ _ Hapart Hcfg) as (Hgrows & Hout & Hcfg1).
    unfold bind.
    by rewrite (mergeApkContents_dirs_again _ _ _ _ _ Hapart Hdirs Hgrows Hout).
Qed.

Lemma mergeInto_idempotent_witness :
  mergeApkContents [lit "base"] [lit "split_config.arm64"]
    (mergeApkContents [lit "base"] [lit "split_config.arm64"]
       ws_example_yml).2
  = (Ok (), (mergeApkContents [lit "base"] [lit "split_config.arm64"]
               ws_example_yml).2).
Proof.
  refine (proj2 (mergeInto_idempotent _ _ ws_example_yml _ _) _).
  - split; intros [k Hk]; discriminate Hk.
  - vm_compute. reflexivity.
Defined.

(** ** Input Collector (C3) *)

Lemma indexOfFrom_spec x l : ∀ i,
  ((x ∉ l) ∧ indexOfFrom i l x = -1)
  ∨ ∃ k : nat, indexOfFrom i l x = i + Z.of_nat k ∧ l !! k = Some x.
Proof.
  induction l as [|y l IH]; intros i; simpl.
  - left. split; [apply not_elem_of_nil|done].
  - destruct (eqb y x) eqn:E.
    + apply eqb_eq in E as ->. right. exists 0%nat. split; [lia|done].
    + destruct (IH (i + 1)) as [[Hx Hi]|(k & Hk & Hl)].
      * left. split; [|done]. rewrite not_elem_of_cons. split; [|done].
        intros ->. by rewrite eqb_refl in E.
      * right. exists (S k). split; [lia|done].
Qed.

Lemma splice_remove_one {A} (l : list A) (k : nat) x :
  l !! k = Some x →
  splice l (Z.of_nat k) 1 [] = (take k l ++ drop (S k) l, [x]).
Proof.
  intros Hk. pose proof (lookup_lt_Some _ _ _ Hk) as Hlt.
  unfold splice. cbv zeta.
  assert ((Z.of_nat k <? 0) = false) as -> by (apply Z.ltb_ge; lia).
  rewrite (Z.min_l (Z.of_nat k)) by lia.
  rewrite (Z.max_l 1 0), (Z.min_l 1) by lia.
  rewrite Nat2Z.id.
  replace (Z.to_nat (Z.of_nat k + 1)) with (S k) by lia.
  f_equal. change (Z.to_nat 1) with 1%nat.
  rewrite (drop_S _ _ _ Hk). done.
Qed.

Lemma orderApkFiles_spec (listing : list jsstring) :
  let apks := filter (λ f, endsWith f CONST_EXT_APK = true) listing in
  orderApkFiles listing ≡ₚ apks
  ∧ (BASE_APK ∈ apks →
     ∃ rest, orderApkFiles listing = BASE_APK :: rest ∧ Sorted le rest)
  ∧ (BASE_APK ∉ apks → orderApkFiles listing = sort apks).
Proof.
  intros apks. unfold orderApkFiles. fold apks.
  pose proof (sort_Sorted apks) as Hsorted.
  pose proof (sort_Permutation apks) as Hperm.
  unfold indexOf.
  destruct (indexOfFrom_spec BASE_APK (sort apks) 0)
    as [[Hno ->]|(k & -> & Hk)].
  { change (0 <? -1) with false. cbv iota.
    split_and!; [done| |done]. intros Hin. by rewrite <-Hperm in Hin. }
  rewrite Z.add_0_l.
  assert (BASE_APK ∈ apks) as Hin.
  { rewrite <-Hperm. by eapply list_elem_of_lookup_2. }
  destruct k as [|k].
  - change (0 <? Z.of_nat 0) with false. cbv iota.
    split_and!; [done| |done]. intros _.
    destruct (sort apks) as [|y rest]; [done|]. injection Hk as ->.
    exists rest. split; [done|]. by inv Hsorted.
  - assert ((0 <? Z.of_nat (S k)) = true) as -> by (apply Z.ltb_lt; lia).
    rewrite (splice_remove_one _ _ _ Hk).
    pose proof (take_drop_middle _ _ _ Hk) as Hmid.
    split_and!; [| |done].
    + etrans; [|exact Hperm]. etrans; [apply Permutation_middle|].
      by rewrite Hmid.
    + intros _. eexists. split; [done|].
      apply Sorted_StronglySorted in Hsorted; [|apply _].
      rewrite <-Hmid in Hsorted.
      apply StronglySorted_app in Hsorted as (H12 & H1 & H2).
      apply StronglySorted_cons in H2 as [_ H2].
      apply StronglySorted_Sorted, StronglySorted_app_2; [|done..].
      intros x1 x2 Hx1 Hx2. apply H12; [done|]. by right.
Qed.

Lemma lookup_entry_elem_of name es x :
  lookup_entry name es = Some x → (name, x) ∈ es.
Proof.
  induction es as [|[k y] es IH]; simpl; [done|].
  destruct (eqb k name) eqn:E.
  - apply eqb_eq in E as ->. intros [= ->]. by left.
  - intros H. right. by apply IH.
Qed.

Lemma lookup_entry_is_Some name es :
  name ∈ map fst es → is_Some (lookup_entry name es).
Proof.
  induction es as [|[k y] es IH]; simpl.
  - by intros ?%elem_of_nil.
  - destruct (eqb k name) eqn:E; [by eexists|].
    intros [->|H]%elem_of_cons; [by rewrite eqb_refl in E|by apply IH].
Qed.

Lemma write_at_flat es file d :
  flat es → ∃ es', write_at (Dir es) [file] d = inr (Dir es') ∧ flat es'.
Proof.
  intros Hflat. simpl. destruct (lookup_entry file es) as [c|] eqn:Hl.
  - pose proof (lookup_entry_elem_of _ _ _ Hl) as Hin.
    apply (proj1 (Forall_forall _ _) Hflat) in Hin as [d0 Hd0].
    simpl in Hd0. subst c.
    eexists. split; [done|]. clear Hl.
    induction Hflat as [|[k y] es Hy Hes IH]; simpl; [constructor|].
    destruct (eqb k file); constructor; simpl; eauto.
  - eexists. split; [done|]. apply Forall_app. split; [done|].
    apply Forall_singleton. by eexists.
Qed.

Lemma prepareApkFiles_loop_returns es files : ∀ acc w ts,
  input w = Some (Dir es) →
  workspace w = Some (Dir ts) → flat ts →
  Forall (λ f, ∃ d, lookup_entry f es = Some (File d)) files →
  ∃ w', prepareApkFiles_loop files acc w = (Ok (acc ++ files), w').
Proof.
  induction files as [|file files IH]; intros acc w ts Hin Hws Hflat Hfiles;
    simpl.
  - rewrite app_nil_r. by eexists.
  - apply Forall_cons in Hfiles as [[d Hd] Hfiles].
    unfold bind at 1, copyIntoWorkspace. rewrite Hin, Hd.
    unfold in_workspace. rewrite Hws. unfold writeFile, attempt.
    destruct (write_at_flat ts file d Hflat) as (ts' & -> & Hflat').
    destruct (IH (acc ++ [file]) (set_workspace (Some (Dir ts')) w) ts'
                Hin eq_refl Hflat' Hfiles) as [w' Hw'].
    rewrite Hw', <-(assoc_L (++)). by eexists.
Qed.

(** C3. For an input directory whose entries with the archive extension are
    regular files, and a fresh workspace, the Input Collector returns exactly
    those entries; when [base.apk] is among them it comes first and the others
    follow in lexicographic order; otherwise the whole list is in
    lexicographic order, so that its first element, which the merge takes as
    the base, is the least. *)
Theorem prepareApkFiles_order (w : world) (es : list (jsstring * node)) :
  input w = Some (Dir es) →
  workspace w = Some (Dir []) →
  Forall (λ e, endsWith e.1 CONST_EXT_APK = true → ∃ d, e.2 = File d) es →
  ∃ files w',
    prepareApkFiles w = (Ok files, w')
    ∧ files ≡ₚ filter (λ f, endsWith f CONST_EXT_APK = true) (map fst es)
    ∧ (BASE_APK ∈ map fst es →
       ∃ rest, files = BASE_APK :: rest ∧ Sorted le rest)
    ∧ (BASE_APK ∉ map fst es →
       Sorted le files
       ∧ ∀ first others, files = first :: others → Forall (le first) others).
Proof.
  intros Hin Hws Hfiles.
  destruct (orderApkFiles_spec (map fst es)) as (Hperm & Hbase & Hnobase).
  set (apks := filter (λ f, endsWith f CONST_EXT_APK = true) (map fst es)) in *.
  destruct (prepareApkFiles_loop_returns es (orderApkFiles (map fst es))
              [] w [] Hin Hws) as [w' Hw'].
  { constructor. }
  { apply Forall_forall. intros f Hf. rewrite Hperm in Hf.
    apply list_elem_of_filter in Hf as [Hext Hf].
    destruct (lookup_entry_is_Some _ _ Hf) as [x Hx].
    pose proof (lookup_entry_elem_of _ _ _ Hx) as Hxin.
    apply (proj1 (Forall_forall _ _) Hfiles) in Hxin as [d Hd]; [|done].
    simpl in Hd. subst x. by exists d. }
  exists (orderApkFiles (map fst es)), w'.
  assert (BASE_APK ∈ apks ↔ BASE_APK ∈ map fst es) as Hiff.
  { unfold apks. rewrite list_elem_of_filter. split; [tauto|]. by split. }
  split_and!.
  - unfold prepareApkFiles. by rewrite Hin.
  - done.
  - intros Hb. by apply Hbase, Hiff.
  - intros Hb. rewrite Hnobase by by rewrite Hiff.
    split; [apply sort_Sorted|].
    intros first others Heq.
    pose proof (sort_Sorted apks) as Hs. rewrite Heq in Hs.
    apply Sorted_StronglySorted in Hs; [|apply _].
    by apply StronglySorted_cons in Hs as [? _].
Qed.

Lemma prepareApkFiles_order_witness :
  ∃ files w',
    prepareApkFiles (World (Some (Dir input_example)) (Some (Dir [])) None [])
    = (Ok files, w')
    ∧ files ≡ₚ filter (λ f, endsWith f CONST_EXT_APK = true)
                 (map fst input_example)
    ∧ (BASE_APK ∈ map fst input_example →
       ∃ rest, files = BASE_APK :: rest ∧ Sorted le rest)
    ∧ (BASE_APK ∉ map fst input_example →
       Sorted le files
       ∧ ∀ first others, files = first :: others → Forall (le first) others).
Proof.
  apply prepareApkFiles_order; [reflexivity|reflexivity|].
  repeat constructor; simpl; eauto.
Defined.

Example orderApkFiles_example :
  orderApkFiles (map fst input_example)
  = map lit ["base.apk"; "a_split.apk"; "split_config.en.apk"]%string.
Proof. vm_compute. reflexivity. Qed.

(** ** Manifest Sanitizer (C7) *)

Section replaceAll.
Variables (re : list Rx.atom) (rep : jsstring).

Lemma replaceAll_no_match s :
  occursb re s = false → Rx.replaceAll re rep s = s.
Proof.
  unfold Rx.replaceAll. induction s as [|c s IH]; [done|].
  cbn [occursb Rx.replaceAll_from]. intros [Hm Ho]%orb_false_iff.
  rewrite Hm. f_equal. by apply IH.
Qed.

Lemma matchesAt_length s : Rx.matchesAt re s = true → (length re ≤ length s)%nat.
Proof.
  revert s. induction re as [|a re' IH]; intros [|c s]; simpl; try done;
    try lia.
  intros [_ H]%andb_true_iff. apply IH in H. lia.
Qed.

Hypothesis rep_short : (length rep ≤ length re)%nat.

Lemma replaceAll_from_length s : ∀ k,
  (length (Rx.replaceAll_from k re rep s) ≤ length s - k)%nat.
Proof.
  induction s as [|c s IH]; intros k; [simpl; lia|].
  cbn [Rx.replaceAll_from]. destruct k as [|k].
  - destruct (Rx.matchesAt re (c :: s)) eqn:Hm.
    + apply matchesAt_length in Hm. rewrite length_app.
      specialize (IH (length re - 1)%nat). simpl in *. lia.
    + specialize (IH 0%nat). simpl in *. lia.
  - specialize (IH k). simpl. lia.
Qed.

Lemma replaceAll_length s :
  (length (Rx.replaceAll re rep s) ≤ length s)%nat.
Proof. pose proof (replaceAll_from_length s 0%nat). unfold Rx.replaceAll. lia. Qed.

Hypothesis rep_shorter : (length rep < length re)%nat.

Lemma replaceAll_match_shrinks s :
  occursb re s = true → (length (Rx.replaceAll re rep s) < length s)%nat.
Proof.
  unfold Rx.replaceAll. induction s as [|c s IH].
  - simpl. rewrite orb_false_r. intros H%matchesAt_length. simpl in H. lia.
  - cbn [occursb Rx.replaceAll_from].
    destruct (Rx.matchesAt re (c :: s)) eqn:Hm.
    + intros _. apply matchesAt_length in Hm. rewrite length_app.
      pose proof (replaceAll_from_length s (length re - 1)%nat).
      simpl in *. lia.
    + simpl. intros H. apply IH in H. simpl. lia.
Qed.
End replaceAll.

Lemma updateMainManifestFile_data_clean data :
  no_marker data → updateMainManifestFile_data data = data.
Proof.
  intros (H1 & H2 & H3 & H4). unfold updateMainManifestFile_data. cbv zeta.
  by rewrite (replaceAll_no_match _ _ _ H1), (replaceAll_no_match _ _ _ H2),
    (replaceAll_no_match _ _ _ H3), (replaceAll_no_match _ _ _ H4).
Qed.

Lemma updateMainManifestFile_data_fixed data :
  updateMainManifestFile_data data = data → no_marker data.
Proof.
  unfold updateMainManifestFile_data, no_marker. cbv zeta. intros Heq.
  assert (length (lit " ") < length RE_SPLIT_REQUIRED)%nat as L1
    by (vm_compute; lia).
  assert (length (@nil N) < length RE_SPLITS_REQUIRED_META)%nat as L2
    by (vm_compute; lia).
  assert (length (@nil N) < length RE_SPLITS_META)%nat as L3 by (vm_compute; lia).
  assert (length (litq "android:value='STAMP_TYPE_STANDALONE_APK'")
          < length RE_STAMP_TYPE)%nat as L4 by (vm_compute; lia).
  pose proof (replaceAll_length _ _ (Nat.lt_le_incl _ _ L1) data) as B1.
  set (d1 := Rx.replaceAll RE_SPLIT_REQUIRED (lit " ") data) in *.
  pose proof (replaceAll_length _ _ (Nat.lt_le_incl _ _ L2) d1) as B2.
  set (d2 := Rx.replaceAll RE_SPLITS_REQUIRED_META [] d1) in *.
  pose proof (replaceAll_length _ _ (Nat.lt_le_incl _ _ L3) d2) as B3.
  set (d3 := Rx.replaceAll RE_SPLITS_META [] d2) in *.
  pose proof (replaceAll_length _ _ (Nat.lt_le_incl _ _ L4) d3) as B4.
  apply (f_equal length) in Heq as Hlen.
  assert (occursb RE_SPLIT_REQUIRED data = false) as O1.
  { destruct (occursb RE_SPLIT_REQUIRED data) eqn:O; [|done].
    apply (replaceAll_match_shrinks _ _ (Nat.lt_le_incl _ _ L1) L1) in O.
    fold d1 in O. lia. }
  assert (d1 = data) as E1 by by apply replaceAll_no_match.
  assert (occursb RE_SPLITS_REQUIRED_META data = false) as O2.
  { destruct (occursb RE_SPLITS_REQUIRED_META data) eqn:O; [|done]. rewrite <-E1 in O.
    apply (replaceAll_match_shrinks _ _ (Nat.lt_le_incl _ _ L2) L2) in O.
    fold d2 in O. lia. }
  assert (d2 = data) as E2.
  { unfold d2. rewrite E1. by apply replaceAll_no_match. }
  assert (occursb RE_SPLITS_META data = false) as O3.
  { destruct (occursb RE_SPLITS_META data) eqn:O; [|done]. rewrite <-E2 in O.
    apply (replaceAll_match_shrinks _ _ (Nat.lt_le_incl _ _ L3) L3) in O.
    fold d3 in O. lia. }
  assert (d3 = data) as E3.
  { unfold d3. rewrite E2. by apply replaceAll_no_match. }
  split_and!; try done.
  destruct (occursb RE_STAMP_TYPE data) eqn:O; [|done]. rewrite <-E3 in O.
  apply (replaceAll_match_shrinks _ _ (Nat.lt_le_incl _ _ L4) L4) in O. lia.
Qed.

(** C7, as the code has it. Sanitizing a second time gives the document
    obtained by sanitizing once exactly when that document contains no match
    of any of the four expressions; in particular a document without a match
    is left as it is. *)
Theorem sanitizer_twice (data : jsstring) :
  (updateMainManifestFile_data (updateMainManifestFile_data data)
   = updateMainManifestFile_data data
   ↔ no_marker (updateMainManifestFile_data data))
  ∧ (no_marker data → updateMainManifestFile_data data = data).
Proof.
  split; [split|].
  - apply updateMainManifestFile_data_fixed.
  - apply updateMainManifestFile_data_clean.
  - apply updateMainManifestFile_data_clean.
Qed.

Example sanitizer_example :
  updateMainManifestFile_data manifest_example
  = litq "<application android:label='x'><meta-data android:name='com.android.stamp.type' android:value='STAMP_TYPE_STANDALONE_APK'/></application>".
Proof. vm_compute. reflexivity. Qed.

Lemma sanitizer_twice_witness :
  updateMainManifestFile_data (updateMainManifestFile_data manifest_example)
  = updateMainManifestFile_data manifest_example.
Proof.
  apply (proj1 (sanitizer_twice manifest_example)).
  repeat split; vm_compute; reflexivity.
Defined.

(** C7 as stated fails: removing a match can bring the text on both sides
    of it together into a new match, which only a second pass removes. *)
Lemma sanitizer_not_idempotent :
  updateMainManifestFile_data (updateMainManifestFile_data manifest_twice_marked)
  ≠ updateMainManifestFile_data manifest_twice_marked.
Proof. vm_compute. discriminate. Qed.

(** ** Signature files (C10) *)

Lemma unlink_at_entry p : ∀ fs es name,
  stat fs p = Some (Dir es) →
  match lookup_entry name es with
  | Some (File _) =>
      ∃ fs', unlink_at fs (p ++ [name]) = inr fs'
             ∧ stat fs' p = Some (Dir (remove_entry name es))
             ∧ same_outside p fs fs'
  | Some (Dir _) => unlink_at fs (p ++ [name]) = inl EISDIR
  | None => unlink_at fs (p ++ [name]) = inl ENOENT
  end.
Proof.
  induction p as [|k p IH]; intros fs es name; simpl.
  - intros [= ->]. simpl.
    destruct (lookup_entry name es) as [[d|es']|]; try done.
    eexists. split_and!; [done..|].
    intros q [[] _]. apply prefix_nil.
  - destruct fs as [d|es0]; [done|].
    destruct (lookup_entry k es0) as [c|] eqn:Hk; [|done].
    intros Hc. specialize (IH c es name Hc).
    assert (∃ j l, p ++ [name] = j :: l) as (j & l & Hp).
    { destruct p; simpl; eauto. }
    rewrite Hp in *.
    destruct (lookup_entry name es) as [[d|es']|].
    + destruct IH as (c' & Hu & Hs & Hout). rewrite Hu.
      eexists. split_and!; [done| |].
      * simpl. by rewrite lookup_set_entry, eqb_refl, Hk.
      * intros [|k' q] Hq.
        { destruct Hq as [_ []]. apply prefix_nil. }
        simpl. rewrite lookup_set_entry.
        destruct (eqb k' k) eqn:Hkk; [|done].
        apply eqb_eq in Hkk as ->. rewrite Hk. simpl.
        apply Hout. eapply apart_cons, Hq.
    + by rewrite IH.
    + by rewrite IH.
Qed.

Lemma lookup_entry_middle name x (pre rest : list (jsstring * node)) :
  Forall (λ e, e.1 ≠ name) pre →
  lookup_entry name (pre ++ (name, x) :: rest) = Some x
  ∧ remove_entry name (pre ++ (name, x) :: rest) = pre ++ rest.
Proof.
  induction 1 as [|[k y] pre Hk _ [IH1 IH2]]; simpl.
  - by rewrite eqb_refl.
  - destruct (eqb k name) eqn:E; [by apply eqb_eq in E|].
    by rewrite IH1, IH2.
Qed.

Section delete_loop.
Variable metaInf : path.

(** The loop of [deleteSignatureRelatedFiles] with the entries [rest] still
    to visit and the entries [pre] already kept. *)
Lemma delete_loop_completed rest : ∀ pre fs fs',
  stat fs metaInf = Some (Dir (pre ++ rest)) →
  Forall keeps pre →
  for_of (map fst rest)
    (λ file, if isSignatureRelated file
             then unlink (metaInf ++ [file])
             else ret ()) fs = (Ok (), fs') →
  stat fs' metaInf = Some (Dir (pre ++ filter keeps rest))
  ∧ same_outside metaInf fs fs'.
Proof.
  induction rest as [|[file x] rest IH]; intros pre fs fs' Hst Hpre; simpl.
  - intros [= <-]. by rewrite filter_nil.
  - unfold bind at 1.
    destruct (isSignatureRelated file) eqn:Hsig.
    + assert (Forall (λ e : jsstring * node, e.1 ≠ file) pre) as Hne.
      { eapply Forall_impl; [exact Hpre|]. intros e He Heq.
        unfold keeps in He. rewrite Heq in He. congruence. }
      destruct (lookup_entry_middle file x pre rest Hne) as [Hl Hr].
      pose proof (unlink_at_entry metaInf fs _ file Hst) as Hu.
      rewrite Hl, Hr in Hu. unfold unlink, attempt.
      destruct x as [d|es'].
      * destruct Hu as (fs1 & -> & Hst1 & Hout1). intros Hrest.
        destruct (IH pre fs1 fs' Hst1 Hpre Hrest) as [Hst' Hout'].
        rewrite filter_cons_False by (unfold keeps; simpl; congruence).
        split; [done|]. by etrans.
      * by rewrite Hu.
    + intros Hrest.
      destruct (IH (pre ++ [(file, x)]) fs fs') as [Hst' Hout'].
      * by rewrite <-(assoc_L (++)).
      * apply Forall_app. split; [done|]. by apply Forall_singleton.
      * done.
      * rewrite filter_cons_True by done.
        by rewrite <-(assoc_L (++)) in Hst'.
Qed.

Lemma delete_loop_completes rest : ∀ pre fs,
  stat fs metaInf = Some (Dir (pre ++ rest)) →
  Forall keeps pre →
  Forall (λ e, isSignatureRelated e.1 = true → ∃ d, e.2 = File d) rest →
  ∃ fs', for_of (map fst rest)
    (λ file, if isSignatureRelated file
             then unlink (metaInf ++ [file])
             else ret ()) fs = (Ok (), fs').
Proof.
  induction rest as [|[file x] rest IH]; intros pre fs Hst Hpre Hfiles; simpl.
  - by eexists.
  - apply Forall_cons in Hfiles as [Hx Hfiles].
    unfold bind at 1.
    destruct (isSignatureRelated file) eqn:Hsig.
    + assert (Forall (λ e : jsstring * node, e.1 ≠ file) pre) as Hne.
      { eapply Forall_impl; [exact Hpre|]. intros e He Heq.
        unfold keeps in He. rewrite Heq in He. congruence. }
      destruct (lookup_entry_middle file x pre rest Hne) as [Hl Hr].
      pose proof (unlink_at_entry metaInf fs _ file Hst) as Hu.
      rewrite Hl, Hr in Hu. unfold unlink, attempt.
      destruct Hx as [d Hd]; [done|]. simpl in Hd. subst x.
      destruct Hu as (fs1 & -> & Hst1 & Hout1). by eapply IH.
    + eapply (IH (pre ++ [(file, x)])); [by rewrite <-(assoc_L (++))| |done].
      apply Forall_app. split; [done|]. by apply Forall_singleton.
Qed.
End delete_loop.

Lemma deleteSignatureRelatedFiles_absent apkDir fs :
  stat fs (apkDir ++ [lit "original"; lit "META-INF"]) = None →
  deleteSignatureRelatedFiles apkDir fs = (Ok (), fs).
Proof.
  intros H. unfold deleteSignatureRelatedFiles. cbv zeta.
  apply existsSync_false in H. by rewrite H.
Qed.

Lemma deleteSignatureRelatedFiles_completed apkDir fs fs' es :
  stat fs (apkDir ++ [lit "original"; lit "META-INF"]) = Some (Dir es) →
  deleteSignatureRelatedFiles apkDir fs = (Ok (), fs') →
  stat fs' (apkDir ++ [lit "original"; lit "META-INF"])
  = Some (Dir (filter keeps es))
  ∧ same_outside (apkDir ++ [lit "original"; lit "META-INF"]) fs fs'.
Proof.
  intros Hst. unfold deleteSignatureRelatedFiles. cbv zeta.
  unfold existsSync. rewrite Hst. unfold bind at 1, readdir. rewrite Hst.
  intros Hrun. by eapply (delete_loop_completed _ es []).
Qed.

Lemma deleteSignatureRelatedFiles_completes apkDir fs es :
  stat fs (apkDir ++ [lit "original"; lit "META-INF"]) = Some (Dir es) →
  Forall (λ e, isSignatureRelated e.1 = true → ∃ d, e.2 = File d) es →
  ∃ fs', deleteSignatureRelatedFiles apkDir fs = (Ok (), fs').
Proof.
  intros Hst Hfiles. unfold deleteSignatureRelatedFiles. cbv zeta.
  unfold existsSync. rewrite Hst. unfold bind at 1, readdir. rewrite Hst.
  by eapply (delete_loop_completes _ es []).
Qed.

Lemma in_workspace_Ok_inv {A} (c : M node A) w a w' :
  in_workspace c w = (Ok a, w') →
  ∃ t t', workspace w = Some t ∧ c t = (Ok a, t')
          ∧ w' = set_workspace (Some t') w.
Proof.
  unfold in_workspace. destruct (workspace w) as [t|]; [|done].
  destruct (c t) as [r t'] eqn:Hc. intros [= -> <-]. eauto.
Qed.

Lemma apart_app k a b : apart a b → apart (k ++ a) (k ++ b).
Proof.
  intros [H1 H2]. split; intros H; [apply H1|apply H2];
    by eapply prefix_app_inv.
Qed.

Lemma updateMainManifestFile_same_outside apkDir :
  preserves (same_outside (apkDir ++ [lit "AndroidManifest.xml"]))
    (updateMainManifestFile apkDir).
Proof.
  intros fs r fs'. unfold updateMainManifestFile. cbv zeta.
  destruct (existsSync fs _); simpl; [|by intros [= _ <-]].
  apply preserves_bind; [apply _| |].
  - intros s r' s'. unfold readFile.
    destruct (stat s _) as [[d|es]|]; by intros [= _ <-].
  - intros d. apply preserves_attempt; [apply _|].
    intros s s'. apply write_at_same_outside.
Qed.

Lemma manifest_apart_metaInf apkDir :
  apart (apkDir ++ [lit "AndroidManifest.xml"])
        (apkDir ++ [lit "original"; lit "META-INF"]).
Proof. apply apart_app. split; intros [k Hk]; discriminate Hk. Qed.

(** When the steps before the repack have completed, the base tree's
    [original/META-INF] has no signature-related entry left. *)
Lemma assemble_no_signature env w mainApkDir w1 t es :
  mergeApks_assemble env w = (Ok mainApkDir, w1) →
  workspace w1 = Some t →
  stat t ([mainApkDir] ++ [lit "original"; lit "META-INF"]) = Some (Dir es) →
  Forall keeps es.
Proof.
  unfold mergeApks_assemble. intros Hrun Hws Hst.
  apply bind_Ok_inv in Hrun as ([|first others] & w_a & _ & Hrun); [done|].
  apply bind_Ok_inv in Hrun as ([] & w_b & _ & Hrun).
  apply bind_Ok_inv in Hrun as ([] & w_c & _ & Hrun).
  apply bind_Ok_inv in Hrun as ([] & w_d & Hdel & Hrun).
  apply bind_Ok_inv in Hrun as ([] & w_e & Hupd & Hrun).
  injection Hrun as <- <-.
  set (mainApkDir := replace first (lit ".apk") []) in *.
  apply in_workspace_Ok_inv in Hdel as (t0 & t1 & Hw0 & Hdel & ->).
  apply in_workspace_Ok_inv in Hupd as (t1' & t2 & Hw1 & Hupd & ->).
  simpl in Hw1, Hws. injection Hw1 as <-. injection Hws as <-.
  apply updateMainManifestFile_same_outside in Hupd.
  rewrite (Hupd _ (manifest_apart_metaInf [mainApkDir])) in Hst.
  destruct (stat t0 ([mainApkDir] ++ [lit "original"; lit "META-INF"]))
    as [[d|es0]|] eqn:Hst0.
  - unfold deleteSignatureRelatedFiles in Hdel. cbv zeta in Hdel.
    unfold existsSync in Hdel. rewrite Hst0 in Hdel.
    unfold bind, readdir in Hdel. by rewrite Hst0 in Hdel.
  - destruct (deleteSignatureRelatedFiles_completed _ _ _ _ Hst0 Hdel)
      as [Hst1 _].
    rewrite Hst1 in Hst. injection Hst as <-.
    apply Forall_forall. by intros e [He _]%list_elem_of_filter.
  - rewrite (deleteSignatureRelatedFiles_absent _ _ Hst0) in Hdel.
    injection Hdel as <-. congruence.
Qed.

(** C10. [deleteSignatureRelatedFiles] does nothing when the base tree has no
    [original/META-INF]; when it is a directory whose signature-related
    entries are files, the call completes, the directory is left with exactly
    its other entries, in their order and untouched, and nothing outside the
    directory changes.  In the pipeline the call precedes the repack: whenever
    the steps before [packApk] complete, no signature-related entry is left in
    the base tree's [original/META-INF]. *)
Theorem signature_files_deleted :
  (∀ apkDir fs,
     stat fs (apkDir ++ [lit "original"; lit "META-INF"]) = None →
     deleteSignatureRelatedFiles apkDir fs = (Ok (), fs))
  ∧ (∀ apkDir fs es,
       stat fs (apkDir ++ [lit "original"; lit "META-INF"]) = Some (Dir es) →
       Forall (λ e, isSignatureRelated e.1 = true → ∃ d, e.2 = File d) es →
       ∃ fs',
         deleteSignatureRelatedFiles apkDir fs = (Ok (), fs')
         ∧ stat fs' (apkDir ++ [lit "original"; lit "META-INF"])
           = Some (Dir (filter (λ e, isSignatureRelated e.1 = false) es))
         ∧ same_outside (apkDir ++ [lit "original"; lit "META-INF"]) fs fs')
  ∧ (∀ env w mainApkDir w1 t es,
       mergeApks_assemble env w = (Ok mainApkDir, w1) →
       workspace w1 = Some t →
       stat t ([mainApkDir] ++ [lit "original"; lit "META-INF"])
       = Some (Dir es) →
       Forall (λ e, isSignatureRelated e.1 = false) es).
Proof.
  split_and!.
  - apply deleteSignatureRelatedFiles_absent.
  - intros apkDir fs es Hst Hfiles.
    destruct (deleteSignatureRelatedFiles_completes _ _ _ Hst Hfiles)
      as [fs' Hrun].
    exists fs'. split; [done|].
    by apply (deleteSignatureRelatedFiles_completed _ _ _ _ Hst Hrun).
  - apply assemble_no_signature.
Qed.

Example signature_files_example :
  (deleteSignatureRelatedFiles [] base_example).2
  = Dir [(lit "AndroidManifest.xml", File manifest_example);
         (lit "original",
          Dir [(lit "META-INF",
                Dir [(lit "services", Dir []);
                     (lit "kotlin.kotlin_module", File (lit "k"))])])].
Proof. vm_compute. reflexivity. Qed.

Lemma signature_files_deleted_witness :
  ∃ fs',
    deleteSignatureRelatedFiles [] base_example = (Ok (), fs')
    ∧ stat fs' ([] ++ [lit "original"; lit "META-INF"])
      = Some (Dir (filter (λ e, isSignatureRelated e.1 = false)
                     metaInf_example))
    ∧ same_outside ([] ++ [lit "original"; lit "META-INF"]) base_example fs'.
Proof.
  apply (proj1 (proj2 signature_files_deleted) [] base_example metaInf_example);
    [reflexivity|].
  repeat constructor; simpl; eauto; discriminate.
Defined.

(** ** The request as a whole (C4, C5, C9) *)

#[local] Instance same_output_reflexive : Reflexive same_output.
Proof. by intros w. Qed.
#[local] Instance same_output_transitive : Transitive same_output.
Proof. intros a b c Hab Hbc. unfold same_output in *. congruence. Qed.

Section preserves_world.
Context (R : relation world) `{!Reflexive R, !Transitive R}.
Hypothesis R_workspace : ∀ w t, R w (set_workspace t w).
Hypothesis R_logged : ∀ w l,
  R w (World (input w) (workspace w) (output w) l).

Lemma preserves_try_catch {A} (c : M world A) (h : exn → M world A) :
  preserves R c → (∀ e, preserves R (h e)) → preserves R (try_catch c h).
Proof.
  intros Hc Hh w r w'. unfold try_catch.
  destruct (c w) as [[a|e] w1] eqn:E.
  - intros [= <- <-]. eapply Hc, E.
  - intros Hrun. etrans; [eapply Hc, E|eapply Hh, Hrun].
Qed.

Lemma preserves_in_workspace {A} (c : M node A) : preserves R (in_workspace c).
Proof.
  intros w r w'. unfold in_workspace.
  destruct (workspace w) as [t|]; [|by intros [= _ <-]].
  destruct (c t) as [r' t']. intros [= _ <-]. apply R_workspace.
Qed.

Lemma preserves_log msg : preserves R (log msg).
Proof. intros w r w' [= _ <-]. apply R_logged. Qed.

Lemma preserves_log_error msg e : preserves R (log_error msg e).
Proof. intros w r w' [= _ <-]. apply R_logged. Qed.

Lemma copyIntoWorkspace_preserves file : preserves R (copyIntoWorkspace file).
Proof.
  intros w r w'. unfold copyIntoWorkspace.
  destruct (input w) as [[d|es]|]; try by intros [= _ <-].
  destruct (lookup_entry file es) as [[d|es']|]; try by intros [= _ <-].
  apply preserves_in_workspace.
Qed.

Lemma prepareApkFiles_loop_preserves files :
  ∀ acc, preserves R (prepareApkFiles_loop files acc).
Proof.
  induction files as [|file files IH]; intros acc; simpl.
  - by apply preserves_ret.
  - apply preserves_bind; [apply _|apply copyIntoWorkspace_preserves|].
    intros _. apply IH.
Qed.

Lemma prepareApkFiles_preserves : preserves R prepareApkFiles.
Proof.
  intros w r w'. unfold prepareApkFiles.
  destruct (input w) as [[d|es]|]; try by intros [= _ <-].
  apply prepareApkFiles_loop_preserves.
Qed.

Variable env : environment.

Lemma unpackApk_preserves apkFile : preserves R (unpackApk env apkFile).
Proof.
  apply preserves_bind; [apply _|apply preserves_log|]. intros _.
  apply preserves_try_catch; [|intros e; by apply preserves_throw].
  apply preserves_bind; [apply _|apply preserves_in_workspace|].
  intros _. apply preserves_in_workspace.
Qed.

Lemma packApk_preserves apkDirName : preserves R (packApk env apkDirName).
Proof.
  apply preserves_bind; [apply _|apply preserves_log|]. intros _.
  apply preserves_bind; [apply _| |].
  { apply preserves_try_catch; [apply preserves_in_workspace|].
    intros e; by apply preserves_throw. }
  intros _. apply preserves_bind; [apply _|apply preserves_in_workspace|].
  intros entries. destruct (map fst entries) as [|builtApk ?].
  - by apply preserves_throw.
  - destruct (eqb builtApk []); [by apply preserves_throw|].
    apply preserves_in_workspace.
Qed.

Lemma zipalignApk_preserves apkPath : preserves R (zipalignApk env apkPath).
Proof.
  apply preserves_bind; [apply _|apply preserves_log|]. intros _.
  apply preserves_try_catch; [|intros e; by apply preserves_throw].
  apply preserves_bind; [apply _|apply preserves_in_workspace|].
  intros _. apply preserves_in_workspace.
Qed.

Lemma mergeApks_assemble_preserves : preserves R (mergeApks_assemble env).
Proof.
  apply preserves_bind; [apply _|apply prepareApkFiles_preserves|].
  intros [|first others]; [by apply preserves_throw|].
  apply preserves_bind; [apply _| |intros _].
  { apply preserves_for_of; [apply _..|]. intros f _.
    apply unpackApk_preserves. }
  apply preserves_bind; [apply _| |intros _].
  { apply preserves_for_of; [apply _..|]. intros f _.
    apply preserves_in_workspace. }
  apply preserves_bind; [apply _|apply preserves_in_workspace|intros _].
  apply preserves_bind; [apply _|apply preserves_in_workspace|intros _].
  by apply preserves_ret.
Qed.

Lemma mergeApks_stages_preserves : preserves R (mergeApks_stages env).
Proof.
  apply preserves_bind; [apply _|apply mergeApks_assemble_preserves|].
  intros mainApkDir.
  apply preserves_bind; [apply _|apply packApk_preserves|intros _].
  apply zipalignApk_preserves.
Qed.
End preserves_world.

Lemma mergeApks_stages_same_output env :
  preserves same_output (mergeApks_stages env).
Proof. by apply mergeApks_stages_preserves; try apply _. Qed.

Lemma mergeApks_fresh env inputPath outputPath w :
  workspace w = None →
  mergeApks env inputPath outputPath w
  = try_finally (mergeApks_try env outputPath) (rm_tmpDir env) (started env w).
Proof.
  intros Hws. unfold mergeApks, bind at 1, createTmpDir. by rewrite Hws.
Qed.

(** The three ways the [try ... catch] part can go. *)
Lemma mergeApks_try_cases env outputPath w0 :
  (∃ e w1,
     mergeApks_stages env w0 = (Throw e, w1)
     ∧ mergeApks_try env outputPath w0
       = (Throw e, add_log (LogError (lit "Error merging APKs") e) w1))
  ∨ (∃ e w1,
       mergeApks_stages env w0 = (Ok (), w1)
       ∧ copyToOutput w1 = (Throw e, w1)
       ∧ mergeApks_try env outputPath w0
         = (Throw e, add_log (LogError (lit "Error merging APKs") e) w1))
  ∨ (∃ w1 t d,
       mergeApks_stages env w0 = (Ok (), w1)
       ∧ workspace w1 = Some t
       ∧ stat t target_apk = Some (File d)
       ∧ mergeApks_try env outputPath w0
         = (Ok outputPath,
            add_log (Log (lit "Merged APK saved to: " ++ outputPath))
                    (set_output (Some (File d)) w1))).
Proof.
  unfold mergeApks_try, try_catch, bind, copyToOutput. fold target_apk.
  destruct (mergeApks_stages env w0) as [[[]|e] w1] eqn:Hst.
  - destruct (workspace w1) as [t|] eqn:Hws.
    + destruct (stat t target_apk) as [[d|es]|] eqn:Ht.
      * destruct (output w1) as [[d'|es']|] eqn:Ho.
        -- right; right. exists w1, t, d. rewrite ?Hws, ?Ht, ?Ho; split_and!; done || reflexivity.
        -- right; left. exists (SysError EISDIR), w1.
           rewrite ?Hws, ?Ht, ?Ho; split_and!; done || reflexivity.
        -- right; right. exists w1, t, d. rewrite ?Hws, ?Ht, ?Ho; split_and!; done || reflexivity.
      * right; left. exists (SysError EISDIR), w1.
        rewrite ?Hws, ?Ht, ?Ho; split_and!; done || reflexivity.
      * right; left. exists (SysError ENOENT), w1.
        rewrite ?Hws, ?Ht, ?Ho; split_and!; done || reflexivity.
    + right; left. exists (SysError ENOENT), w1.
      rewrite ?Hws, ?Ht, ?Ho; split_and!; done || reflexivity.
  - left. exists e, w1. split_and!; done || reflexivity.
Qed.

Lemma try_finally_rm_tmpDir {A} env (c : M world A) w0 r1 w1 :
  c w0 = (r1, w1) →
  try_finally c (rm_tmpDir env) w0
  = match workspace w1 with
    | None => (r1, w1)
    | Some t =>
        match rm_error env t with
        | None => (r1, set_workspace None w1)
        | Some e => (Throw e, w1)
        end
    end.
Proof.
  intros Hc. unfold try_finally, rm_tmpDir. rewrite Hc.
  destruct (workspace w1) as [t|]; [|done]. by destruct (rm_error env t).
Qed.

Lemma try_finally_rm_tmpDir_facts {A} env (c : M world A) w0 r1 w1 r w' :
  c w0 = (r1, w1) →
  try_finally c (rm_tmpDir env) w0 = (r, w') →
  output w' = output w1 ∧ logged w' = logged w1 ∧ input w' = input w1
  ∧ ((∀ t, workspace w1 = Some t → rm_error env t = None) →
     r = r1 ∧ workspace w' = None)
  ∧ (∀ t e, workspace w1 = Some t → rm_error env t = Some e →
            r = Throw e ∧ w' = w1).
Proof.
  intros Hc Hrun. rewrite (try_finally_rm_tmpDir _ _ _ _ _ Hc) in Hrun.
  destruct (workspace w1) as [t|] eqn:Hws.
  - destruct (rm_error env t) as [e|] eqn:Hrm; injection Hrun as <- <-.
    + split_and!; try done.
      * intros H. specialize (H t eq_refl). congruence.
      * intros t' e' [= <-] He. split; congruence.
    + split_and!; try done. intros t' e' [= <-] He. congruence.
  - injection Hrun as <- <-. split_and!; try done.
Qed.

(** C4, as the code has it. For a request with a fresh temporary directory:
    when a stage before the copy fails, the destination is left as it was, and
    the request fails with that stage's error if the workspace is then removed,
    with the removal's error if removing it fails too; and the destination
    differs after the request only if unpack, merge, sanitization, repack and
    align have all completed, in which case it holds the aligned archive. *)
Theorem output_only_after_all_stages (env : environment)
    (inputPath outputPath : jsstring) (w w' : world) (r : result jsstring) :
  workspace w = None →
  mergeApks env inputPath outputPath w = (r, w') →
  (∀ e w1,
     mergeApks_stages env (started env w) = (Throw e, w1) →
     output w' = output w
     ∧ ((∀ t, workspace w1 = Some t → rm_error env t = None) → r = Throw e)
     ∧ (∀ t e', workspace w1 = Some t → rm_error env t = Some e' →
                r = Throw e'))
  ∧ (output w' ≠ output w →
     ∃ w1 t d,
       mergeApks_stages env (started env w) = (Ok (), w1)
       ∧ workspace w1 = Some t
       ∧ stat t target_apk = Some (File d)
       ∧ output w' = Some (File d)).
Proof.
  intros Hws Hrun. rewrite mergeApks_fresh in Hrun by done.
  assert (output (started env w) = output w) as Hout0 by done.
  destruct (mergeApks_try_cases env outputPath (started env w))
    as [(e & w1 & Hst & Htry)|[(e & w1 & Hst & Hcp & Htry)
                              |(w1 & t & d & Hst & Ht & Hd & Htry)]];
    destruct (try_finally_rm_tmpDir_facts _ _ _ _ _ _ _ Htry Hrun)
      as (Hout & _ & _ & Hok & Hfail);
    pose proof (mergeApks_stages_same_output _ _ _ _ Hst) as Hso;
    unfold same_output in Hso; simpl in Hout, Hok, Hfail.
  - split.
    + intros e0 w2 Hst'. rewrite Hst in Hst'. injection Hst' as <- <-.
      split_and!; [congruence| |].
      * intros H. by apply Hok.
      * intros t e' Ht He. by eapply Hfail.
    + intros Hne. exfalso. apply Hne. congruence.
  - split.
    + intros e0 w2 Hst'. rewrite Hst in Hst'. done.
    + intros Hne. exfalso. apply Hne. congruence.
  - split.
    + intros e0 w2 Hst'. rewrite Hst in Hst'. done.
    + intros _. by exists w1, t, d.
Qed.


(** C9, as the code has it. The removal of the workspace in the [finally]
    block is neither guarded nor logged: when it fails, its error is the
    result of the request, in place of the output path of a merge that
    succeeded or of the error of a merge that failed, and the log is as the
    [try ... catch] part left it; when it succeeds, the result of the request
    is the result of the [try ... catch] part. *)
Theorem cleanup_failure_replaces_result (env : environment)
    (inputPath outputPath : jsstring) (w w' w1 : world)
    (r r1 : result jsstring) :
  workspace w = None →
  mergeApks_try env outputPath (started env w) = (r1, w1) →
  mergeApks env inputPath outputPath w = (r, w') →
  logged w' = logged w1
  ∧ ((∀ t, workspace w1 = Some t → rm_error env t = None) → r = r1)
  ∧ (∀ t e, workspace w1 = Some t → rm_error env t = Some e → r = Throw e).
Proof.
  intros Hws Htry Hrun. rewrite mergeApks_fresh in Hrun by done.
  destruct (try_finally_rm_tmpDir_facts _ _ _ _ _ _ _ Htry Hrun)
    as (_ & Hlog & _ & Hok & Hfail).
  split_and!; [done| |].
  - intros H. by apply Hok.
  - intros t e Ht He. by eapply Hfail.
Qed.

(** *** A request run end to end *)

Example mergeApks_example :
  let '(r, w') := mergeApks env_ok (lit "in") (lit "out.apk")
                    request_example in
  r = Ok (lit "out.apk")
  ∧ output w' = Some (File (lit "built aligned"))
  ∧ workspace w' = None.
Proof. vm_compute. done. Qed.

(** The base tree when the repack starts: both archives' content, the merged
    configuration, no signature file, the sanitized manifest. *)
Example mergeApks_assemble_example :
  (λ w, workspace w ≫= (λ t, stat t [lit "base"]))
    (mergeApks_assemble env_ok
       (started env_ok request_example)).2
  = Some (Dir
      [(lit "AndroidManifest.xml",
        File (updateMainManifestFile_data manifest_example));
       (lit "apktool.yml",
        File (join_nl (map lit ["version: 2"; "doNotCompress:"; "- res/a.so";
                                "- res/b.so"; "- res/c.so";
                                "isFrameworkApk: false"]%string)));
       (lit "res", Dir [(lit "icon.png", File (lit "PNG"))]);
       (lit "original",
        Dir [(lit "META-INF",
              Dir [(lit "services", Dir []);
                   (lit "kotlin.kotlin_module", File (lit "k"))])]);
       (lit "lib", Dir [(lit "arm64", Dir [(lit "libx.so", File (lit "ELF"))])])]).
Proof. vm_compute. reflexivity. Qed.

Lemma output_only_after_all_stages_witness :
  (∀ e w1,
     mergeApks_stages env_ok
       (started env_ok request_example) = (Throw e, w1) →
     output (mergeApks env_ok (lit "in") (lit "out.apk")
               request_example).2 = output request_example
     ∧ ((∀ t, workspace w1 = Some t → rm_error env_ok t = None) →
        (mergeApks env_ok (lit "in") (lit "out.apk")
           request_example).1 = Throw e)
     ∧ (∀ t e', workspace w1 = Some t → rm_error env_ok t = Some e' →
          (mergeApks env_ok (lit "in") (lit "out.apk")
             request_example).1 = Throw e'))
  ∧ (output (mergeApks env_ok (lit "in") (lit "out.apk")
               request_example).2 ≠ output request_example →
     ∃ w1 t d,
       mergeApks_stages env_ok
         (started env_ok request_example) = (Ok (), w1)
       ∧ workspace w1 = Some t
       ∧ stat t target_apk = Some (File d)
       ∧ output (mergeApks env_ok (lit "in") (lit "out.apk")
                   request_example).2 = Some (File d)).
Proof.
  apply (output_only_after_all_stages env_ok (lit "in")
           (lit "out.apk") request_example);
    [reflexivity|apply surjective_pairing].
Defined.


Lemma cleanup_failure_replaces_result_witness :
  logged (mergeApks env_refusing (lit "in") (lit "out.apk")
            request_example).2
  = logged (mergeApks_try env_refusing (lit "out.apk")
              (started env_refusing request_example)).2
  ∧ ((∀ t, workspace (mergeApks_try env_refusing (lit "out.apk")
                         (started env_refusing request_example)).2
           = Some t → rm_error env_refusing t = None) →
     (mergeApks env_refusing (lit "in") (lit "out.apk")
        request_example).1
     = (mergeApks_try env_refusing (lit "out.apk")
          (started env_refusing request_example)).1)
  ∧ (∀ t e, workspace (mergeApks_try env_refusing (lit "out.apk")
                         (started env_refusing request_example)).2
            = Some t → rm_error env_refusing t = Some e →
       (mergeApks env_refusing (lit "in") (lit "out.apk")
          request_example).1 = Throw e).
Proof.
  apply (cleanup_failure_replaces_result env_refusing (lit "in")
           (lit "out.apk") request_example);
    [reflexivity|apply surjective_pairing..].
Defined.

(** C4 as stated fails: the stage that reads the input fails with ENOENT, the
    removal of the workspace is refused, and the request ends with the
    removal's error, not with the error of the stage. *)
Lemma stage_error_replaced :
  (mergeApks_stages env_refusing
     (started env_refusing request_without_input)).1
  = Throw (SysError ENOENT)
  ∧ (mergeApks env_refusing (lit "in") (lit "out.apk")
       request_without_input).1
    = Throw (SysError EPERM).
Proof. vm_compute. done. Qed.

(** C9 as stated fails: the merge succeeds and would return the output path,
    the removal of the workspace is refused, and the request ends with the
    removal's error, about which nothing is logged. *)
Lemma cleanup_failure_masks_success :
  (mergeApks_try env_refusing (lit "out.apk")
     (started env_refusing request_example)).1
  = Ok (lit "out.apk")
  ∧ (mergeApks env_refusing (lit "in") (lit "out.apk")
       request_example).1
    = Throw (SysError EPERM)
  ∧ logged (mergeApks env_refusing (lit "in") (lit "out.apk")
              request_example).2
    = logged (mergeApks_try env_refusing (lit "out.apk")
                (started env_refusing request_example)).2.
Proof. vm_compute. done. Qed.

(** ** Tree Merger: what a merge carries over, and where it writes *)

Lemma stat_app fs p q : stat fs (p ++ q) = stat fs p ≫= λ n, stat n q.
Proof.
  revert fs. induction p as [|name p IH]; intros [d|es]; simpl; try done.
  destruct (lookup_entry name es); [apply IH|done].
Qed.

Lemma apart_siblings dst n name q :
  n ≠ name → apart (dst ++ [n]) (dst ++ name :: q).
Proof.
  intros Hn. apply apart_app. split; intros [k Hk]; simplify_eq/=.
Qed.

(** [mkdir] with [recursive] makes nothing but the directories on the way. *)
Lemma mkdir_p_fresh p : ∀ fs fs',
  mkdir_p fs p = inr fs' →
  ∀ q, stat fs q = None → stat fs' q = None ∨ q `prefix_of` p.
Proof.
  induction p as [|name p IH]; intros [d0|es] fs'; simpl; try done.
  - intros [= <-] q Hq. by left.
  - intros Hm [|k q]; [done|]. simpl.
    destruct (lookup_entry name es) as [c|] eqn:Hl.
    + destruct (mkdir_p c p) as [|c'] eqn:Hc; [done|].
      injection Hm as <-. simpl. rewrite lookup_set_entry.
      destruct (eqb k name) eqn:Hk.
      * apply eqb_eq in Hk as ->. rewrite Hl. simpl. intros Hq.
        destruct (IH _ _ Hc _ Hq) as [->|Hpre]; [by left|right].
        by apply prefix_cons.
      * intros Hq. by left.
    + destruct (mkdir_p (Dir []) p) as [|c'] eqn:Hc; [done|].
      injection Hm as <-. simpl. rewrite lookup_entry_app.
      destruct (lookup_entry k es) as [x|] eqn:Hk; [intros Hq; by left|].
      intros _. simpl. destruct (eqb name k) eqn:Hnk; [|by left].
      apply eqb_eq in Hnk as <-. destruct q as [|k' q].
      * right. apply prefix_cons, prefix_nil.
      * destruct (IH _ _ Hc (k' :: q)) as [->|Hpre]; [done|by left|right].
        by apply prefix_cons.
Qed.

Lemma mkdir_if_absent_fresh dst fs fs1 name q :
  (if negb (existsSync fs dst) then mkdir dst fs else (Ok (), fs))
  = (Ok (), fs1) →
  stat fs (dst ++ name :: q) = None → stat fs1 (dst ++ name :: q) = None.
Proof.
  destruct (existsSync fs dst); simpl.
  - by intros [= <-].
  - unfold mkdir, attempt. destruct (mkdir_p fs dst) as [|s1] eqn:Hm; [done|].
    intros [= <-] Hq. destruct (mkdir_p_fresh _ _ _ Hm _ Hq) as [|Hpre]; [done|].
    apply prefix_length in Hpre. rewrite length_app in Hpre. simpl in Hpre. lia.
Qed.

Lemma mkdir_if_absent_there dst fs fs1 :
  (if negb (existsSync fs dst) then mkdir dst fs else (Ok (), fs))
  = (Ok (), fs1) →
  is_Some (stat fs1 dst) ∧ extends fs fs1.
Proof.
  destruct (existsSync fs dst) eqn:E; simpl.
  - intros [= <-]. split; [by apply existsSync_true|reflexivity].
  - unfold mkdir, attempt. destruct (mkdir_p fs dst) as [|s1] eqn:Hm; [done|].
    intros [= <-]. split; [|by eapply mkdir_p_extends].
    apply mkdir_p_stat in Hm as [es ->]. by eexists.
Qed.

Lemma mergeEntry_same_outside dst e :
  preserves (same_outside (dst ++ [e.1])) (mergeEntry mergeDirContents dst e).
Proof.
  destruct e as [name [d|es]]; unfold mergeEntry; cbn [fst snd].
  - intros fs r fs'. destruct (existsSync fs (dst ++ [name])); simpl.
    + intros [= _ <-]. reflexivity.
    + unfold writeFile, attempt.
      destruct (write_at fs (dst ++ [name]) d) as [c|s1] eqn:W;
        intros [= _ <-]; [reflexivity|].
      by eapply write_at_same_outside.
  - apply mergeDirContents_same_outside.
Qed.

Lemma mergeDirContents_Ok_inv src dst fs fs' :
  mergeDirContents src dst fs = (Ok (), fs') →
  ∃ es fs1,
    src = Dir es
    ∧ (if negb (existsSync fs dst) then mkdir dst fs else (Ok (), fs))
      = (Ok (), fs1)
    ∧ mergeEntries mergeDirContents dst es fs1 = (Ok (), fs').
Proof.
  rewrite mergeDirContents_unfold. intros Hrun.
  apply bind_Ok_inv in Hrun as ([] & fs1 & Hmk & Hrest).
  destruct src as [d|es]; [done|]. by exists es, fs1.
Qed.

(** Every path of the source names something below [dst] once the merge has
    completed. *)
Lemma mergeDirContents_covers src : ∀ dst fs fs',
  mergeDirContents src dst fs = (Ok (), fs') →
  ∀ p, is_Some (stat src p) → is_Some (stat fs' (dst ++ p)).
Proof.
  induction src as [d|es IH] using node_ind; intros dst fs fs' Hrun;
    apply mergeDirContents_Ok_inv in Hrun as (es0 & fs1 & Hsrc & Hmk & Hrun);
    [done|]. injection Hsrc as <-.
  apply mkdir_if_absent_there in Hmk as [Hdst _].
  intros [|name p].
  { intros _. rewrite app_nil_r.
    eapply extends_grows; [eapply mergeEntries_extends, Hrun|done]. }
  simpl. clear Hdst fs. revert fs1 fs' Hrun.
  induction IH as [|[k c] es Hc _ IHes]; intros fs1 fs'; simpl.
  { intros _ []; done. }
  intros Hrun. apply bind_Ok_inv in Hrun as ([] & fs2 & Hstep & Hrest).
  destruct (eqb k name) eqn:Hk; [|by eapply IHes].
  apply eqb_eq in Hk as ->. intros Hp.
  eapply extends_grows; [eapply mergeEntries_extends, Hrest|].
  unfold mergeEntry in Hstep; cbn [fst snd] in Hstep.
  destruct c as [d|es'].
  - destruct p; [|by destruct Hp].
    destruct (existsSync fs1 (dst ++ [name])) eqn:E; simpl in Hstep.
    + injection Hstep as <-. by apply existsSync_true.
    + unfold writeFile, attempt in Hstep.
      destruct (write_at fs1 (dst ++ [name]) d) as [|s1] eqn:W; [done|].
      injection Hstep as <-. apply write_at_stat in W. rewrite W. by eexists.
  - rewrite (cons_middle name dst p), (assoc_L (++)).
    eapply Hc; eauto.
Qed.

(** A file of the source whose place below [dst] was free is there, with the
    source's text, once the merge has completed. *)
Lemma mergeDirContents_copies src : ∀ dst fs fs',
  mergeDirContents src dst fs = (Ok (), fs') →
  ∀ p d, stat src p = Some (File d) → stat fs (dst ++ p) = None →
         stat fs' (dst ++ p) = Some (File d).
Proof.
  induction src as [d0|es IH] using node_ind; intros dst fs fs' Hrun;
    apply mergeDirContents_Ok_inv in Hrun as (es0 & fs1 & Hsrc & Hmk & Hrun);
    [done|]. injection Hsrc as <-.
  intros [|name p] d; [done|]. simpl. intros Hp Hfree.
  apply (mkdir_if_absent_fresh _ _ _ _ _ Hmk) in Hfree.
  clear Hmk fs. revert fs1 fs' Hrun Hp Hfree.
  induction IH as [|[k c] es Hc _ IHes]; intros fs1 fs'; simpl; [done|].
  intros Hrun. apply bind_Ok_inv in Hrun as ([] & fs2 & Hstep & Hrest).
  destruct (eqb k name) eqn:Hk.
  - apply eqb_eq in Hk as ->. intros Hp Hfree.
    eapply extends_file; [eapply mergeEntries_extends, Hrest|].
    unfold mergeEntry in Hstep; cbn [fst snd] in Hstep.
    destruct c as [d1|es'].
    + destruct p; [|done]. injection Hp as ->.
      apply existsSync_false in Hfree. rewrite Hfree in Hstep. simpl in Hstep.
      unfold writeFile, attempt in Hstep.
      destruct (write_at fs1 (dst ++ [name]) d) as [|s1] eqn:W; [done|].
      injection Hstep as <-. by apply write_at_stat in W.
    + rewrite (cons_middle name dst p), (assoc_L (++)).
      eapply Hc; eauto. by rewrite <-(assoc_L (++)).
  - intros Hp Hfree. eapply IHes; eauto.
    rewrite <-Hfree. eapply mergeEntry_same_outside; [exact Hstep|].
    cbn [fst]. apply apart_siblings. intros ->. by rewrite eqb_refl in Hk.
Qed.

(** X1. When [mergeDirContents] has completed, every path of the secondary
    subtree names something below the destination, and every file of the
    secondary whose place in the base was free is there with the secondary's
    text. *)
Theorem mergeDirContents_carries_over (src : node) (dst : path)
    (fs fs' : node) :
  mergeDirContents src dst fs = (Ok (), fs') →
  (∀ p, is_Some (stat src p) → is_Some (stat fs' (dst ++ p)))
  ∧ (∀ p d, stat src p = Some (File d) → stat fs (dst ++ p) = None →
            stat fs' (dst ++ p) = Some (File d)).
Proof.
  intros Hrun. split.
  - by eapply mergeDirContents_covers.
  - by eapply mergeDirContents_copies.
Qed.

Lemma mergeDirContents_carries_over_witness :
  stat (mergeDirContents split_lib_example [lit "base"; lit "lib"]
          ws_example).2
       ([lit "base"; lit "lib"] ++ [lit "arm64"; lit "libx.so"])
  = Some (File (lit "ELF")).
Proof.
  eapply (proj2 (mergeDirContents_carries_over split_lib_example
                   [lit "base"; lit "lib"] ws_example _ eq_refl)).
  - reflexivity.
  - reflexivity.
Defined.

(** X2. Of two secondary subtrees merged one after the other into the same
    destination, the first wins: a file it brought to a free place keeps its
    text whatever the second subtree holds at that path and whatever the
    outcome of the second merge. *)
Theorem mergeDirContents_first_wins (srcA srcB : node) (dst : path)
    (fs fs1 fs2 : node) (r : result ()) (p : path) (d : jsstring) :
  mergeDirContents srcA dst fs = (Ok (), fs1) →
  mergeDirContents srcB dst fs1 = (r, fs2) →
  stat srcA p = Some (File d) →
  stat fs (dst ++ p) = None →
  stat fs2 (dst ++ p) = Some (File d).
Proof.
  intros HA HB Hp Hfree.
  eapply extends_file; [eapply mergeDirContents_extends, HB|].
  by eapply mergeDirContents_copies.
Qed.

Lemma mergeDirContents_first_wins_witness :
  stat (mergeDirContents split_res_other [lit "base"; lit "res"]
          (mergeDirContents split_res_example [lit "base"; lit "res"]
             ws_example).2).2
       ([lit "base"; lit "res"] ++ [lit "y"])
  = Some (File (lit "first")).
Proof.
  eapply (mergeDirContents_first_wins split_res_example split_res_other
            [lit "base"; lit "res"] ws_example _ _ _ [lit "y"]).
  - reflexivity.
  - apply surjective_pairing.
  - reflexivity.
  - reflexivity.
Defined.

(** *** What a merge creates *)

Lemma distinct_names_Dir es :
  distinct_names (Dir es)
  ↔ NoDup (map fst es) ∧ Forall (λ e, distinct_names e.2) es.
Proof.
  simpl. apply and_iff_compat_l.
  induction es as [|[k c] es IH]; simpl.
  - split; [constructor|done].
  - rewrite Forall_cons, IH. done.
Qed.

Lemma lookup_entry_NoDup name c es :
  NoDup (map fst es) → (name, c) ∈ es → lookup_entry name es = Some c.
Proof.
  induction es as [|[k x] es IH]; simpl; intros Hnd Hin.
  { by apply elem_of_nil in Hin. }
  apply NoDup_cons in Hnd as [Hk Hnd].
  apply elem_of_cons in Hin as [[= -> ->]|Hin]; [by rewrite eqb_refl|].
  destruct (eqb k name) eqn:E; [|by apply IH].
  apply eqb_eq in E as ->. destruct Hk.
  by apply (list_elem_of_fmap_2 fst _ (name, c)).
Qed.

Lemma prefix_snoc_cases (q l : path) x :
  q `prefix_of` l ++ [x] → q = l ++ [x] ∨ q `prefix_of` l.
Proof.
  intros [r Hr]. destruct r as [|y r _] using rev_ind.
  - left. by rewrite app_nil_r in Hr.
  - right. rewrite (assoc_L (++)) in Hr.
    apply app_inj_tail in Hr as [-> _]. by exists r.
Qed.

Lemma stat_prefix fs p q :
  q `prefix_of` p → is_Some (stat fs p) → is_Some (stat fs q).
Proof.
  intros [k ->]. rewrite stat_app. destruct (stat fs q); [by eexists|].
  by intros [? ?].
Qed.

(** [writeFile] on a free path makes nothing but the file. *)
Lemma write_at_fresh p d : ∀ fs fs',
  write_at fs p d = inr fs' →
  ∀ q, stat fs q = None → is_Some (stat fs' q) → q = p.
Proof.
  induction p as [|name p IH]; intros [d0|es] fs'; simpl; try done.
  - intros [= <-] [|k q]; [done|]. by intros _ [].
  - intros Hw [|k q]; [done|]. simpl.
    destruct (lookup_entry name es) as [c|] eqn:Hl.
    + destruct (write_at c p d) as [|c'] eqn:Hc; [done|].
      injection Hw as <-. simpl. rewrite lookup_set_entry.
      destruct (eqb k name) eqn:Hk.
      * apply eqb_eq in Hk as ->. rewrite Hl. simpl. intros Hq Hq'.
        f_equal. by eapply IH.
      * intros ->. by intros [].
    + destruct p; [|done]. injection Hw as <-. simpl.
      rewrite lookup_entry_app.
      destruct (lookup_entry k es) as [x|] eqn:Hk.
      { intros ->. by intros []. }
      intros _. simpl. destruct (eqb name k) eqn:Hnk; [|by intros []].
      apply eqb_eq in Hnk as <-. destruct q; [done|]. by intros [].
Qed.

Lemma mkdir_if_absent_creates dst fs r fs1 q :
  (if negb (existsSync fs dst) then mkdir dst fs else (Ok (), fs)) = (r, fs1) →
  stat fs q = None → stat fs1 q = None ∨ q `prefix_of` dst.
Proof.
  destruct (existsSync fs dst); simpl.
  - intros [= _ <-]. by left.
  - unfold mkdir, attempt. destruct (mkdir_p fs dst) as [|s1] eqn:Hm.
    + intros [= _ <-]. by left.
    + intros [= _ <-]. by eapply mkdir_p_fresh.
Qed.

Lemma mergeDirContents_creates src : ∀ dst fs r fs',
  distinct_names src →
  mergeDirContents src dst fs = (r, fs') →
  ∀ q, stat fs q = None → is_Some (stat fs' q) →
       q `prefix_of` dst ∨ ∃ p, q = dst ++ p ∧ is_Some (stat src p).
Proof.
  induction src as [d0|es IH] using node_ind; intros dst fs r fs' Hwf Hrun q;
    rewrite mergeDirContents_unfold in Hrun; unfold bind at 1 in Hrun;
    destruct (if negb _ then _ else _) as [[[]|e] fs1] eqn:Hmk in Hrun.
  - injection Hrun as <- <-. intros Hq Hq'.
    destruct (mkdir_if_absent_creates _ _ _ _ _ Hmk Hq) as [Hn|]; [|by left].
    rewrite Hn in Hq'. by destruct Hq'.
  - injection Hrun as <- <-. intros Hq Hq'.
    destruct (mkdir_if_absent_creates _ _ _ _ _ Hmk Hq) as [Hn|]; [|by left].
    rewrite Hn in Hq'. by destruct Hq'.
  - intros Hq Hq'.
    destruct (mkdir_if_absent_creates _ _ _ _ _ Hmk Hq) as [Hq1|]; [|by left].
    right. apply mkdir_if_absent_there in Hmk as [Hdst _].
    apply distinct_names_Dir in Hwf as [Hnd Hwf].
    assert (∃ name c p, (name, c) ∈ es ∧ q = dst ++ name :: p
                        ∧ is_Some (stat c p)) as (name & c & p & Hin & -> & Hp).
    { clear Hnd Hq fs. revert fs1 fs' Hrun Hdst Hq1 Hq'.
      induction IH as [|[k c] es Hc _ IHes]; intros fs1 fs'; simpl.
      { intros [= _ <-] _ -> []; done. }
      apply Forall_cons in Hwf as [Hwfc Hwf]. unfold bind at 1.
      destruct (mergeEntry mergeDirContents dst (k, c) fs1)
        as [r1 fs2] eqn:Hstep.
      intros Hrest Hdst Hq1 Hq'.
      assert (is_Some (stat fs2 dst)) as Hdst2.
      { eapply extends_grows; [eapply mergeEntry_extends, Hstep|done]. }
      destruct (stat fs2 q) as [n|] eqn:Hq2.
      - exists k, c. unfold mergeEntry in Hstep; cbn [fst snd] in Hstep.
        destruct c as [d|es'].
        + destruct (existsSync fs1 (dst ++ [k])); simpl in Hstep.
          { injection Hstep as _ <-. congruence. }
          unfold writeFile, attempt in Hstep.
          destruct (write_at fs1 (dst ++ [k]) d) as [|s1] eqn:W;
            injection Hstep as _ <-; [congruence|].
          exists []. split_and!; [by left| |by eexists].
          eapply write_at_fresh; eauto; by rewrite Hq2.
        + destruct (Hc (dst ++ [k]) fs1 r1 fs2 Hwfc Hstep q Hq1)
            as [Hpre|(p & -> & Hp)]; [by rewrite Hq2| |].
          * apply prefix_snoc_cases in Hpre as [->|Hpre].
            { exists []. split_and!; [by left|done|by eexists]. }
            pose proof (stat_prefix _ _ _ Hpre Hdst) as [? ?]. congruence.
          * exists p. split_and!; [by left| |done].
            by rewrite <-(assoc_L (++)).
      - destruct r1 as [[]|e1].
        + destruct (IHes Hwf fs2 fs' Hrest Hdst2 Hq2 Hq')
            as (name & c' & p & Hin & -> & Hp).
          exists name, c', p. split_and!; [by right|done..].
        + injection Hrest as _ <-. rewrite Hq2 in Hq'. by destruct Hq'. }
    exists (name :: p). split; [done|]. simpl.
    by rewrite (lookup_entry_NoDup name c es).
  - injection Hrun as <- <-. intros Hq Hq'.
    destruct (mkdir_if_absent_creates _ _ _ _ _ Hmk Hq) as [Hn|]; [|by left].
    rewrite Hn in Hq'. by destruct Hq'.
Qed.

(** X3. Whatever its outcome, [mergeDirContents] creates nothing that the
    secondary subtree does not hold: for a secondary none of whose
    directories lists a name twice, a path that names something after the
    merge and named nothing before is the destination or a directory on the
    way to it, or lies below the destination where the secondary has an
    entry. *)
Theorem mergeDirContents_creates_only_from_source (src : node) (dst : path)
    (fs fs' : node) (r : result ()) (q : path) :
  distinct_names src →
  mergeDirContents src dst fs = (r, fs') →
  stat fs q = None → is_Some (stat fs' q) →
  q `prefix_of` dst ∨ ∃ p, q = dst ++ p ∧ is_Some (stat src p).
Proof. intros Hwf Hrun. by eapply mergeDirContents_creates. Qed.

Lemma mergeDirContents_creates_only_from_source_witness :
  [lit "base"; lit "lib"; lit "arm64"] `prefix_of` [lit "base"; lit "lib"]
  ∨ ∃ p, [lit "base"; lit "lib"; lit "arm64"] = [lit "base"; lit "lib"] ++ p
         ∧ is_Some (stat split_lib_example p).
Proof.
  apply (mergeDirContents_creates_only_from_source split_lib_example
           [lit "base"; lit "lib"] ws_example
           (mergeDirContents split_lib_example [lit "base"; lit "lib"]
              ws_example).2
           (mergeDirContents split_lib_example [lit "base"; lit "lib"]
              ws_example).1).
  - apply distinct_names_Dir. split; [by apply (bool_decide_unpack _)|].
    repeat constructor; simpl; try by apply (bool_decide_unpack _).
  - apply surjective_pairing.
  - reflexivity.
  - vm_compute. by eexists.
Defined.

#[local] Instance merge_frame_reflexive mainDir : Reflexive (merge_frame mainDir).
Proof. by intros fs q. Qed.
#[local] Instance merge_frame_transitive mainDir :
  Transitive (merge_frame mainDir).
Proof. intros a b c Hab Hbc q Hq. rewrite Hbc by done. by apply Hab. Qed.

Lemma same_outside_merge_frame mainDir name fs fs' :
  name ∈ dirsToMerge ++ [CONST_APK_FILE_APKTOOL_CONFIG] →
  same_outside (mainDir ++ [name]) fs fs' → merge_frame mainDir fs fs'.
Proof.
  intros Hin Hso q Hq. apply Hso.
  rewrite Forall_forall in Hq. by apply Hq.
Qed.

Lemma mergeApktoolYml_same_outside src dst :
  preserves (same_outside dst) (mergeApktoolYml src dst).
Proof.
  intros fs r fs'. unfold mergeApktoolYml, bind, readFile.
  destruct (stat fs src) as [[sc|]|]; try by intros [= _ <-].
  destruct (stat fs dst) as [[dc|]|]; try by intros [= _ <-].
  destruct (mergeApktoolYml_content sc dc) as [text|].
  - unfold writeFile, attempt.
    destruct (write_at fs dst text) as [|s1] eqn:W; intros [= _ <-];
      [reflexivity|by eapply write_at_same_outside].
  - by intros [= _ <-].
Qed.

Lemma mergeApkContents_merge_frame mainDir secDir :
  preserves (merge_frame mainDir) (mergeApkContents mainDir secDir).
Proof.
  unfold mergeApkContents. apply preserves_bind; [apply _|..].
  - apply preserves_for_of; [apply _..|].
    intros dir Hdir fs r fs'. simpl. destruct (stat fs (secDir ++ [dir])).
    + intros H. eapply (same_outside_merge_frame _ dir).
      * apply elem_of_app. by left.
      * eapply mergeDirContents_same_outside, H.
    + intros [= _ <-]. reflexivity.
  - intros _ fs r fs'. destruct (_ && _).
    + intros H.
      eapply (same_outside_merge_frame _ CONST_APK_FILE_APKTOOL_CONFIG).
      * apply elem_of_app. right. by apply list_elem_of_singleton.
      * eapply mergeApktoolYml_same_outside, H.
    + intros [= _ <-]. reflexivity.
Qed.

(** X4. Whatever its outcome, [mergeApkContents] changes nothing outside the
    base tree's [assets], [lib], [res], [unknown], [kotlin] and [apktool.yml]:
    any other entry of the base tree (its manifest, its code, ...) is as it
    was, so nothing of the secondary under another name is carried over; and
    a path away from the base tree, the secondary tree for one, is
    untouched. *)
Theorem mergeApkContents_writes_only_merged_places (mainDir secDir : path)
    (fs fs' : node) (r : result ()) :
  mergeApkContents mainDir secDir fs = (r, fs') →
  (∀ name rest,
     name ∉ dirsToMerge → name ≠ CONST_APK_FILE_APKTOOL_CONFIG →
     stat fs' (mainDir ++ name :: rest) = stat fs (mainDir ++ name :: rest))
  ∧ (∀ q, apart mainDir q → stat fs' q = stat fs q).
Proof.
  intros Hrun. apply mergeApkContents_merge_frame in Hrun. split.
  - intros name rest Hname Hcfg. apply Hrun, Forall_forall.
    intros k Hk. apply apart_siblings. intros ->.
    apply elem_of_app in Hk as [Hk|Hk]; [done|].
    by apply list_elem_of_singleton in Hk.
  - intros q Hq. apply Hrun, Forall_forall. intros k _. by apply apart_snoc.
Qed.

Lemma mergeApkContents_writes_only_merged_places_witness :
  stat (mergeApkContents [lit "base"] [lit "split"] ws_example_dex).2
       ([lit "base"] ++ [lit "classes.dex"])
  = stat ws_example_dex ([lit "base"] ++ [lit "classes.dex"]).
Proof.
  refine (proj1 (mergeApkContents_writes_only_merged_places
                   [lit "base"] [lit "split"] ws_example_dex _ _
                   (surjective_pairing _)) (lit "classes.dex") [] _ _).
  - vm_compute. intros H. repeat (apply elem_of_cons in H as [H|H]; [done|]).
    by apply elem_of_nil in H.
  - done.
Defined.

Lemma for_of_dirs_carry (mainDir secDir : path) (dirs : list jsstring) :
  apart mainDir secDir → NoDup dirs →
  ∀ fs fs',
    for_of dirs (λ dir fs,
      match stat fs (secDir ++ [dir]) with
      | Some n => mergeDirContents n (mainDir ++ [dir]) fs
      | None => (Ok (), fs)
      end) fs = (Ok (), fs') →
    ∀ dir p d, dir ∈ dirs →
      stat fs (secDir ++ dir :: p) = Some (File d) →
      stat fs (mainDir ++ dir :: p) = None →
      stat fs' (mainDir ++ dir :: p) = Some (File d).
Proof.
  intros Hapart. induction dirs as [|k dirs IH]; intros Hnd fs fs' Hrun dir p d.
  { intros []%elem_of_nil. }
  apply NoDup_cons in Hnd as [Hk Hnd].
  simpl in Hrun. apply bind_Ok_inv in Hrun as ([] & fs1 & Hstep & Hrest).
  intros Hdir Hsrc Hfree.
  destruct (decide (dir = k)) as [->|Hne].
  - eapply (extends_file fs1).
    { revert Hrest. apply preserves_for_of; [apply _..|].
      intros k' _ fs0 r fs0'. simpl. destruct (stat fs0 (secDir ++ [k'])).
      - apply mergeDirContents_extends.
      - intros [= _ <-]. reflexivity. }
    rewrite (cons_middle k secDir p), (assoc_L (++)), stat_app in Hsrc.
    destruct (stat fs (secDir ++ [k])) as [n|]; [|done]. simpl in Hsrc.
    rewrite (cons_middle k mainDir p), (assoc_L (++)).
    eapply mergeDirContents_copies; eauto.
    by rewrite <-(assoc_L (++)).
  - apply elem_of_cons in Hdir as [?|Hdir]; [done|].
    assert (same_outside (mainDir ++ [k]) fs fs1) as Hout.
    { destruct (stat fs (secDir ++ [k])) as [n|].
      - by eapply mergeDirContents_same_outside.
      - injection Hstep as <-. reflexivity. }
    eapply IH; eauto.
    + rewrite <-Hsrc. apply Hout. by apply apart_snoc, apart_under.
    + rewrite <-Hfree. apply Hout. apply apart_siblings. congruence.
Qed.

(** X5. When [mergeApkContents] has completed, for a base and a secondary
    tree that are different directories, every file of the secondary's
    [assets], [lib], [res], [unknown] and [kotlin] subtrees whose place in
    the base was free is in the base, with the secondary's text. *)
Theorem mergeApkContents_carries_subtrees (mainDir secDir : path)
    (fs fs' : node) :
  apart mainDir secDir →
  mergeApkContents mainDir secDir fs = (Ok (), fs') →
  ∀ dir p d, dir ∈ dirsToMerge →
    stat fs (secDir ++ dir :: p) = Some (File d) →
    stat fs (mainDir ++ dir :: p) = None →
    stat fs' (mainDir ++ dir :: p) = Some (File d).
Proof.
  intros Hapart Hrun dir p d Hdir Hsrc Hfree.
  unfold mergeApkContents in Hrun.
  apply bind_Ok_inv in Hrun as ([] & fs1 & Hdirs & Hcfg).
  assert (same_outside (mainDir ++ [CONST_APK_FILE_APKTOOL_CONFIG]) fs1 fs')
    as Hout.
  { destruct (_ && _) in Hcfg.
    - by eapply mergeApktoolYml_same_outside.
    - injection Hcfg as <-. reflexivity. }
  rewrite Hout.
  - eapply (for_of_dirs_carry mainDir secDir dirsToMerge); eauto.
    by apply (bool_decide_unpack _).
  - apply apart_siblings. intros <-. revert Hdir.
    by apply (bool_decide_unpack _).
Qed.

Lemma mergeApkContents_carries_subtrees_witness :
  stat (mergeApkContents [lit "base"] [lit "split_config.arm64"]
          ws_example).2
       ([lit "base"] ++ lit "lib" :: [lit "arm64"; lit "libx.so"])
  = Some (File (lit "ELF")).
Proof.
  apply (mergeApkContents_carries_subtrees [lit "base"]
           [lit "split_config.arm64"] ws_example).
  - split; intros [k Hk]; discriminate Hk.
  - vm_compute. reflexivity.
  - by apply (bool_decide_unpack _).
  - reflexivity.
  - reflexivity.
Defined.

(** ** Config Block Merger: edges, layout and order of the merges *)

Lemma mergeApktoolYml_text_no_items srcContent dstContent :
  getDoNotCompressLines (split_nl srcContent) = [] →
  mergeApktoolYml_text srcContent dstContent = dstContent.
Proof.
  intros Hsrc. unfold mergeApktoolYml_text.
  destruct (mergeApktoolYml_content_cases srcContent dstContent)
    as [[_ ->]|[(? & _)|(? & _)]]; done.
Qed.

Lemma mergeApktoolYml_text_no_range srcContent dstContent :
  lines (getDoNotCompressRange (split_nl dstContent)) = [] →
  mergeApktoolYml_text srcContent dstContent = dstContent.
Proof.
  intros Hdst. unfold mergeApktoolYml_text.
  destruct (mergeApktoolYml_content_cases srcContent dstContent)
    as [[_ ->]|[(_ & _ & ->)|(_ & a & mid & c & _ & _ & _ & Hh & Hf & _)]];
    [done..|].
  rewrite Hdst in Hf. destruct Hh as (x & Hx & Hix).
  destruct mid as [|x' mid]; [done|]. injection Hx as ->.
  by rewrite filter_cons_True in Hf.
Qed.

Lemma mergeApktoolYml_text_spliced srcContent dstContent a mid c :
  getDoNotCompressLines (split_nl srcContent) ≠ [] →
  split_nl dstContent = a ++ mid ++ c →
  startIndex (getDoNotCompressRange (split_nl dstContent))
  = Z.of_nat (length a) →
  endIndex (getDoNotCompressRange (split_nl dstContent))
  = Z.of_nat (length a + length mid) - 1 →
  mid ≠ [] →
  mergeApktoolYml_text srcContent dstContent
  = join_nl (a ++ sort (arrayFromSet
               (lines (getDoNotCompressRange (split_nl dstContent))
                ++ getDoNotCompressLines (split_nl srcContent))) ++ c).
Proof.
  intros Hsrc Hls Hs He Hmid.
  unfold mergeApktoolYml_text, mergeApktoolYml_content; cbv zeta.
  rewrite bool_decide_eq_false_2
    by (intros H0; by apply nil_length_inv in H0).
  rewrite Hs, He.
  assert ((Z.of_nat (length a) =? -1) = false) as ->
    by (apply Z.eqb_neq; lia).
  assert ((Z.of_nat (length a + length mid) - 1 =? -1) = false) as ->.
  { apply Z.eqb_neq. destruct mid; [done|]. simpl. lia. }
  cbn [negb andb default]. rewrite Hls at 1. by rewrite splice_segment.
Qed.

(** X6. When the secondary configuration has no do-not-compress item, or the
    base configuration has none to replace, [mergeApktoolYml] leaves the file
    tree exactly as it was: in the second case the items of the secondary are
    not added to the base. *)
Theorem mergeApktoolYml_nothing_to_add (src dst : path) (fs : node)
    (srcContent dstContent : jsstring) :
  stat fs src = Some (File srcContent) →
  stat fs dst = Some (File dstContent) →
  getDoNotCompressLines (split_nl srcContent) = []
  ∨ lines (getDoNotCompressRange (split_nl dstContent)) = [] →
  mergeApktoolYml src dst fs = (Ok (), fs).
Proof.
  intros Hsrc Hdst Hnone.
  assert (mergeApktoolYml_text srcContent dstContent = dstContent) as Htext.
  { destruct Hnone.
    - by apply mergeApktoolYml_text_no_items.
    - by apply mergeApktoolYml_text_no_range. }
  unfold mergeApktoolYml, bind, readFile. rewrite Hsrc, Hdst.
  unfold mergeApktoolYml_text in Htext.
  destruct (mergeApktoolYml_content srcContent dstContent) as [text|]; [|done].
  simpl in Htext. subst text. unfold writeFile, attempt.
  by rewrite (write_at_same _ _ _ Hdst).
Qed.

Lemma mergeApktoolYml_nothing_to_add_witness :
  mergeApktoolYml [lit "split"; lit "apktool.yml"]
    [lit "base"; lit "apktool.yml"] ws_example_no_block
  = (Ok (), ws_example_no_block).
Proof.
  apply (mergeApktoolYml_nothing_to_add _ _ _ yml_split yml_without_block).
  - reflexivity.
  - reflexivity.
  - right. reflexivity.
Defined.

Lemma sort_arrayFromSet_ext (l1 l2 : list jsstring) :
  (∀ x, x ∈ l1 ↔ x ∈ l2) →
  sort (arrayFromSet l1) = sort (arrayFromSet l2).
Proof.
  intros Hin. apply (Sorted_unique le); try apply sort_Sorted.
  rewrite !sort_Permutation.
  apply NoDup_Permutation; try apply arrayFromSet_NoDup.
  intros x. by rewrite !elem_of_arrayFromSet.
Qed.

(** The text after merging [srcB] into the text merged from [srcA]. *)
Lemma mergeApktoolYml_text_twice srcA srcB dstContent a mid c :
  getDoNotCompressLines (split_nl srcA) ≠ [] →
  getDoNotCompressLines (split_nl srcB) ≠ [] →
  split_nl dstContent = a ++ mid ++ c →
  startIndex (getDoNotCompressRange (split_nl dstContent))
  = Z.of_nat (length a) →
  endIndex (getDoNotCompressRange (split_nl dstContent))
  = Z.of_nat (length a + length mid) - 1 →
  (∃ x, head mid = Some x ∧ isItem x = true) →
  Forall (λ l, isItem l = true ∨ isBlank l = true ∨ isComment l = true) mid →
  mergeApktoolYml_text srcB (mergeApktoolYml_text srcA dstContent)
  = join_nl (a ++ sort (arrayFromSet
               (sort (arrayFromSet
                  (lines (getDoNotCompressRange (split_nl dstContent))
                   ++ getDoNotCompressLines (split_nl srcA)))
                ++ getDoNotCompressLines (split_nl srcB))) ++ c).
Proof.
  intros HA HB Hls Hs He Hh Hmid.
  assert (mid ≠ []) as Hne by (destruct Hh as (x & Hx & _); by destruct mid).
  rewrite (mergeApktoolYml_text_spliced srcA dstContent a mid c) by done.
  destruct (merged_items_spec
              (lines (getDoNotCompressRange (split_nl dstContent)))
              (getDoNotCompressLines (split_nl srcA)))
    as (HSne & HS & _);
    [apply getDoNotCompressRange_items|apply getDoNotCompressLines_items|done|].
  set (S := sort _) in *.
  destruct (range_of_merged_lines a mid c S) as [Hsplit Hrange]; try done.
  { by rewrite <-Hls. }
  { by rewrite <-Hls. }
  { rewrite <-Hls. apply split_nl_no_newline. }
  rewrite (mergeApktoolYml_text_spliced srcB _ a S c); try done.
  - by rewrite Hsplit, Hrange.
  - by rewrite Hsplit, Hrange.
  - by rewrite Hsplit, Hrange.
Qed.

Lemma mergeApktoolYml_text_comm srcA srcB dstContent :
  mergeApktoolYml_text srcB (mergeApktoolYml_text srcA dstContent)
  = mergeApktoolYml_text srcA (mergeApktoolYml_text srcB dstContent).
Proof.
  destruct (decide (getDoNotCompressLines (split_nl srcA) = [])) as [HA|HA].
  { by rewrite !(mergeApktoolYml_text_no_items srcA). }
  destruct (decide (getDoNotCompressLines (split_nl srcB) = [])) as [HB|HB].
  { by rewrite !(mergeApktoolYml_text_no_items srcB). }
  destruct (getDoNotCompressRange_delimits (split_nl dstContent))
    as [(Hl & _)|(a & mid & c & Hls & Hs & He & Hh & _ & _ & Hmid)].
  { rewrite (mergeApktoolYml_text_no_range srcA dstContent) by done.
    rewrite (mergeApktoolYml_text_no_range srcB dstContent) by done.
    by rewrite !mergeApktoolYml_text_no_range. }
  rewrite (mergeApktoolYml_text_twice srcA srcB dstContent a mid c) by done.
  rewrite (mergeApktoolYml_text_twice srcB srcA dstContent a mid c) by done.
  do 2 f_equal. f_equal. apply sort_arrayFromSet_ext. intros x.
  rewrite !elem_of_app, !sort_Permutation, !elem_of_arrayFromSet, !elem_of_app.
  tauto.
Qed.

(** X7. The configuration that results from merging several secondaries into
    a base does not depend on the order in which they are merged. *)
Theorem mergeApktoolYml_order_irrelevant (srcs srcs' : list jsstring)
    (dstContent : jsstring) :
  srcs ≡ₚ srcs' →
  foldl (λ text src, mergeApktoolYml_text src text) dstContent srcs
  = foldl (λ text src, mergeApktoolYml_text src text) dstContent srcs'.
Proof.
  intros Hperm. revert dstContent.
  induction Hperm as [|x l l' _ IH|x y l|l l' l'' _ IH1 _ IH2];
    intros dstContent; simpl.
  - done.
  - apply IH.
  - by rewrite mergeApktoolYml_text_comm.
  - by rewrite IH1.
Qed.

Lemma mergeApktoolYml_order_irrelevant_witness :
  foldl (λ text src, mergeApktoolYml_text src text) yml_base
        [yml_split; yml_split_other]
  = foldl (λ text src, mergeApktoolYml_text src text) yml_base
          [yml_split_other; yml_split].
Proof.
  apply (mergeApktoolYml_order_irrelevant [yml_split; yml_split_other]
           [yml_split_other; yml_split] yml_base).
  apply perm_swap.
Defined.

Example mergeApktoolYml_two_splits :
  foldl (λ text src, mergeApktoolYml_text src text) yml_base
        [yml_split; yml_split_other]
  = join_nl (map lit ["version: 2"; "doNotCompress:"; "- assets/z.bin";
                      "- res/a.so"; "- res/b.so"; "- res/c.so";
                      "isFrameworkApk: false"]%string).
Proof. vm_compute. reflexivity. Qed.

(** *** The scans on a block laid out as the packaging tool writes it *)

Lemma lines_loop_cons inside result line rest :
  getDoNotCompressLines_loop inside result (line :: rest)
  = if isKey line then getDoNotCompressLines_loop true result rest
    else if inside then
      if isItem line then
        getDoNotCompressLines_loop inside (result ++ [line]) rest
      else if negb (isBlank line) && negb (startsWith line HASH) then result
      else getDoNotCompressLines_loop inside result rest
    else getDoNotCompressLines_loop inside result rest.
Proof. done. Qed.

Lemma lines_loop_outside pre : ∀ result rest,
  Forall (λ l, isKey l = false) pre →
  getDoNotCompressLines_loop false result (pre ++ rest)
  = getDoNotCompressLines_loop false result rest.
Proof.
  induction pre as [|l pre IH]; intros result rest Hpre; [done|].
  apply Forall_cons in Hpre as [Hl Hpre].
  rewrite <-app_comm_cons, lines_loop_cons, Hl. by apply IH.
Qed.

Lemma lines_loop_items items : ∀ result rest,
  Forall (λ l, isItem l = true) items →
  getDoNotCompressLines_loop true result (items ++ rest)
  = getDoNotCompressLines_loop true (result ++ items) rest.
Proof.
  induction items as [|l items IH]; intros result rest Hitems.
  { by rewrite app_nil_r. }
  apply Forall_cons in Hitems as [Hl Hitems].
  rewrite <-app_comm_cons, lines_loop_cons, Hl, (isItem_not_key _ Hl).
  rewrite IH by done. by rewrite <-(assoc_L (++)).
Qed.

Lemma ends_block_inv line :
  ends_block line = true →
  isKey line = false ∧ isItem line = false ∧ isBlank line = false
  ∧ isComment line = false ∧ startsWith line HASH = false.
Proof.
  unfold ends_block. rewrite !andb_true_iff, !negb_true_iff.
  intros (((? & ?) & ?) & Hc). split_and!; try done.
  destruct (startsWith line HASH) eqn:E; [|done].
  apply startsWith_hash_trim in E. congruence.
Qed.

Lemma scan_quiet_outside pre :
  Forall (λ l, isKey l = false) pre → scan_quiet false pre = Some false.
Proof.
  induction 1 as [|l pre Hl _ IH]; [done|]. simpl. by rewrite Hl.
Qed.

(** X8. On a configuration laid out as the packaging tool writes it (no key
    line before the key line, then item lines only, then the end of the file
    or a line of another kind), both scans extract exactly the item lines,
    untrimmed and in order, and the range is that of their positions, or
    (-1, -1) when the block is empty. *)
Theorem scans_on_plain_block (pre items rest : list jsstring)
    (key : jsstring) :
  Forall (λ l, isKey l = false) pre →
  isKey key = true →
  Forall (λ l, isItem l = true) items →
  (∀ stop, head rest = Some stop → ends_block stop = true) →
  getDoNotCompressLines (pre ++ key :: items ++ rest) = items
  ∧ getDoNotCompressRange (pre ++ key :: items ++ rest)
    = match items with
      | [] => Range (-1) (-1) []
      | _ :: _ =>
          Range (Z.of_nat (length pre) + 1)
                (Z.of_nat (length pre) + Z.of_nat (length items)) items
      end.
Proof.
  intros Hpre Hkey Hitems Hstop. split.
  - unfold getDoNotCompressLines.
    rewrite lines_loop_outside, lines_loop_cons, Hkey by done.
    rewrite lines_loop_items by done. simpl.
    destruct rest as [|stop post]; [done|].
    destruct (ends_block_inv stop) as (Hk & Hi & Hb & _ & Hh); [by apply Hstop|].
    by rewrite lines_loop_cons, Hk, Hi, Hb, Hh.
  - unfold getDoNotCompressRange.
    rewrite (range_loop_quiet pre false false) by by apply scan_quiet_outside.
    rewrite range_loop_cons, Hkey. cbn [negb andb].
    assert (∀ r i, getDoNotCompressRange_loop true r i rest = r) as Hrest.
    { intros r i. destruct rest as [|stop post]; [done|].
      destruct (ends_block_inv stop) as (Hk & Hi & Hb & Hc & _);
        [by apply Hstop|].
      by rewrite range_loop_cons, Hk, Hi, Hb, Hc. }
    destruct items as [|x items]; [apply Hrest|].
    rewrite range_loop_items by (done || lia). rewrite Hrest.
    cbn [startIndex lines app]. f_equal; simpl length; lia.
Qed.

Lemma scans_on_plain_block_witness :
  getDoNotCompressLines
    (map lit ["version: 2"]%string ++ lit "doNotCompress:"
     :: map lit ["- res/a.so"; "- res/b.so"]%string
     ++ map lit ["isFrameworkApk: false"]%string)
  = map lit ["- res/a.so"; "- res/b.so"]%string
  ∧ getDoNotCompressRange
      (map lit ["version: 2"]%string ++ lit "doNotCompress:"
       :: map lit ["- res/a.so"; "- res/b.so"]%string
       ++ map lit ["isFrameworkApk: false"]%string)
    = Range (Z.of_nat (length (map lit ["version: 2"]%string)) + 1)
            (Z.of_nat (length (map lit ["version: 2"]%string))
             + Z.of_nat (length (map lit ["- res/a.so"; "- res/b.so"]%string)))
            (map lit ["- res/a.so"; "- res/b.so"]%string).
Proof.
  apply (scans_on_plain_block (map lit ["version: 2"]%string)
           (map lit ["- res/a.so"; "- res/b.so"]%string)
           (map lit ["isFrameworkApk: false"]%string) (lit "doNotCompress:")).
  - repeat constructor.
  - reflexivity.
  - repeat constructor.
  - intros stop [= <-]. reflexivity.
Defined.

(** *** What the scans extract in general *)

Lemma lines_loop_sublist ls : ∀ inside result,
  ∃ found,
    getDoNotCompressLines_loop inside result ls = result ++ found
    ∧ found `sublist_of` ls
    ∧ Forall (λ l, isItem l = true) found
    ∧ (inside = false → Forall (λ l, isKey l = false) ls → found = []).
Proof.
  induction ls as [|line ls IH]; intros inside result.
  { exists []. by rewrite app_nil_r. }
  rewrite lines_loop_cons. destruct (isKey line) eqn:Hk.
  { destruct (IH true result) as (found & -> & Hsub & Hit & _).
    exists found. split_and!; try done.
    - by apply sublist_cons.
    - intros _ Hno. apply Forall_cons in Hno as [Hno _]. congruence. }
  destruct inside.
  - destruct (isItem line) eqn:Hi.
    + destruct (IH true (result ++ [line])) as (found & -> & Hsub & Hit & _).
      exists (line :: found). split_and!; try done.
      * by rewrite <-(assoc_L (++)).
      * by apply sublist_skip.
      * by constructor.
    + destruct (negb (isBlank line) && negb (startsWith line HASH)).
      * exists []. rewrite app_nil_r. split_and!; try done.
        apply sublist_nil_l.
      * destruct (IH true result) as (found & -> & Hsub & Hit & _).
        exists found. split_and!; try done. by apply sublist_cons.
  - destruct (IH false result) as (found & -> & Hsub & Hit & Hnone).
    exists found. split_and!; try done.
    + by apply sublist_cons.
    + intros _ Hno. apply Forall_cons in Hno as [_ Hno]. by apply Hnone.
Qed.

Lemma range_loop_outside ls : ∀ r i,
  Forall (λ l, isKey l = false) ls →
  getDoNotCompressRange_loop false r i ls = r.
Proof.
  induction ls as [|line ls IH]; intros r i Hno; [done|].
  apply Forall_cons in Hno as [Hl Hno].
  rewrite range_loop_cons, Hl. simpl. by apply IH.
Qed.

(** X9. The lines [getDoNotCompressLines] extracts are lines of the file, in
    file order and untrimmed, each of them an item line; and a file without a
    key line yields nothing from either scan: no line, and the indices -1. *)
Theorem scans_extract_item_lines (ls : list jsstring) :
  getDoNotCompressLines ls `sublist_of` ls
  ∧ Forall (λ l, isItem l = true) (getDoNotCompressLines ls)
  ∧ (Forall (λ l, isKey l = false) ls →
     getDoNotCompressLines ls = []
     ∧ getDoNotCompressRange ls = Range (-1) (-1) []).
Proof.
  unfold getDoNotCompressLines.
  destruct (lines_loop_sublist ls false []) as (found & -> & Hsub & Hit & Hno).
  split_and!; try done. intros Hkeys. split.
  - by rewrite Hno.
  - by apply range_loop_outside.
Qed.

Lemma scans_extract_item_lines_witness :
  getDoNotCompressLines (map lit ["version: 2"; "- stray"]%string) = []
  ∧ getDoNotCompressRange (map lit ["version: 2"; "- stray"]%string)
    = Range (-1) (-1) [].
Proof.
  apply (proj2 (proj2 (scans_extract_item_lines
                         (map lit ["version: 2"; "- stray"]%string)))).
  repeat constructor.
Defined.

(** ** The stages of the request, one by one *)





Lemma workspace_add_log l w : workspace (add_log l w) = workspace w.
Proof. done. Qed.

(** *** [prepareApkFiles] *)




(** X11. The order [prepareApkFiles] puts the archives in does not depend on
    the order in which the directory lists them. *)
Theorem orderApkFiles_listing_order (listing listing' : list jsstring) :
  listing ≡ₚ listing' →
  orderApkFiles listing = orderApkFiles listing'.
Proof.
  intros Hperm. unfold orderApkFiles.
  assert (sort (filter (λ f, endsWith f CONST_EXT_APK = true) listing)
          = sort (filter (λ f, endsWith f CONST_EXT_APK = true) listing'))
    as ->; [|done].
  apply (Sorted_unique le); try apply sort_Sorted.
  by rewrite !sort_Permutation, Hperm.
Qed.

Lemma orderApkFiles_listing_order_witness :
  orderApkFiles (map fst input_example)
  = orderApkFiles (reverse (map fst input_example)).
Proof.
  apply (orderApkFiles_listing_order (map fst input_example)).
  symmetry. apply reverse_Permutation.
Defined.

(** *** [unpackApk] *)




(** *** [packApk] *)

Lemma packApk_unfold env apkDirName w :
  packApk env apkDirName w
  = (try_catch (in_workspace (apktool_b env apkDirName))
       (λ e, throw (Error (lit "Failed to pack APK: " ++ message e))) ;;
     entries <- in_workspace (readdir [apkDirName; lit "dist"]) ;;
     match map fst entries with
     | builtApk :: _ =>
         if eqb builtApk []
         then throw (Error (lit "Result APK not found in dist"))
         else in_workspace
                (copyFile ([apkDirName; lit "dist"] ++ [builtApk]) target_apk)
     | [] => throw (Error (lit "Result APK not found in dist"))
     end)%M (add_log (Log (lit "Repacking APK...")) w).
Proof. done. Qed.

(** X13. When [packApk] completes, the build tool has completed, the [dist]
    directory of the base tree lists a regular file first, and [target.apk]
    in the workspace holds the text of that first file, whatever else [dist]
    lists; nothing but [target.apk] differs from what the tool left. A failure
    of the tool comes out as [Failed to pack APK: ] with its message; an
    empty [dist] as [Result APK not found in dist]; a missing [dist] as the
    bare ENOENT of [readdir]. *)
Theorem packApk_outcome (env : environment) (apkDirName : jsstring)
    (w : world) :
  (∀ w', packApk env apkDirName w = (Ok (), w') →
     ∃ t t1 t2 name data rest,
       workspace w = Some t
       ∧ apktool_b env apkDirName t = (Ok (), t1)
       ∧ stat t1 [apkDirName; lit "dist"]
         = Some (Dir ((name, File data) :: rest))
       ∧ workspace w' = Some t2
       ∧ stat t2 target_apk = Some (File data)
       ∧ (∀ q, apart target_apk q → stat t2 q = stat t1 q))
  ∧ (∀ t e0 t1,
       workspace w = Some t → apktool_b env apkDirName t = (Throw e0, t1) →
       (packApk env apkDirName w).1
       = Throw (Error (lit "Failed to pack APK: " ++ message e0)))
  ∧ (∀ t t1,
       workspace w = Some t → apktool_b env apkDirName t = (Ok (), t1) →
       stat t1 [apkDirName; lit "dist"] = Some (Dir []) →
       (packApk env apkDirName w).1
       = Throw (Error (lit "Result APK not found in dist")))
  ∧ (∀ t t1,
       workspace w = Some t → apktool_b env apkDirName t = (Ok (), t1) →
       stat t1 [apkDirName; lit "dist"] = None →
       (packApk env apkDirName w).1 = Throw (SysError ENOENT)).
Proof.
  rewrite packApk_unfold. split_and!.
  - intros w' Hrun.
    apply bind_Ok_inv in Hrun as ([] & wa & Htool & Hrun).
    apply bind_Ok_inv in Hrun as (entries & wb & Hdir & Hrun).
    unfold try_catch in Htool.
    destruct (in_workspace _ _) as [[[]|e0] w1] eqn:Htool' in Htool; [|done].
    injection Htool as ->.
    apply in_workspace_Ok_inv in Htool' as (t & t1 & Hws & Htool & ->).
    apply in_workspace_Ok_inv in Hdir as (t1' & t1'' & [= <-] & Hdir & ->).
    unfold readdir in Hdir.
    destruct (stat t1 [apkDirName; lit "dist"]) as [[|es]|] eqn:Hdist;
      try done.
    injection Hdir as <- <-.
    destruct es as [|[name n] rest]; [done|]. simpl in Hrun.
    destruct (eqb name []); [done|].
    apply in_workspace_Ok_inv in Hrun as (t1' & t2 & [= <-] & Hcopy & ->).
    unfold copyFile in Hcopy.
    apply bind_Ok_inv in Hcopy as (data & t1' & Hread & Hwrite).
    apply readFile_Ok_inv in Hread as [Hread ->].
    unfold writeFile, attempt in Hwrite.
    destruct (write_at t1 target_apk data) as [|t2'] eqn:W; [done|].
    injection Hwrite as ->.
    assert (n = File data) as ->.
    { rewrite (stat_app _ [apkDirName; lit "dist"] [name]) in Hread.
      rewrite Hdist in Hread. simpl in Hread. rewrite eqb_refl in Hread.
      by injection Hread. }
    exists t, t1, t2, name, data, rest. split_and!; try done.
    + by eapply write_at_stat.
    + by eapply write_at_same_outside.
  - intros t e0 t1 Hws Htool. unfold bind at 1, try_catch, in_workspace.
    by rewrite workspace_add_log, Hws, Htool.
  - intros t t1 Hws Htool Hdist.
    unfold bind at 1, try_catch, in_workspace at 1.
    rewrite workspace_add_log, Hws, Htool.
    unfold bind at 1, in_workspace, readdir. cbn [workspace set_workspace].
    by rewrite Hdist.
  - intros t t1 Hws Htool Hdist.
    unfold bind at 1, try_catch, in_workspace at 1.
    rewrite workspace_add_log, Hws, Htool.
    unfold bind at 1, in_workspace, readdir. cbn [workspace set_workspace].
    by rewrite Hdist.
Qed.

Lemma packApk_outcome_witness :
  ∃ t t1 t2 name data rest,
    workspace request_assembled = Some t
    ∧ apktool_b env_ok (lit "base") t = (Ok (), t1)
    ∧ stat t1 [lit "base"; lit "dist"] = Some (Dir ((name, File data) :: rest))
    ∧ workspace (packApk env_ok (lit "base") request_assembled).2 = Some t2
    ∧ stat t2 target_apk = Some (File data)
    ∧ (∀ q, apart target_apk q → stat t2 q = stat t1 q).
Proof.
  apply (proj1 (packApk_outcome env_ok (lit "base") request_assembled)).
  vm_compute. reflexivity.
Defined.

(** *** [zipalignApk] *)




(** *** [deleteSignatureRelatedFiles] run again *)

Lemma delete_loop_nothing_left metaInf es fs :
  Forall keeps es →
  for_of (map fst es)
    (λ file, if isSignatureRelated file
             then unlink (metaInf ++ [file])
             else ret ()) fs = (Ok (), fs).
Proof.
  induction 1 as [|e es He _ IH]; simpl; [done|].
  unfold bind at 1. unfold keeps in He. by rewrite He.
Qed.

(** X15. Once [deleteSignatureRelatedFiles] has completed, running it again
    completes and changes nothing: no signature file is left to delete. *)
Theorem deleteSignatureRelatedFiles_again (apkDir : path) (fs fs' : node) :
  deleteSignatureRelatedFiles apkDir fs = (Ok (), fs') →
  deleteSignatureRelatedFiles apkDir fs' = (Ok (), fs').
Proof.
  intros Hrun.
  destruct (stat fs (apkDir ++ [lit "original"; lit "META-INF"]))
    as [[d|es]|] eqn:Hst.
  - unfold deleteSignatureRelatedFiles, existsSync in Hrun.
    rewrite Hst in Hrun. unfold bind at 1, readdir in Hrun.
    by rewrite Hst in Hrun.
  - destruct (deleteSignatureRelatedFiles_completed _ _ _ _ Hst Hrun)
      as [Hst' _].
    unfold deleteSignatureRelatedFiles, existsSync. rewrite Hst'.
    unfold bind at 1, readdir. rewrite Hst'.
    apply delete_loop_nothing_left, Forall_forall.
    by intros e [? _]%list_elem_of_filter.
  - rewrite deleteSignatureRelatedFiles_absent in Hrun by done.
    injection Hrun as <-. by apply deleteSignatureRelatedFiles_absent.
Qed.

Lemma deleteSignatureRelatedFiles_again_witness :
  deleteSignatureRelatedFiles []
    (deleteSignatureRelatedFiles [] base_example).2
  = (Ok (), (deleteSignatureRelatedFiles [] base_example).2).
Proof.
  apply (deleteSignatureRelatedFiles_again [] base_example).
  vm_compute. reflexivity.
Defined.

(** ** The request as a whole: unusable input, and what a resolved request
    guarantees *)

Lemma orderApkFiles_nil listing :
  filter (λ f, endsWith f CONST_EXT_APK = true) listing = [] →
  orderApkFiles listing = [].
Proof. intros H. unfold orderApkFiles. by rewrite H. Qed.

Lemma mergeApks_stages_unusable_input env w :
  match input w with
  | Some (Dir es) =>
      filter (λ f, endsWith f CONST_EXT_APK = true) (map fst es) = []
  | _ => True
  end →
  mergeApks_stages env w = (Throw (input_error w), w).
Proof.
  intros Hin. unfold mergeApks_stages, bind at 1, mergeApks_assemble, bind at 1.
  unfold prepareApkFiles, input_error.
  destruct (input w) as [[d|es]|]; try done.
  by rewrite orderApkFiles_nil.
Qed.

(** X16. A request whose input path names a directory without any [.apk]
    entry, a regular file, or nothing, is rejected with
    [No APK files found in input path],
    [Input path must be a directory containing split APKs], or ENOENT: no
    tool is run, the error is logged once, the empty workspace is removed
    and the destination is not touched. *)
Theorem mergeApks_rejects_unusable_input (env : environment)
    (inputPath outputPath : jsstring) (w : world) :
  workspace w = None →
  rm_error env (Dir []) = None →
  match input w with
  | Some (Dir es) =>
      filter (λ f, endsWith f CONST_EXT_APK = true) (map fst es) = []
  | _ => True
  end →
  mergeApks env inputPath outputPath w
  = (Throw (input_error w),
     World (input w) None (output w)
       (logged w ++ [Log (lit "Created temp directory: " ++ tmpDir env);
                     LogError (lit "Error merging APKs") (input_error w)])).
Proof.
  intros Hws Hrm Hin. rewrite mergeApks_fresh by done.
  assert (mergeApks_try env outputPath (started env w)
          = (Throw (input_error w),
             add_log (LogError (lit "Error merging APKs") (input_error w))
                     (started env w))) as Htry.
  { unfold mergeApks_try, try_catch, bind at 1.
    by rewrite (mergeApks_stages_unusable_input env (started env w)). }
  rewrite (try_finally_rm_tmpDir _ _ _ _ _ Htry). simpl. rewrite Hrm.
  unfold set_workspace. simpl. by rewrite <-(assoc_L (++)).
Qed.

Lemma mergeApks_rejects_unusable_input_witness :
  mergeApks env_ok (lit "in") (lit "out.apk") request_without_archives
  = (Throw (input_error request_without_archives),
     World (input request_without_archives) None
       (output request_without_archives)
       (logged request_without_archives
        ++ [Log (lit "Created temp directory: " ++ tmpDir env_ok);
            LogError (lit "Error merging APKs")
              (input_error request_without_archives)])).
Proof.
  apply (mergeApks_rejects_unusable_input env_ok (lit "in") (lit "out.apk")
           request_without_archives).
  - reflexivity.
  - reflexivity.
  - reflexivity.
Defined.

#[local] Instance same_input_reflexive : Reflexive same_input.
Proof. by intros w. Qed.
#[local] Instance same_input_transitive : Transitive same_input.
Proof. intros a b c Hab Hbc. unfold same_input in *. congruence. Qed.




(** X18. A request that is rejected, and whose workspace has been removed,
    has logged the error it is rejected with, as [Error merging APKs], last. *)
Theorem mergeApks_rejection_logged (env : environment)
    (inputPath outputPath : jsstring) (w w' : world) (e : exn) :
  workspace w = None →
  mergeApks env inputPath outputPath w = (Throw e, w') →
  workspace w' = None →
  last (logged w') = Some (LogError (lit "Error merging APKs") e).
Proof.
  intros Hws Hrun. rewrite mergeApks_fresh in Hrun by done.
  destruct (mergeApks_try_cases env outputPath (started env w))
    as [(e1 & w1 & Hst & Htry)|[(e1 & w1 & Hst & Hcp & Htry)
                               |(w1 & t & d & Hst & Ht & Hd & Htry)]];
    rewrite (try_finally_rm_tmpDir _ _ _ _ _ Htry) in Hrun; simpl in Hrun.
  - destruct (workspace w1) as [t|] eqn:Hw1;
      [destruct (rm_error env t) eqn:Hrm|]; injection Hrun as <- <-; simpl;
      rewrite ?Hw1; try done; intros _; by rewrite last_snoc.
  - destruct (workspace w1) as [t|] eqn:Hw1;
      [destruct (rm_error env t) eqn:Hrm|]; injection Hrun as <- <-; simpl;
      rewrite ?Hw1; try done; intros _; by rewrite last_snoc.
  - rewrite Ht in Hrun. destruct (rm_error env t) eqn:Hrm; [|done].
    injection Hrun as <- <-. simpl. by rewrite Ht.
Qed.

Lemma mergeApks_rejection_logged_witness :
  last (logged (mergeApks env_ok (lit "in") (lit "out.apk")
                  request_without_input).2)
  = Some (LogError (lit "Error merging APKs") (SysError ENOENT)).
Proof.
  apply (mergeApks_rejection_logged env_ok (lit "in") (lit "out.apk")
           request_without_input).
  - reflexivity.
  - vm_compute. reflexivity.
  - reflexivity.
Defined.

Lemma mergeApks_existing env inputPath outputPath w ts :
  workspace w = Some (Dir ts) →
  mergeApks env inputPath outputPath w
  = try_finally (mergeApks_try env outputPath) (rm_tmpDir env)
      (add_log (Log (lit "Created temp directory: " ++ tmpDir env)) w).
Proof.
  intros Hws. unfold mergeApks, bind at 1, createTmpDir. by rewrite Hws.
Qed.

(** X19. The temporary directory is not made for the request alone. When it
    is there already, [createTmpDir] takes it as it is, the request runs in
    it, and the removal at the end, when the system allows it, takes the whole
    directory with it, whatever it held before. When a regular file stands in
    its place, the request fails with EEXIST before the [try] block: nothing
    is logged and nothing is removed. *)
Theorem mergeApks_workspace_in_place (env : environment)
    (inputPath outputPath : jsstring) (w : world) :
  (∀ ts r w',
     workspace w = Some (Dir ts) →
     (∀ t, rm_error env t = None) →
     mergeApks env inputPath outputPath w = (r, w') →
     createTmpDir env w = (Ok (tmpDir env), w)
     ∧ workspace w' = None)
  ∧ (∀ d,
       workspace w = Some (File d) →
       mergeApks env inputPath outputPath w = (Throw (SysError EEXIST), w)).
Proof.
  split.
  - intros ts r w' Hws Hrm Hrun. split.
    { unfold createTmpDir. by rewrite Hws. }
    rewrite (mergeApks_existing _ _ _ _ ts) in Hrun by done.
    destruct (mergeApks_try env outputPath
                (add_log (Log (lit "Created temp directory: " ++ tmpDir env))
                         w)) as [r1 w1] eqn:Htry.
    rewrite (try_finally_rm_tmpDir _ _ _ _ _ Htry) in Hrun.
    destruct (workspace w1) as [t|] eqn:Hw1.
    + rewrite Hrm in Hrun. by injection Hrun as <- <-.
    + by injection Hrun as <- <-.
  - intros d Hws. unfold mergeApks, bind at 1, createTmpDir. by rewrite Hws.
Qed.

Lemma mergeApks_workspace_in_place_witness :
  createTmpDir env_ok request_sharing = (Ok (tmpDir env_ok), request_sharing)
  ∧ workspace (mergeApks env_ok (lit "in") (lit "out.apk")
                 request_sharing).2 = None.
Proof.
  apply (proj1 (mergeApks_workspace_in_place env_ok (lit "in") (lit "out.apk")
                  request_sharing)
           [(lit "other.apk", File (lit "OTHER"))]
           (mergeApks env_ok (lit "in") (lit "out.apk") request_sharing).1).
  - reflexivity.
  - done.
  - apply surjective_pairing.
Defined.

(** *** What the merge and clean-up stages leave of the base tree *)

#[local] Instance keeps_files_except_reflexive p :
  Reflexive (keeps_files_except p).
Proof. by intros fs q d. Qed.

Lemma extends_keeps_files p fs fs' :
  extends fs fs' → keeps_files_except p fs fs'.
Proof. intros H q d Hq _. by eapply extends_file. Qed.

Lemma write_at_keeps_others p d : ∀ fs fs',
  write_at fs p d = inr fs' → keeps_files_except p fs fs'.
Proof.
  induction p as [|name p IH]; intros [d0|es] fs'; simpl; try done.
  - intros _ [|k q] d'; done.
  - intros Hw [|k q] d'; [done|]. simpl.
    destruct (lookup_entry name es) as [c|] eqn:Hl.
    + destruct (write_at c p d) as [|c'] eqn:Hc; [done|].
      injection Hw as <-. simpl. rewrite lookup_set_entry.
      destruct (eqb k name) eqn:Hk; [|done].
      apply eqb_eq in Hk as ->. rewrite Hl. simpl. intros Hq Hne.
      eapply IH; eauto. congruence.
    + destruct p; [|done]. injection Hw as <-. simpl.
      rewrite lookup_entry_app.
      by destruct (lookup_entry k es) as [x|] eqn:Hk.
Qed.

Lemma mergeApkContents_keeps_files mainDir secDir :
  preserves (keeps_files_except (mainDir ++ [CONST_APK_FILE_APKTOOL_CONFIG]))
    (mergeApkContents mainDir secDir).
Proof.
  intros fs r fs' Hrun. unfold mergeApkContents, bind at 1 in Hrun.
  destruct (mergeApkContents_dirs mainDir secDir fs) as [[[]|e] fs1] eqn:Hdirs.
  - apply mergeApkContents_dirs_extends in Hdirs.
    intros q d Hq Hne. apply (extends_file _ _ _ _ Hdirs) in Hq.
    destruct (_ && _) in Hrun; [|by injection Hrun as _ <-].
    unfold mergeApktoolYml, bind, readFile in Hrun.
    destruct (stat fs1 (secDir ++ _)) as [[sc|]|];
      try by injection Hrun as _ <-.
    destruct (stat fs1 (mainDir ++ _)) as [[dc|]|];
      try by injection Hrun as _ <-.
    destruct (mergeApktoolYml_content sc dc) as [text|];
      [|by injection Hrun as _ <-].
    unfold writeFile, attempt in Hrun.
    destruct (write_at fs1 _ text) as [|s1] eqn:W; injection Hrun as _ <-;
      [done|].
    by eapply write_at_keeps_others.
  - injection Hrun as _ <-. apply extends_keeps_files.
    by eapply mergeApkContents_dirs_extends.
Qed.

Lemma merge_loop_keeps_files mainApkDir secs : ∀ w w' t,
  for_of secs (λ secDir,
    in_workspace (mergeApkContents [mainApkDir] [secDir])) w = (Ok (), w') →
  workspace w = Some t →
  ∃ t', workspace w' = Some t'
        ∧ keeps_files_except [mainApkDir; CONST_APK_FILE_APKTOOL_CONFIG] t t'.
Proof.
  induction secs as [|sec secs IH]; intros w w' t; simpl.
  - intros [= <-] Hws. by exists t.
  - intros Hrun Hws. apply bind_Ok_inv in Hrun as ([] & w1 & Hstep & Hrest).
    apply in_workspace_Ok_inv in Hstep as (t0 & t1 & Hws0 & Hstep & ->).
    rewrite Hws in Hws0. injection Hws0 as <-.
    apply (mergeApkContents_keeps_files [mainApkDir] [sec]) in Hstep.
    destruct (IH _ _ t1 Hrest eq_refl) as (t' & Hw' & Hkeep).
    exists t'. split; [done|]. intros q d Hq Hne. apply Hkeep; [|done].
    by apply Hstep.
Qed.

Lemma lookup_entry_filter_keeps name es :
  isSignatureRelated name = false →
  lookup_entry name (filter keeps es) = lookup_entry name es.
Proof.
  intros Hname. induction es as [|[k x] es IH]; [done|].
  rewrite filter_cons. unfold keeps at 1. simpl.
  destruct (decide (isSignatureRelated k = false)) as [Hk|Hk]; simpl.
  - by rewrite IH.
  - destruct (eqb k name) eqn:E; [|done]. apply eqb_eq in E. congruence.
Qed.

Lemma deleteSignatureRelatedFiles_keeps_files apkDir fs fs' q d :
  deleteSignatureRelatedFiles apkDir fs = (Ok (), fs') →
  stat fs q = Some (File d) →
  stat fs' q = Some (File d)
  ∨ ∃ name rest,
      q = apkDir ++ [lit "original"; lit "META-INF"] ++ name :: rest
      ∧ isSignatureRelated name = true.
Proof.
  intros Hrun Hq.
  destruct (stat fs (apkDir ++ [lit "original"; lit "META-INF"]))
    as [[d0|es]|] eqn:Hst.
  - unfold deleteSignatureRelatedFiles, existsSync in Hrun.
    rewrite Hst in Hrun. unfold bind at 1, readdir in Hrun.
    by rewrite Hst in Hrun.
  - destruct (deleteSignatureRelatedFiles_completed _ _ _ _ Hst Hrun)
      as [Hst' Hout].
    destruct (decide (apart (apkDir ++ [lit "original"; lit "META-INF"]) q))
      as [Hap|Hnap].
    { left. by rewrite Hout. }
    assert (∃ k, q = (apkDir ++ [lit "original"; lit "META-INF"]) ++ k)
      as [k ->].
    { destruct (decide ((apkDir ++ [lit "original"; lit "META-INF"])
                          `prefix_of` q)) as [[k ->]|Hn1]; [by exists k|].
      destruct (decide (q `prefix_of`
                          apkDir ++ [lit "original"; lit "META-INF"]))
        as [[k Hk]|Hn2]; [|by destruct Hnap].
      rewrite Hk, stat_app, Hq in Hst. destruct k; [|done].
      exists []. by rewrite Hk. }
    rewrite stat_app, Hst in Hq. destruct k as [|name rest]; [done|].
    simpl in Hq.
    destruct (isSignatureRelated name) eqn:Hname.
    + right. exists name, rest. by rewrite <-(assoc_L (++)).
    + left. rewrite stat_app, Hst'. simpl.
      by rewrite lookup_entry_filter_keeps.
  - rewrite deleteSignatureRelatedFiles_absent in Hrun by done.
    injection Hrun as <-. by left.
Qed.

Lemma updateMainManifestFile_keeps_files apkDir :
  preserves (keeps_files_except (apkDir ++ [lit "AndroidManifest.xml"]))
    (updateMainManifestFile apkDir).
Proof.
  intros fs r fs'. unfold updateMainManifestFile.
  destruct (existsSync _ _); simpl; [|by intros [= _ <-]].
  unfold bind, readFile.
  destruct (stat fs _) as [[data|]|]; try by intros [= _ <-].
  unfold writeFile, attempt.
  destruct (write_at fs _ _) as [|s1] eqn:W; intros [= _ <-]; [done|].
  by eapply write_at_keeps_others.
Qed.

(** X20. From the unpacked trees to the start of the repack, the request
    changes the text of no file of the base tree but [AndroidManifest.xml]
    and [apktool.yml], and removes none but what lies in [original/META-INF]
    under a signature name: every other file the base tree holds once the
    archives are unpacked is there, with the same text, when
    [mergeApks_assemble] has completed. *)
Theorem assemble_keeps_base_files (env : environment) (w w1 : world)
    (mainApkDir : jsstring) :
  mergeApks_assemble env w = (Ok mainApkDir, w1) →
  ∃ apkFiles w_p w_u,
    prepareApkFiles w = (Ok apkFiles, w_p)
    ∧ for_of apkFiles (unpackApk env) w_p = (Ok (), w_u)
    ∧ ∀ t_u p d,
        workspace w_u = Some t_u →
        stat t_u (mainApkDir :: p) = Some (File d) →
        (∃ t1, workspace w1 = Some t1
               ∧ stat t1 (mainApkDir :: p) = Some (File d))
        ∨ p = [lit "AndroidManifest.xml"]
        ∨ p = [CONST_APK_FILE_APKTOOL_CONFIG]
        ∨ ∃ name rest,
            p = [lit "original"; lit "META-INF"] ++ name :: rest
            ∧ isSignatureRelated name = true.
Proof.
  intros Hrun. unfold mergeApks_assemble in Hrun.
  apply bind_Ok_inv in Hrun as (apkFiles & w_p & Hprep & Hrun).
  destruct apkFiles as [|first others]; [done|].
  apply bind_Ok_inv in Hrun as ([] & w_u & Hunpack & Hrun).
  cbv zeta in Hrun.
  apply bind_Ok_inv in Hrun as ([] & w_m & Hmerge & Hrun).
  apply bind_Ok_inv in Hrun as ([] & w_d & Hdelete & Hrun).
  apply bind_Ok_inv in Hrun as ([] & w_s & Hsan & Hrun).
  injection Hrun as <- <-.
  exists (first :: others), w_p, w_u. split_and!; [done..|].
  intros t_u p d Hwu Hp.
  set (main := replace first (lit ".apk") []) in *.
  destruct (merge_loop_keeps_files _ _ _ _ _ Hmerge Hwu) as (t_m & Hwm & Hkm).
  apply in_workspace_Ok_inv in Hdelete as (t_m' & t_d & Hwm' & Hdelete & ->).
  rewrite Hwm in Hwm'. injection Hwm' as <-.
  apply in_workspace_Ok_inv in Hsan as (t_d' & t_s & [= <-] & Hsan & ->).
  destruct (decide (p = [CONST_APK_FILE_APKTOOL_CONFIG])) as [->|Hcfg];
    [by right; right; left|].
  assert (stat t_m (main :: p) = Some (File d)) as Hpm.
  { apply Hkm; [done|]. intros [= ->]. done. }
  destruct (deleteSignatureRelatedFiles_keeps_files _ _ _ _ _ Hdelete Hpm)
    as [Hd|(name & rest & Heq & Hname)].
  - destruct (decide (p = [lit "AndroidManifest.xml"])) as [->|Hman];
      [by right; left|].
    left. exists t_s. split; [done|].
    eapply (updateMainManifestFile_keeps_files [main]); eauto.
    simpl. congruence.
  - right; right; right. exists name, rest. split; [|done].
    simpl in Heq. by injection Heq.
Qed.

Lemma assemble_keeps_base_files_witness :
  ∃ apkFiles w_p w_u,
    prepareApkFiles (started env_ok request_example) = (Ok apkFiles, w_p)
    ∧ for_of apkFiles (unpackApk env_ok) w_p = (Ok (), w_u)
    ∧ ∀ t_u p d,
        workspace w_u = Some t_u →
        stat t_u (lit "base" :: p) = Some (File d) →
        (∃ t1, workspace request_assembled = Some t1
               ∧ stat t1 (lit "base" :: p) = Some (File d))
        ∨ p = [lit "AndroidManifest.xml"]
        ∨ p = [CONST_APK_FILE_APKTOOL_CONFIG]
        ∨ ∃ name rest,
            p = [lit "original"; lit "META-INF"] ++ name :: rest
            ∧ isSignatureRelated name = true.
Proof.
  apply (assemble_keeps_base_files env_ok (started env_ok request_example)).
  vm_compute. reflexivity.
Defined.

(** ** Manifest Sanitizer, repeated *)

Lemma updateMainManifestFile_data_length data :
  (length (updateMainManifestFile_data data) ≤ length data)%nat
  ∧ (length (updateMainManifestFile_data data) = length data → no_marker data).
Proof.
  unfold updateMainManifestFile_data, no_marker. cbv zeta.
  assert (length (lit " ") < length RE_SPLIT_REQUIRED)%nat as L1
    by (vm_compute; lia).
  assert (length (@nil N) < length RE_SPLITS_REQUIRED_META)%nat as L2
    by (vm_compute; lia).
  assert (length (@nil N) < length RE_SPLITS_META)%nat as L3 by (vm_compute; lia).
  assert (length (litq "android:value='STAMP_TYPE_STANDALONE_APK'")
          < length RE_STAMP_TYPE)%nat as L4 by (vm_compute; lia).
  pose proof (replaceAll_length _ _ (Nat.lt_le_incl _ _ L1) data) as B1.
  set (d1 := Rx.replaceAll RE_SPLIT_REQUIRED (lit " ") data) in *.
  pose proof (replaceAll_length _ _ (Nat.lt_le_incl _ _ L2) d1) as B2.
  set (d2 := Rx.replaceAll RE_SPLITS_REQUIRED_META [] d1) in *.
  pose proof (replaceAll_length _ _ (Nat.lt_le_incl _ _ L3) d2) as B3.
  set (d3 := Rx.replaceAll RE_SPLITS_META [] d2) in *.
  pose proof (replaceAll_length _ _ (Nat.lt_le_incl _ _ L4) d3) as B4.
  split; [lia|]. intros Hlen.
  assert (occursb RE_SPLIT_REQUIRED data = false) as O1.
  { destruct (occursb RE_SPLIT_REQUIRED data) eqn:O; [|done].
    apply (replaceAll_match_shrinks _ _ (Nat.lt_le_incl _ _ L1) L1) in O.
    fold d1 in O. lia. }
  assert (d1 = data) as E1 by by apply replaceAll_no_match.
  assert (occursb RE_SPLITS_REQUIRED_META data = false) as O2.
  { destruct (occursb RE_SPLITS_REQUIRED_META data) eqn:O; [|done].
    rewrite <-E1 in O.
    apply (replaceAll_match_shrinks _ _ (Nat.lt_le_incl _ _ L2) L2) in O.
    fold d2 in O. lia. }
  assert (d2 = data) as E2.
  { unfold d2. rewrite E1. by apply replaceAll_no_match. }
  assert (occursb RE_SPLITS_META data = false) as O3.
  { destruct (occursb RE_SPLITS_META data) eqn:O; [|done]. rewrite <-E2 in O.
    apply (replaceAll_match_shrinks _ _ (Nat.lt_le_incl _ _ L3) L3) in O.
    fold d3 in O. lia. }
  assert (d3 = data) as E3.
  { unfold d3. rewrite E2. by apply replaceAll_no_match. }
  split_and!; try done.
  destruct (occursb RE_STAMP_TYPE data) eqn:O; [|done]. rewrite <-E3 in O.
  apply (replaceAll_match_shrinks _ _ (Nat.lt_le_incl _ _ L4) L4) in O. lia.
Qed.

Lemma sanitizer_stable data m :
  no_marker data → Nat.iter m updateMainManifestFile_data data = data.
Proof.
  intros Hclean. induction m as [|m IH]; simpl; [done|].
  rewrite IH. by apply updateMainManifestFile_data_clean.
Qed.

(** X21. The sanitizer never makes the document longer, and every pass that
    changes it makes it shorter; so, although one pass can leave a match
    behind, repeating the sanitizer reaches, after at most as many passes as
    the document has code units, a document free of all four expressions,
    which further passes leave as it is. *)
Theorem sanitizer_converges (data : jsstring) :
  (length (updateMainManifestFile_data data) ≤ length data)%nat
  ∧ ∃ n, (n ≤ length data)%nat
      ∧ no_marker (Nat.iter n updateMainManifestFile_data data)
      ∧ ∀ m, (n ≤ m)%nat →
          Nat.iter m updateMainManifestFile_data data
          = Nat.iter n updateMainManifestFile_data data.
Proof.
  split; [apply updateMainManifestFile_data_length|].
  remember (length data) as k eqn:Hk. revert data Hk.
  induction k as [k IH] using lt_wf_ind. intros data ->.
  destruct (updateMainManifestFile_data_length data) as [Hle Hsame].
  destruct (decide (length (updateMainManifestFile_data data) = length data))
    as [Heq|Hne].
  - exists 0%nat. split_and!; [lia|by apply Hsame|].
    intros m _. by apply sanitizer_stable, Hsame.
  - destruct (IH (length (updateMainManifestFile_data data)) ltac:(lia)
                _ eq_refl) as (n & Hn & Hclean & Hstable).
    exists (S n). rewrite Nat.iter_succ_r. split_and!; [lia|done|].
    intros [|m] Hm; [lia|]. rewrite Nat.iter_succ_r. apply Hstable. lia.
Qed.

Example sanitizer_second_pass :
  no_marker (Nat.iter 2 updateMainManifestFile_data manifest_twice_marked).
Proof. repeat split; vm_compute; reflexivity. Qed.

(** ** The controller *)

Lemma mergeApks_Ok_value env inputPath outputPath w v w' :
  mergeApks env inputPath outputPath w = (Ok v, w') → v = outputPath.
Proof.
  unfold mergeApks. intros Hrun.
  apply bind_Ok_inv in Hrun as (tmp & w1 & _ & Hrun).
  apply bind_Ok_inv in Hrun as ([] & w2 & _ & Hrun).
  destruct (mergeApks_try_cases env outputPath w2)
    as [(e & w3 & _ & Htry)|[(e & w3 & _ & _ & Htry)
                            |(w3 & t & d & _ & Ht & _ & Htry)]];
    rewrite (try_finally_rm_tmpDir _ _ _ _ _ Htry) in Hrun; simpl in Hrun.
  - destruct (workspace w3) as [t|]; [destruct (rm_error env t)|]; done.
  - destruct (workspace w3) as [t|]; [destruct (rm_error env t)|]; done.
  - rewrite Ht in Hrun. destruct (rm_error env t); [done|]. by injection Hrun.
Qed.

(** X22. The handler answers 400 exactly when [inputPath] or [outputPath] is
    missing or empty; it then throws
    [inputPath and outputPath are required] without calling the service:
    no temporary directory, no log line, nothing printed. *)
Theorem mergeApk_bad_request (env : environment) (b : ApkController.body)
    (s : ApkController.state) :
  (ApkController.truthy (ApkController.inputPath b)
   && ApkController.truthy (ApkController.outputPath b) = false →
   ApkController.mergeApk env b s
   = (ApkController.HttpException
        (lit "inputPath and outputPath are required")
        ApkController.BAD_REQUEST, s))
  ∧ (∀ msg s',
       ApkController.mergeApk env b s
       = (ApkController.HttpException msg ApkController.BAD_REQUEST, s') →
       ApkController.truthy (ApkController.inputPath b)
       && ApkController.truthy (ApkController.outputPath b) = false
       ∧ msg = lit "inputPath and outputPath are required"
       ∧ s' = s).
Proof.
  unfold ApkController.mergeApk.
  destruct (ApkController.truthy (ApkController.inputPath b));
    destruct (ApkController.truthy (ApkController.outputPath b)); simpl;
    split; try done; try by intros msg s' [= <- <-].
  intros msg s'.
  by destruct (mergeApks _ _ _ _) as [[v|e] w'].
Qed.

Lemma mergeApk_bad_request_witness :
  ApkController.mergeApk env_ok
    (ApkController.Body (Some []) (Some (lit "out.apk"))) server_example
  = (ApkController.HttpException
       (lit "inputPath and outputPath are required")
       ApkController.BAD_REQUEST, server_example).
Proof.
  apply (proj1 (mergeApk_bad_request env_ok
                  (ApkController.Body (Some []) (Some (lit "out.apk")))
                  server_example)).
  reflexivity.
Defined.

(** X23. With both paths given, the handler returns
    [{ success: true, path: outputPath }] when the service resolves; when the
    service rejects it prints the error and throws a 500 whose text is the
    message of that error, or [Failed to merge APKs] when that message is
    empty, so the text is never empty. The state of the service is in both
    cases the one the service left. *)
Theorem mergeApk_completion (env : environment) (i o : jsstring)
    (s : ApkController.state) (r : result jsstring) (w' : world) :
  i ≠ [] → o ≠ [] →
  mergeApks env i o (ApkController.service s) = (r, w') →
  match r with
  | Ok _ =>
      ApkController.mergeApk env (ApkController.Body (Some i) (Some o)) s
      = (ApkController.Returned true o,
         ApkController.State w' (ApkController.console s))
  | Throw e =>
      ∃ msg,
        ApkController.mergeApk env (ApkController.Body (Some i) (Some o)) s
        = (ApkController.HttpException msg
             ApkController.INTERNAL_SERVER_ERROR,
           ApkController.State w' (ApkController.console s ++ [e]))
        ∧ msg ≠ []
        ∧ (message e ≠ [] → msg = message e)
        ∧ (message e = [] → msg = lit "Failed to merge APKs")
  end.
Proof.
  intros Hi Ho Hrun. unfold ApkController.mergeApk.
  destruct i as [|ci i]; [done|]. destruct o as [|co o]; [done|].
  cbn [ApkController.truthy ApkController.inputPath ApkController.outputPath
       negb orb from_option id].
  rewrite Hrun. destruct r as [v|e].
  - by rewrite (mergeApks_Ok_value _ _ _ _ _ _ Hrun).
  - eexists. split; [done|]. destruct (message e); simpl; done.
Qed.

Lemma mergeApk_completion_witness :
  ∃ msg,
    ApkController.mergeApk env_refusing
      (ApkController.Body (Some (lit "in")) (Some (lit "out.apk")))
      server_example
    = (ApkController.HttpException msg ApkController.INTERNAL_SERVER_ERROR,
       ApkController.State
         (mergeApks env_refusing (lit "in") (lit "out.apk")
            (ApkController.service server_example)).2
         (ApkController.console server_example ++ [SysError EPERM]))
    ∧ msg ≠ []
    ∧ (message (SysError EPERM) ≠ [] → msg = message (SysError EPERM))
    ∧ (message (SysError EPERM) = [] → msg = lit "Failed to merge APKs").
Proof.
  apply (mergeApk_completion env_refusing (lit "in") (lit "out.apk")
           server_example (Throw (SysError EPERM))).
  - done.
  - done.
  - vm_compute. reflexivity.
Defined.

(** The merged archive can be at the destination although the client is
    told 500: the removal of the workspace failed after the copy. *)
Example mergeApk_500_after_delivery :
  let '(c, s') :=
    ApkController.mergeApk env_refusing
      (ApkController.Body (Some (lit "in")) (Some (lit "out.apk")))
      server_example in
  c = ApkController.HttpException (lit "EPERM")
        ApkController.INTERNAL_SERVER_ERROR
  ∧ output (ApkController.service s') = Some (File (lit "built aligned")).
Proof. vm_compute. done. Qed.

(** ** Device queries: what the parsers of [AdbService] return *)

Lemma trimStart_clean s :
  (∀ c, head s = Some c → isWhiteSpace c = false) → trimStart s = s.
Proof. destruct s as [|c s]; simpl; [done|]. intros H. by rewrite H. Qed.

Lemma trimEnd_snoc_ws s c :
  isWhiteSpace c = true → trimEnd (s ++ [c]) = trimEnd s.
Proof. intros Hc. unfold trimEnd. rewrite rev_unit. simpl. by rewrite Hc. Qed.

Lemma trimEnd_clean s : ends_clean s → trimEnd s = s.
Proof.
  intros Hs. unfold trimEnd. rewrite trimStart_clean; [apply rev_involutive|].
  intros c Hc. apply Hs.
  destruct s as [|x s _] using rev_ind; [done|].
  rewrite rev_unit in Hc. injection Hc as ->. apply last_snoc.
Qed.

(** Trimming what a command prints: a text that begins and ends with
    something else than white space, followed by line feeds. *)
Lemma trim_printed s c0 s0 feeds :
  s = c0 :: s0 → isWhiteSpace c0 = false → ends_clean s →
  Forall (λ c, c = 10%N) feeds →
  trim (s ++ feeds) = s.
Proof.
  intros -> Hc0 Hs Hfeeds. unfold trim.
  rewrite trimStart_clean by (simpl; by intros c [= <-]).
  induction feeds as [|c feeds IH] using rev_ind.
  - rewrite app_nil_r. by apply trimEnd_clean.
  - apply Forall_app in Hfeeds as [Hfeeds [-> _]%Forall_cons].
    rewrite (assoc_L (++)), trimEnd_snoc_ws by done. by apply IH.
Qed.

Lemma join_nl_cons l l' ls :
  join_nl (l :: l' :: ls) = l ++ 10%N :: join_nl (l' :: ls).
Proof. done. Qed.

Lemma ends_clean_app (a b : jsstring) :
  ends_clean a → ends_clean b → ends_clean (a ++ b).
Proof.
  intros Ha Hb c Hc. apply last_app_Some in Hc as [Hc|[_ Hc]].
  - by apply Hb.
  - by apply Ha.
Qed.

Lemma ends_clean_app_cons (a : jsstring) (x : N) (b : jsstring) :
  b ≠ [] → ends_clean b → ends_clean (a ++ x :: b).
Proof.
  intros Hne Hb c Hc. apply Hb.
  apply last_app_Some in Hc as [Hc|[Hc _]].
  - destruct b; [done|]. by rewrite last_cons_cons in Hc.
  - by apply last_None in Hc.
Qed.

Lemma join_nl_ends_clean ls :
  ls ≠ [] → Forall (λ l, l ≠ [] ∧ ends_clean l) ls →
  join_nl ls ≠ [] ∧ ends_clean (join_nl ls).
Proof.
  induction ls as [|l [|l' ls] IH]; intros Hne Hall; [done|..].
  - by apply Forall_cons in Hall as [? _].
  - apply Forall_cons in Hall as [_ Hall].
    destruct (IH ltac:(done) Hall) as [Hj Hc]. rewrite join_nl_cons. split.
    + by destruct l.
    + by apply ends_clean_app_cons.
Qed.

Lemma includes_app a b pat :
  AdbService.includes b pat = true → AdbService.includes (a ++ b) pat = true.
Proof.
  intros Hb. induction a as [|c a IH]; simpl; [done|].
  rewrite IH. apply orb_true_r.
Qed.

Lemma split_tab_line serial rest :
  9%N ∉ serial →
  AdbService.split_tab (serial ++ 9%N :: rest)
  = serial :: AdbService.split_tab rest.
Proof.
  induction serial as [|c l IH]; intros Hl; simpl; [done|].
  apply not_elem_of_cons in Hl as [Hc Hl].
  destruct (N.eqb_spec c 9) as [->|_]; [done|]. by rewrite IH.
Qed.

Lemma word_ends_clean s : word s → s ≠ [] ∧ ends_clean s.
Proof.
  intros [Hne Hs]. split; [done|]. intros c Hc.
  apply last_Some_elem_of in Hc. by apply (proj1 (Forall_forall _ _) Hs).
Qed.

Lemma device_lines_parse (devs : list (jsstring * jsstring)) :
  Forall (λ d, 9%N ∉ d.1) devs →
  map (λ line, match AdbService.split_tab line with
               | serial :: _ => serial
               | [] => []
               end)
      (filter (λ line, AdbService.includes line (lit "device") = true)
              (map (λ d, d.1 ++ 9%N :: d.2) devs))
  = map fst (filter (λ d, AdbService.includes (d.1 ++ 9%N :: d.2)
                            (lit "device") = true) devs).
Proof.
  induction 1 as [|d devs Hd _ IH]; [done|].
  cbn [map]. rewrite !filter_cons. cbv beta.
  destruct (decide _) as [Hinc|Hinc]; [|apply IH].
  cbn [map]. f_equal; [|apply IH]. by rewrite split_tab_line.
Qed.

(** X24. [getDevices] never fails: when [adb devices] cannot be run it
    returns the empty list. On what [adb devices] prints (the heading, one
    line [serial<TAB>state] per device, an empty line) it returns the serial
    numbers, in order, of the lines in which [device] occurs anywhere: all the
    devices when each is in the state [device], but also a device in another
    state whose serial number holds that word. *)
Theorem getDevices_parses (execAsync : jsstring → result jsstring) :
  (∀ e, execAsync (lit "adb devices") = Throw e →
        AdbService.getDevices execAsync = [])
  ∧ (∀ devs,
       execAsync (lit "adb devices") = Ok (adb_devices_output devs) →
       Forall (λ d, (9%N ∉ d.1) ∧ (10%N ∉ d.1) ∧ word d.2) devs →
       AdbService.getDevices execAsync
       = map fst (filter (λ d, AdbService.includes (d.1 ++ 9%N :: d.2)
                                 (lit "device") = true) devs)
       ∧ (Forall (λ d, d.2 = lit "device") devs →
          AdbService.getDevices execAsync = map fst devs)).
Proof.
  split.
  { intros e He. unfold AdbService.getDevices. by rewrite He. }
  intros devs Hexec Hdevs.
  assert (AdbService.getDevices execAsync
          = map fst (filter (λ d, AdbService.includes (d.1 ++ 9%N :: d.2)
                                    (lit "device") = true) devs)) as Hparse.
  { unfold AdbService.getDevices. rewrite Hexec. cbv zeta.
    unfold adb_devices_output.
    set (L := lit "List of devices attached" :: _).
    assert (Forall (λ l, l ≠ [] ∧ ends_clean l) L) as Hclean.
    { constructor.
      - split; [done|]. intros c [= <-]. done.
      - apply Forall_fmap, (Forall_impl _ _ _ Hdevs).
        intros [serial st] (_ & _ & Hw). simpl.
        destruct (word_ends_clean _ Hw) as [Hne Hc]. split.
        + by destruct serial.
        + by apply ends_clean_app_cons. }
    destruct (join_nl_ends_clean L) as [_ Hends]; [done|done|].
    assert (∃ s0, join_nl L = 76%N :: s0) as [s0 Hhead].
    { unfold L. destruct devs; simpl; by eexists. }
    rewrite (trim_printed _ 76%N s0); try done; [|by repeat constructor].
    rewrite split_join; [|done|].
    - simpl drop. apply device_lines_parse.
      eapply Forall_impl; [exact Hdevs|]. by intros d (? & _).
    - constructor.
      + unfold no_newline. by apply (bool_decide_unpack _).
      + apply Forall_fmap, (Forall_impl _ _ _ Hdevs).
        intros [serial st] (_ & Hs & Hw). simpl. unfold no_newline.
        rewrite elem_of_app, elem_of_cons. intros [?|[?|Hst]]; [done..|].
        destruct Hw as [_ Hw].
        by apply (proj1 (Forall_forall _ _) Hw) in Hst. }
  split; [done|]. intros Hall. rewrite Hparse. f_equal.
  clear Hparse Hexec Hdevs.
  induction Hall as [|[serial st] devs Hd _ IH]; [done|].
  simpl in Hd. subst st. rewrite filter_cons.
  destruct (decide _) as [_|Hn]; [f_equal; apply IH|].
  destruct Hn. simpl. by apply includes_app.
Qed.

Lemma getDevices_parses_witness :
  AdbService.getDevices adb_example
  = map fst (filter (λ d, AdbService.includes (d.1 ++ 9%N :: d.2)
                            (lit "device") = true) devices_example)
  ∧ (Forall (λ d, d.2 = lit "device") devices_example →
     AdbService.getDevices adb_example = map fst devices_example).
Proof.
  apply (proj2 (getDevices_parses adb_example) devices_example).
  - reflexivity.
  - unfold word. apply (bool_decide_unpack _). vm_compute. exact I.
Defined.

Example getDevices_example :
  AdbService.getDevices adb_example
  = map lit ["emulator-5554"; "mydevice01"; "192.168.1.5:5555"]%string.
Proof. vm_compute. reflexivity. Qed.

Lemma replace_prefix pat s rep : replace (pat ++ s) pat rep = rep ++ s.
Proof.
  assert (startsWith (pat ++ s) pat = true) as Hsw.
  { induction pat as [|c pat IH]; simpl; [apply startsWith_nil|].
    by rewrite N.eqb_refl. }
  destruct pat as [|c pat]; [by destruct s|].
  cbn [replace app]. cbn [app] in Hsw. rewrite Hsw.
  cbn [length drop]. by rewrite drop_app_length.
Qed.

Lemma package_lines_parse stdout names :
  names ≠ [] →
  Forall (λ n, no_newline n ∧ ends_clean n) names →
  stdout = pm_output names →
  map (λ line, replace line (lit "package:") []) (split_nl (trim stdout))
  = names.
Proof.
  intros Hne Hnames ->. unfold pm_output.
  set (L := map (λ n, lit "package:" ++ n) names).
  assert (L ≠ []) as HL by (unfold L; by destruct names).
  assert (Forall (λ l, l ≠ [] ∧ ends_clean l) L) as Hclean.
  { apply Forall_fmap, (Forall_impl _ _ _ Hnames). intros n [_ Hc].
    unfold compose. split; [by change (lit "package:") with (112%N :: lit "ackage:")|].
    apply ends_clean_app; [|done].
    intros c Hlast. vm_compute in Hlast. by injection Hlast as <-. }
  destruct (join_nl_ends_clean L) as [_ Hends]; [done|done|].
  assert (∃ s0, join_nl L = 112%N :: s0) as [s0 Hhead].
  { unfold L. destruct names as [|n [|n' names]]; [done|..]; simpl;
      by eexists. }
  rewrite (trim_printed _ 112%N s0); try done; [|by repeat constructor].
  rewrite split_join; [|done|].
  - unfold L. rewrite <-list_fmap_compose.
    rewrite <-(list_fmap_id names) at 2. apply list_fmap_ext.
    intros _ n _. cbv beta. apply (replace_prefix (lit "package:") n []).
  - apply Forall_fmap, (Forall_impl _ _ _ Hnames). intros n [Hn _].
    unfold compose, no_newline in *.
    rewrite elem_of_app. intros [Hp|?]; [|done].
    revert Hp. by apply (bool_decide_unpack _).
Qed.

(** X25. [listPackages] and [getApkPaths] never fail: when the command cannot
    be run or exits with an error they return the empty list. On what
    [pm list packages] and [pm path] print, one line [package:<entry>] per
    entry, they return the entries in order. A command that succeeds and
    prints nothing but white space yields one entry, the empty string, never
    the empty list. *)
Theorem package_queries_parse (execAsync : jsstring → result jsstring)
    (packageName : jsstring) (device : option jsstring) :
  (∀ e,
     execAsync (lit "adb " ++ AdbService.deviceFlag device
                ++ lit " shell pm list packages -3") = Throw e →
     AdbService.listPackages execAsync device = [])
  ∧ (∀ e,
       execAsync (lit "adb " ++ AdbService.deviceFlag device
                  ++ lit " shell pm path " ++ packageName) = Throw e →
       AdbService.getApkPaths execAsync packageName device = [])
  ∧ (∀ names,
       names ≠ [] → Forall (λ n, no_newline n ∧ ends_clean n) names →
       (execAsync (lit "adb " ++ AdbService.deviceFlag device
                   ++ lit " shell pm list packages -3")
        = Ok (pm_output names) →
        AdbService.listPackages execAsync device = names)
       ∧ (execAsync (lit "adb " ++ AdbService.deviceFlag device
                     ++ lit " shell pm path " ++ packageName)
          = Ok (pm_output names) →
          AdbService.getApkPaths execAsync packageName device = names))
  ∧ (∀ stdout,
       trim stdout = [] →
       (execAsync (lit "adb " ++ AdbService.deviceFlag device
                   ++ lit " shell pm list packages -3") = Ok stdout →
        AdbService.listPackages execAsync device = [[]])
       ∧ (execAsync (lit "adb " ++ AdbService.deviceFlag device
                     ++ lit " shell pm path " ++ packageName) = Ok stdout →
          AdbService.getApkPaths execAsync packageName device = [[]])).
Proof.
  unfold AdbService.listPackages, AdbService.getApkPaths.
  split_and!.
  - by intros e ->.
  - by intros e ->.
  - intros names Hne Hnames. split; intros ->;
      by apply package_lines_parse.
  - intros stdout Hblank. split; intros ->; by rewrite Hblank.
Qed.

Lemma package_queries_parse_witness :
  AdbService.getApkPaths adb_example (lit "com.example.app") None
  = map lit ["/data/app/x/base.apk"; "/data/app/x/split_config.en.apk"]%string.
Proof.
  refine (proj2 (proj1 (proj2 (proj2
            (package_queries_parse adb_example (lit "com.example.app") None)))
            (map lit ["/data/app/x/base.apk";
                      "/data/app/x/split_config.en.apk"]%string) _ _) _).
  - done.
  - repeat constructor; try (by apply (bool_decide_unpack _));
      intros c Hc; vm_compute in Hc; by injection Hc as <-.
  - reflexivity.
Defined.

Example package_queries_example :
  AdbService.listPackages adb_example (Some (lit "emulator-5554"))
  = map lit ["com.example.app"; "org.demo"]%string
  ∧ AdbService.getApkPaths adb_example (lit "com.example.app") None
    = map lit ["/data/app/x/base.apk";
               "/data/app/x/split_config.en.apk"]%string
  ∧ AdbService.getApkPaths adb_example (lit "not.installed") None = [].
Proof. vm_compute. done. Qed.

